(** * Secure SFTP transfer pipeline: a shallow embedding of the Python sources

    The development follows the modules of the repository:

    - [encryption.py]  ([AESCipher], [FileEncryptionManager]),
    - [sftp_client.py] ([SFTPManager]),
    - [server.py]      (the [compression_ratio] expression and the remote
                        name of [upload_file]),
    - [database.py]    (the in-memory storage of [Database]).

    Python values keep their shape: [str] is a list of Unicode code points,
    [bytes] a list of [Byte.byte], a [dict] with string keys an association
    list in insertion order (the dicts that [Database] keeps are objects
    with an identity, held in a map from identities to what they hold),
    an exception a class with a message.  Calls that leave the process
    (paramiko, the file system, the console) are events appended to a
    trace; what the outside answers is an oracle. *)

From Stdlib Require Import ZArith NArith List Lia Bool.
From Stdlib Require Import Strings.String Strings.Ascii Strings.Byte.
From Stdlib Require Import Sorting.Sorted.
From stdpp Require Import base option list gmap.

Open Scope Z_scope.
Set Warnings "-register-all".

(** ** Python core values *)

Module Py.

(** A Python [str]: a sequence of code points (each at most 0x10FFFF). *)
Definition str := list N.

(** A Python [bytes] object. *)
Definition bytes := list byte.

(** A literal of the source text, as a [str]. *)
Definition lit (s : string) : str := map N_of_ascii (list_ascii_of_string s).

(** [len(x)] *)
Definition len {A} (l : list A) : Z := Z.of_nat (length l).

(** The exception classes the three modules raise, catch or receive. *)
Inductive exn_class :=
| Exception
| ValueError
| TypeError
| OverflowError
| ZeroDivisionError
| NameError
| SyntaxError
| UnicodeEncodeError
| UnicodeDecodeError
| OSError
| FileNotFoundError
| BinasciiError
| InvalidToken
| SSHException
| NotModelled.

(** [NotModelled] is no Python class: it marks an input on which the
    embedding of a built-in stops (source text outside the fragment of
    expressions that [eval] is given here).  No statement below rests
    on it. *)

(** An exception instance; [msg] is what [str(e)] gives. *)
Record exn := mk_exn { cls : exn_class; msg : str }.

#[global] Instance exn_class_eq_dec : EqDecision exn_class.
Proof. solve_decision. Defined.

(** The direct base class ([Exception] is the root used here). *)
Definition base_class (c : exn_class) : option exn_class :=
  match c with
  | Exception => None
  | UnicodeEncodeError | UnicodeDecodeError | BinasciiError => Some ValueError
  | FileNotFoundError => Some OSError
  | _ => Some Exception
  end.

(** [isinstance(e, c)], three levels of the hierarchy being enough. *)
Definition isinstance (e : exn) (c : exn_class) : bool :=
  bool_decide (cls e = c)
  || match base_class (cls e) with
     | Some b => bool_decide (b = c)
                 || match base_class b with
                    | Some b' => bool_decide (b' = c)
                    | None => false
                    end
     | None => false
     end.

(** The outcome of a call: a value, or a raised exception. *)
Inductive outcome (A : Type) :=
| Return (a : A)
| Raise (e : exn).
Arguments Return {A} a.
Arguments Raise {A} e.

(** Python values as far as the modules build and print them. *)
Inductive value :=
| PNone
| PBool (b : bool)
| PInt (z : Z)
| PStr (s : str)
| PBytes (b : bytes)
| PList (l : list value)
| PDict (d : list (str * value))
| PModule (name : str)
| PBuiltin (name : str).

(** [d[k]] on an insertion-ordered dict. *)
Fixpoint dict_get (d : list (str * value)) (k : str) : option value :=
  match d with
  | [] => None
  | (k', v) :: r => if bool_decide (k' = k) then Some v else dict_get r k
  end.

(** Truth value testing. *)
Definition truthy (v : value) : bool :=
  match v with
  | PNone => false
  | PBool b => b
  | PInt z => negb (z =? 0)
  | PStr s => negb (bool_decide (s = []))
  | PBytes b => negb (bool_decide (b = []))
  | PList l => match l with [] => false | _ => true end
  | PDict d => match d with [] => false | _ => true end
  | PModule _ | PBuiltin _ => true
  end.

(** Truth value of an [Optional[str]] ([None] and [''] are false). *)
Definition truthy_opt (o : option str) : bool :=
  match o with
  | None => false
  | Some s => negb (bool_decide (s = []))
  end.

(** [x or default] on an [Optional[str]]. *)
Definition or_str (o : option str) (d : str) : str :=
  match o with
  | Some s => if bool_decide (s = []) then d else s
  | None => d
  end.

(** [str.lower()] on the ASCII letters.  The Unicode case table is not
    part of the sources; no code point outside A-Z lowers to one of
    the letters of ['true'], the only string a lowered value is compared
    with. *)
Definition lower_cp (c : N) : N :=
  if ((65 <=? c) && (c <=? 90))%N then (c + 32)%N else c.
Definition lower (s : str) : str := map lower_cp s.

(** [s.startswith(c)] for a one-character prefix. *)
Definition startswith1 (s : str) (c : N) : bool :=
  match s with
  | x :: _ => (x =? c)%N
  | [] => false
  end.

(** [sub in s] for strings. *)
Fixpoint is_prefix (p s : str) : bool :=
  match p, s with
  | [], _ => true
  | a :: p', b :: s' => (a =? b)%N && is_prefix p' s'
  | _ :: _, [] => false
  end.
Fixpoint contains (sub s : str) : bool :=
  is_prefix sub s || match s with [] => false | _ :: r => contains sub r end.

(** The decimal digits of a natural number. *)
Fixpoint decimal_fuel (fuel : nat) (n : N) (acc : str) : str :=
  match fuel with
  | O => acc
  | S f =>
      let acc' := (48 + n mod 10)%N :: acc in
      if (n <? 10)%N then acc' else decimal_fuel f (n / 10)%N acc'
  end.
Definition decimal (n : N) : str := decimal_fuel (S (N.to_nat (N.log2 n))) n [].

(** The process environment and [os.getenv]. *)
Definition environ := gmap str str.
Definition getenv (env : environ) (k : string) : option str := env !! lit k.
Definition getenv_default (env : environ) (k : string) (d : str) : str :=
  default d (env !! lit k).

End Py.
Export Py.

(** ** posixpath *)

Module posixpath.

Definition sep : N := 47.

(** [s.rfind(c)]: the highest index of [c], or -1. *)
Fixpoint rfind_from (c : N) (s : str) (i acc : Z) : Z :=
  match s with
  | [] => acc
  | x :: r => rfind_from c r (i + 1) (if (x =? c)%N then i else acc)
  end.
Definition rfind (c : N) (s : str) : Z := rfind_from c s 0 (-1).

(** [i = p.rfind('/') + 1; return p[i:]] *)
Definition basename (p : str) : str :=
  let i := rfind sep p + 1 in
  drop (Z.to_nat i) p.

(** [s.split('/')] *)
Fixpoint split_sep (s : str) : list str :=
  match s with
  | [] => [[]]
  | c :: r =>
      if (c =? sep)%N then [] :: split_sep r
      else match split_sep r with
           | w :: ws => (c :: w) :: ws
           | [] => [[c]]
           end
  end.

(** ['/'.join(comps)] *)
Fixpoint join_sep (comps : list str) : str :=
  match comps with
  | [] => []
  | [w] => w
  | w :: ws => w ++ sep :: join_sep ws
  end.

Definition dot : str := [46%N].
Definition dotdot : str := [46%N; 46%N].

(** The loop of [normpath] over the components; [new_comps] is kept
    reversed, its head being [new_comps[-1]]. *)
Fixpoint normpath_loop (initial_slashes : nat) (comps new_comps : list str)
  : list str :=
  match comps with
  | [] => rev new_comps
  | comp :: rest =>
      if bool_decide (comp = []) || bool_decide (comp = dot)
      then normpath_loop initial_slashes rest new_comps
      else if negb (bool_decide (comp = dotdot))
              || (Nat.eqb initial_slashes 0
                  && bool_decide (new_comps = []))
              || match new_comps with
                 | last :: _ => bool_decide (last = dotdot)
                 | [] => false
                 end
      then normpath_loop initial_slashes rest (comp :: new_comps)
      else normpath_loop initial_slashes rest (tl new_comps)
  end.

Definition normpath (path : str) : str :=
  if bool_decide (path = []) then dot
  else
    let initial_slashes :=
      if startswith1 path sep
      then if is_prefix [sep; sep] path && negb (is_prefix [sep; sep; sep] path)
           then 2%nat else 1%nat
      else 0%nat in
    let comps := normpath_loop initial_slashes (split_sep path) [] in
    let path' := repeat sep initial_slashes ++ join_sep comps in
    if bool_decide (path' = []) then dot else path'.

End posixpath.

(** ** The outside world of the transport: events and oracle *)

Module World.

Inductive host_key_policy := AutoAddPolicy | RejectPolicy.

(** One entry of [sftp.listdir_attr]. *)
Record sftp_attr := {
  a_filename : str;
  a_size : Z;
  a_mtime : option Z;
  a_mode : option Z
}.

(** Every call that leaves the interpreter, in source order of first use. *)
Inductive event :=
| EPrint (text : str)
| ESSHClient
| ELoadSystemHostKeys
| ELoadHostKeys (path : str)
| ESetMissingHostKeyPolicy (p : host_key_policy)
| EConnect (hostname : str) (port : Z) (username password : str) (timeout : Z)
| EOpenSftp
| EListdir (path : str)
| EMkdir (path : str)
| ENamedTemporaryFile (written : option bytes)
| EPut (localpath remotepath : str)
| EChmod (path : str) (mode : Z)
| EStat (path : str)
| EGet (remotepath localpath : str)
| EReadFile (path : str)
| EPathExists (path : str)
| EUnlink (path : str)
| EListdirAttr (path : str)
| ERemove (path : str)
| ESftpClose
| ESshClose
| ENow
| ESystem (command : str).

Definition trace := list event.

(** The events that create a session or touch the network. *)
Definition is_network (e : event) : bool :=
  match e with
  | EPrint _ | ENamedTemporaryFile _ | EReadFile _ | EPathExists _
  | EUnlink _ | ENow | ESystem _ => false
  | _ => true
  end.

(** What the outside answers to a call, given everything done so far.
    [None] is a normal return without a value. *)
Record oracle := {
  os_path_expanduser : str -> str;
  load_system_host_keys : trace -> option exn;
  load_host_keys : trace -> str -> option exn;
  ssh_connect : trace -> str -> Z -> str -> str -> option exn;
  ssh_open_sftp : trace -> option exn;
  sftp_listdir : trace -> str -> outcome (list str);
  sftp_mkdir : trace -> str -> option exn;
  named_temporary_file : trace -> outcome str;
  sftp_put : trace -> str -> str -> option exn;
  sftp_chmod : trace -> str -> Z -> option exn;
  sftp_stat : trace -> str -> option exn;
  sftp_get : trace -> str -> str -> option exn;
  file_read : trace -> str -> outcome bytes;
  os_path_exists : trace -> str -> bool;
  os_unlink : trace -> str -> option exn;
  sftp_listdir_attr : trace -> str -> outcome (list sftp_attr);
  sftp_remove : trace -> str -> option exn;
  sftp_close : trace -> option exn;
  ssh_close : trace -> option exn;
  isoformat_fromtimestamp : Z -> str;
  isoformat_now : trace -> str;
  os_system : trace -> str -> Z
}.

(** Computations over the trace that may raise. *)
Definition M (A : Type) : Type := trace -> outcome A * trace.

Definition ret {A} (a : A) : M A := fun tr => (Return a, tr).
Definition raise {A} (e : exn) : M A := fun tr => (Raise e, tr).
Definition bind {A B} (m : M A) (k : A -> M B) : M B :=
  fun tr => match m tr with
            | (Return a, tr') => k a tr'
            | (Raise e, tr') => (Raise e, tr')
            end.

(** [try: m  except <any>: h e] *)
Definition try_except {A} (m : M A) (h : exn -> M A) : M A :=
  fun tr => match m tr with
            | (Return a, tr') => (Return a, tr')
            | (Raise e, tr') => h e tr'
            end.

(** [try: m  except c: h e], other classes propagating. *)
Definition try_except_cls {A} (c : exn_class) (m : M A) (h : exn -> M A) : M A :=
  try_except m (fun e => if isinstance e c then h e else raise e).

(** [try: m  finally: f]; an exception of [f] replaces the outcome. *)
Definition try_finally {A} (m : M A) (f : M unit) : M A :=
  fun tr => match m tr with
            | (r, tr') => match f tr' with
                          | (Return _, tr'') => (r, tr'')
                          | (Raise e, tr'') => (Raise e, tr'')
                          end
            end.

(** A call answered by an optional exception. *)
Definition call (ev : event) (answer : trace -> option exn) : M unit :=
  fun tr => (match answer tr with
             | None => Return tt
             | Some e => Raise e
             end, tr ++ [ev]).

(** A call answered by a value or an exception. *)
Definition ask {A} (ev : event) (answer : trace -> outcome A) : M A :=
  fun tr => (answer tr, tr ++ [ev]).

Definition print (text : str) : M unit := call (EPrint text) (fun _ => None).

End World.
Export World.

Notation "'let*' x ':=' m 'in' k" := (World.bind m (fun x => k))
  (at level 10, x pattern, m at level 100, k at level 200).
Notation "m ';;' k" := (World.bind m (fun _ => k))
  (at level 100, k at level 200, right associativity, only parsing).

(** ** sftp_client.py *)

Module sftp_client.

Section SFTPManager.

(** The built-in [int] on a string; its digit and space tables are not
    part of the sources. *)
Variable int_of_str : str -> outcome Z.

(** What the network, the file system and the clock answer. *)
Variable W : oracle.

Record SFTPManager := {
  host : option str;
  port : Z;
  username : option str;
  password : option str;
  remote_path : str;
  dev_mode : bool
}.

Definition failure (error : str) : value :=
  PDict [(lit "success", PBool false); (lit "error", PStr error)].

Definition dev_mode_error : str :=
  lit "SFTP not configured - running in development mode".

Definition configuration_message : str :=
  lit "SFTP configuration required: Set SFTP_HOST, SFTP_USERNAME, and SFTP_PASSWORD environment variables. "
  ++ lit "For security, no default credentials are provided. "
  ++ lit "For development/testing, set SFTP_DEV_MODE=true to disable SFTP operations.".

Definition __init__ (env : environ) : M SFTPManager :=
  let host := getenv env "SFTP_HOST" in
  match int_of_str (getenv_default env "SFTP_PORT" (lit "22")) with
  | Raise e => raise e
  | Return port =>
      let username := getenv env "SFTP_USERNAME" in
      let password := getenv env "SFTP_PASSWORD" in
      let remote_path := getenv_default env "SFTP_REMOTE_PATH" (lit "/uploads") in
      let dev_mode :=
        bool_decide (lower (getenv_default env "SFTP_DEV_MODE" (lit "false"))
                     = lit "true") in
      let self := {| host := host; port := port; username := username;
                     password := password; remote_path := remote_path;
                     dev_mode := dev_mode |} in
      if negb (truthy_opt host) || negb (truthy_opt username)
         || negb (truthy_opt password)
      then
        if negb dev_mode
        then raise (mk_exn ValueError configuration_message)
        else
          print (lit "WARNING: Running in development mode - SFTP operations will fail gracefully") ;;
          ret self
      else ret self
  end.

(** [try: f  except: pass] *)
Definition swallow (m : M unit) : M unit := try_except m (fun _ => ret tt).

Definition _get_sftp_connection (env : environ) (self : SFTPManager) : M unit :=
  try_except
    (call ESSHClient (fun _ => None) ;;
     try_except_cls FileNotFoundError
       (call ELoadSystemHostKeys (load_system_host_keys W) ;;
        let path := os_path_expanduser W (lit "~/.ssh/known_hosts") in
        call (ELoadHostKeys path) (fun tr => load_host_keys W tr path))
       (fun _ => ret tt) ;;
     (if bool_decide (lower (getenv_default env "SFTP_ACCEPT_UNKNOWN_HOSTS" (lit "false"))
                      = lit "true")
      then call (ESetMissingHostKeyPolicy AutoAddPolicy) (fun _ => None)
      else call (ESetMissingHostKeyPolicy RejectPolicy) (fun _ => None)) ;;
     match host self, username self, password self with
     | Some h, Some u, Some p =>
         if bool_decide (h = []) || bool_decide (u = []) || bool_decide (p = [])
         then raise (mk_exn ValueError (lit "SFTP connection parameters missing"))
         else
           call (EConnect h (port self) u p 10)
                (fun tr => ssh_connect W tr h (port self) u p) ;;
           call EOpenSftp (ssh_open_sftp W)
     | _, _, _ =>
         raise (mk_exn ValueError (lit "SFTP connection parameters missing"))
     end)
    (fun e => print (lit "SFTP connection error: " ++ msg e) ;; raise e).

(** The [finally] blocks: remove the staged file, close the session. *)
Definition cleanup (temp_file_path : option str) (connected : bool) : M unit :=
  (if truthy_opt temp_file_path
   then
     let p := default [] temp_file_path in
     let* there := ask (EPathExists p) (fun tr => Return (os_path_exists W tr p)) in
     if there : bool
     then try_except_cls OSError
            (call (EUnlink p) (fun tr => os_unlink W tr p))
            (fun e => print (lit "Warning: Could not remove temp file " ++ p
                             ++ lit ": " ++ msg e))
     else ret tt
   else ret tt) ;;
  if connected
  then swallow (call ESftpClose (sftp_close W)) ;;
       swallow (call ESshClose (ssh_close W))
  else ret tt.

Definition reraise_printing {A} (what : string) (e : exn) : M A :=
  print (lit what ++ msg e) ;; raise e.

Definition _upload_via_sftp (env : environ) (self : SFTPManager)
    (file_data : bytes) (remote_filename : str) : M value :=
  let handler := reraise_printing "SFTP upload error: " in
  fun tr =>
    match _get_sftp_connection env self tr with
    | (Raise e, tr1) => try_finally (handler e) (cleanup None false) tr1
    | (Return _, tr1) =>
        match
          (try_except_cls FileNotFoundError
             (let* _ := ask (EListdir (remote_path self))
                            (fun tr => sftp_listdir W tr (remote_path self)) in
              ret tt)
             (fun _ => call (EMkdir (remote_path self))
                            (fun tr => sftp_mkdir W tr (remote_path self))) ;;
           ask (ENamedTemporaryFile (Some file_data)) (named_temporary_file W)) tr1
        with
        | (Raise e, tr2) => try_finally (handler e) (cleanup None true) tr2
        | (Return temp_file_path, tr2) =>
            let remote_file_path :=
              remote_path self ++ lit "/" ++ remote_filename in
            try_finally
              (try_except
                 (call (EPut temp_file_path remote_file_path)
                       (fun tr => sftp_put W tr temp_file_path remote_file_path) ;;
                  call (EChmod remote_file_path 384)
                       (fun tr => sftp_chmod W tr remote_file_path 384) ;;
                  ret (PDict [(lit "success", PBool true);
                              (lit "remote_filename", PStr remote_filename);
                              (lit "remote_path", PStr remote_file_path);
                              (lit "size", PInt (len file_data))]))
                 handler)
              (cleanup (Some temp_file_path) true) tr2
        end
    end.

Definition upload_file (env : environ) (self : SFTPManager)
    (file_data : bytes) (remote_filename : str) : M value :=
  try_except
    (if dev_mode self then ret (failure dev_mode_error)
     else
       let sanitized_filename := posixpath.basename remote_filename in
       if bool_decide (sanitized_filename = [])
          || startswith1 sanitized_filename 46
       then ret (failure (lit "Invalid filename"))
       else _upload_via_sftp env self file_data sanitized_filename)
    (fun e => print (lit "Upload error: " ++ msg e) ;; ret (failure (msg e))).

Definition _download_via_sftp (env : environ) (self : SFTPManager)
    (remote_filename : str) : M value :=
  let handler := reraise_printing "SFTP download error: " in
  fun tr =>
    match _get_sftp_connection env self tr with
    | (Raise e, tr1) => try_finally (handler e) (cleanup None false) tr1
    | (Return _, tr1) =>
        let remote_file_path := remote_path self ++ lit "/" ++ remote_filename in
        match call (EStat remote_file_path)
                   (fun tr => sftp_stat W tr remote_file_path) tr1 with
        | (Raise e, tr2) =>
            if isinstance e FileNotFoundError
            then try_finally
                   (ret (failure (lit "File not found on server")))
                   (cleanup None true) tr2
            else try_finally (handler e) (cleanup None true) tr2
        | (Return _, tr2) =>
            match ask (ENamedTemporaryFile None) (named_temporary_file W) tr2 with
            | (Raise e, tr3) => try_finally (handler e) (cleanup None true) tr3
            | (Return temp_file_path, tr3) =>
                try_finally
                  (try_except
                     (call (EGet remote_file_path temp_file_path)
                           (fun tr => sftp_get W tr remote_file_path temp_file_path) ;;
                      let* file_data :=
                        ask (EReadFile temp_file_path)
                            (fun tr => file_read W tr temp_file_path) in
                      ret (PDict [(lit "success", PBool true);
                                  (lit "data", PBytes file_data);
                                  (lit "size", PInt (len file_data))]))
                     handler)
                  (cleanup (Some temp_file_path) true) tr3
            end
        end
    end.

Definition download_file (env : environ) (self : SFTPManager)
    (remote_filename : str) : M value :=
  try_except
    (if dev_mode self then ret (failure dev_mode_error)
     else
       let sanitized_filename := posixpath.basename remote_filename in
       if bool_decide (sanitized_filename = [])
          || startswith1 sanitized_filename 46
       then ret (failure (lit "Invalid filename"))
       else _download_via_sftp env self sanitized_filename)
    (fun e => print (lit "Download error: " ++ msg e) ;; ret (failure (msg e))).

Definition file_info (tr : trace) (item : sftp_attr) : value :=
  PDict [(lit "filename", PStr (a_filename item));
         (lit "size", PInt (a_size item));
         (lit "modified",
          PStr (match a_mtime item with
                | Some t => if t =? 0 then isoformat_now W tr
                            else isoformat_fromtimestamp W t
                | None => isoformat_now W tr
                end));
         (lit "is_directory",
          PBool (match a_mode item with
                 | Some m => negb (Z.land m 16384 =? 0)
                 | None => false
                 end))].

Definition _list_files_via_sftp (env : environ) (self : SFTPManager)
    (remote_directory : option str) : M value :=
  let handler := reraise_printing "SFTP list error: " in
  fun tr =>
    match _get_sftp_connection env self tr with
    | (Raise e, tr1) => try_finally (handler e) (cleanup None false) tr1
    | (Return _, tr1) =>
        let directory := or_str remote_directory (remote_path self) in
        try_finally
          (try_except
             (let* items := ask (EListdirAttr directory)
                                (fun tr => sftp_listdir_attr W tr directory) in
              fun tr => (Return (PDict [(lit "success", PBool true);
                                        (lit "files", PList (map (file_info tr) items))]),
                         tr))
             handler)
          (cleanup None true) tr1
    end.

Definition list_files (env : environ) (self : SFTPManager)
    (remote_directory : option str) : M value :=
  try_except
    (if dev_mode self then ret (failure dev_mode_error)
     else
       if truthy_opt remote_directory
          && (let normalized_dir := posixpath.normpath (default [] remote_directory) in
              contains posixpath.dotdot normalized_dir
              || startswith1 normalized_dir 47)
       then ret (failure (lit "Invalid directory path"))
       else _list_files_via_sftp env self remote_directory)
    (fun e => print (lit "List files error: " ++ msg e) ;; ret (failure (msg e))).

Definition _delete_file_via_sftp (env : environ) (self : SFTPManager)
    (remote_filename : str) : M value :=
  let handler := reraise_printing "SFTP delete error: " in
  fun tr =>
    match _get_sftp_connection env self tr with
    | (Raise e, tr1) => try_finally (handler e) (cleanup None false) tr1
    | (Return _, tr1) =>
        let remote_file_path := remote_path self ++ lit "/" ++ remote_filename in
        match call (EStat remote_file_path)
                   (fun tr => sftp_stat W tr remote_file_path) tr1 with
        | (Raise e, tr2) =>
            if isinstance e FileNotFoundError
            then try_finally
                   (ret (failure (lit "File not found on server")))
                   (cleanup None true) tr2
            else try_finally (handler e) (cleanup None true) tr2
        | (Return _, tr2) =>
            try_finally
              (try_except
                 (call (ERemove remote_file_path)
                       (fun tr => sftp_remove W tr remote_file_path) ;;
                  ret (PDict [(lit "success", PBool true)]))
                 handler)
              (cleanup None true) tr2
        end
    end.

Definition delete_file (env : environ) (self : SFTPManager)
    (remote_filename : str) : M value :=
  try_except
    (if dev_mode self then ret (failure dev_mode_error)
     else
       let sanitized_filename := posixpath.basename remote_filename in
       if bool_decide (sanitized_filename = [])
          || startswith1 sanitized_filename 46
       then ret (failure (lit "Invalid filename"))
       else _delete_file_via_sftp env self sanitized_filename)
    (fun e => print (lit "Delete file error: " ++ msg e) ;; ret (failure (msg e))).

Definition _test_connection_via_sftp (env : environ) (self : SFTPManager)
  : M value :=
  let handler := reraise_printing "SFTP connection test error: " in
  fun tr =>
    match _get_sftp_connection env self tr with
    | (Raise e, tr1) => try_finally (handler e) (cleanup None false) tr1
    | (Return _, tr1) =>
        try_finally
          (try_except
             (let* _ := ask (EListdir (remote_path self))
                            (fun tr => sftp_listdir W tr (remote_path self)) in
              ret (PDict [(lit "success", PBool true);
                          (lit "message", PStr (lit "SFTP connection successful"))]))
             handler)
          (cleanup None true) tr1
    end.

Definition test_connection (env : environ) (self : SFTPManager) : M value :=
  try_except
    (if dev_mode self then ret (failure dev_mode_error)
     else _test_connection_via_sftp env self)
    (fun e => print (lit "Test connection error: " ++ msg e) ;; ret (failure (msg e))).

End SFTPManager.

(** [get_connection_status()] *)
Definition get_connection_status (self : SFTPManager) : value :=
  PDict [(lit "message",
          PStr (if truthy_opt (host self) && truthy_opt (username self)
                   && truthy_opt (password self)
                then lit "SFTP connection configured"
                else lit "SFTP not configured"));
         (lit "host", PStr (or_str (host self) (lit "Not configured")));
         (lit "username", PStr (or_str (username self) (lit "Not configured")))].

End sftp_client.

(** ** server.py: the compression ratio of an upload *)

Module server.

Section CompressionRatio.

(** Python's binary floating point and the four operations the
    expression uses, as the interpreter provides them. *)
Variable float : Type.
(** [a / b] on two ints with [b] non-zero (the rounded quotient). *)
Variable quotient : Z -> Z -> float.
(** [a - x] with an int on the left. *)
Variable int_minus : Z -> float -> float.
(** [x * a] with an int on the right. *)
Variable times_int : float -> Z -> float.
(** [round(x, ndigits)] *)
Variable round : float -> Z -> float.

(** A ratio is a float, or the int literal [0]. *)
Inductive number :=
| Float (x : float)
| Int (z : Z).

(** [a / b] on ints: division by zero raises. *)
Definition truediv (a b : Z) : outcome float :=
  if b =? 0
  then Raise (mk_exn ZeroDivisionError (lit "division by zero"))
  else Return (quotient a b).

(** [round((1 - compressed_size / original_size) * 100, 2)
     if original_size > 0 else 0] *)
Definition compression_ratio (compressed_size original_size : Z)
  : outcome number :=
  if 0 <? original_size
  then match truediv compressed_size original_size with
       | Return q => Return (Float (round (times_int (int_minus 1 q) 100) 2))
       | Raise e => Raise e
       end
  else Return (Int 0).

End CompressionRatio.

Arguments Float {float} x.
Arguments Int {float} z.

(** The name an upload is stored under:
    [f"{username}_{stamp}_{file.filename}.enc"], [stamp] being what
    [datetime.utcnow().strftime('%Y%m%d_%H%M%S')] gives. *)
Definition remote_filename (username stamp filename : str) : str :=
  username ++ lit "_" ++ stamp ++ lit "_" ++ filename ++ lit ".enc".

End server.

(** ** Byte arithmetic *)

Module Bytes.

(** The byte of a number, modulo 256. *)
Definition of_N (n : N) : byte :=
  match Byte.of_N (n mod 256) with
  | Some b => b
  | None => x00
  end.

Definition to_N (b : byte) : N := Byte.to_N b.

Definition of_Z (z : Z) : byte := of_N (Z.to_N (z mod 256)).
Definition to_Z (b : byte) : Z := Z.of_N (Byte.to_N b).

Definition xor (a b : byte) : byte := of_N (N.lxor (to_N a) (to_N b)).

Definition eqb (a b : byte) : bool := Byte.eqb a b.

#[global] Instance byte_eq_dec : EqDecision byte := Byte.byte_eq_dec.

(** Every byte, in order; used to settle byte-wise facts by enumeration. *)
Definition all : list byte := map (fun n => of_N (N.of_nat n)) (seq 0 256).

(** Bytes of an ASCII literal. *)
Definition ascii (s : string) : bytes :=
  map (fun c => of_N (N_of_ascii c)) (list_ascii_of_string s).

(** [n.to_bytes(k, byteorder='big')] for [0 <= n < 256^k]. *)
Fixpoint big_endian (k : nat) (n : N) : bytes :=
  match k with
  | O => []
  | S k' => of_N (n / 256 ^ N.of_nat k') :: big_endian k' n
  end.

(** [int.from_bytes(b, byteorder='big')] *)
Definition from_big_endian (b : bytes) : N :=
  fold_left (fun acc x => (acc * 256 + to_N x)%N) b 0%N.

(** [n.to_bytes(k, byteorder='big')]: negative or too large raises. *)
Definition to_bytes (n : Z) (k : nat) : outcome bytes :=
  if n <? 0
  then Raise (mk_exn OverflowError (lit "can't convert negative int to unsigned"))
  else if 256 ^ Z.of_nat k <=? n
       then Raise (mk_exn OverflowError (lit "int too big to convert"))
       else Return (big_endian k (Z.to_N n)).

(** [bytes.hex()] *)
Definition hex_digit (n : N) : N :=
  if (n <? 10)%N then (48 + n)%N else (87 + n)%N.
Definition hex (b : bytes) : str :=
  flat_map (fun x => [hex_digit (to_N x / 16); hex_digit (to_N x mod 16)]) b.

End Bytes.

(** ** binascii and base64, as CPython 3.11 implements them *)

Module base64.

Definition pad : byte := "="%byte.

(** [table_b2a_base64]: the standard alphabet. *)
Definition b2a (v : N) : byte :=
  if (v <? 26)%N then Bytes.of_N (65 + v)
  else if (v <? 52)%N then Bytes.of_N (97 + (v - 26))
  else if (v <? 62)%N then Bytes.of_N (48 + (v - 52))
  else if (v =? 62)%N then "+"%byte
  else "/"%byte.

(** [table_a2b_base64]: the value of an alphabet character, else none. *)
Definition a2b (c : byte) : option N :=
  let n := Bytes.to_N c in
  if ((65 <=? n) && (n <=? 90))%N then Some (n - 65)%N
  else if ((97 <=? n) && (n <=? 122))%N then Some (n - 97 + 26)%N
  else if ((48 <=? n) && (n <=? 57))%N then Some (n - 48 + 52)%N
  else if (n =? 43)%N then Some 62%N
  else if (n =? 47)%N then Some 63%N
  else None.

(** [binascii.b2a_base64(data, newline=False)] *)
Fixpoint b64encode (s : bytes) : bytes :=
  match s with
  | [] => []
  | [x] =>
      let a := Bytes.to_N x in
      [b2a (a / 4); b2a ((a mod 4) * 16); pad; pad]
  | [x; y] =>
      let a := Bytes.to_N x in
      let b := Bytes.to_N y in
      [b2a (a / 4); b2a ((a mod 4) * 16 + b / 16); b2a ((b mod 16) * 4); pad]
  | x :: y :: z :: r =>
      let a := Bytes.to_N x in
      let b := Bytes.to_N y in
      let c := Bytes.to_N z in
      b2a (a / 4) :: b2a ((a mod 4) * 16 + b / 16)
        :: b2a ((b mod 16) * 4 + c / 64) :: b2a (c mod 64) :: b64encode r
  end.

Definition emit (b : byte) (r : outcome bytes) : outcome bytes :=
  match r with
  | Return l => Return (b :: l)
  | Raise e => Raise e
  end.

(** The loop of [binascii.a2b_base64] in its default, non-strict mode:
    characters outside the alphabet are skipped, a complete pad sequence
    ends the parse and whatever follows is ignored.  [quad_pos] is the
    position inside the current group of four, [leftchar] the bits not
    yet emitted, [pads] the pad characters seen in a row, [n_out] the
    number of bytes emitted so far. *)
Fixpoint a2b_loop (s : bytes) (quad_pos : nat) (leftchar : N) (pads : nat)
    (n_out : N) : outcome bytes :=
  match s with
  | [] =>
      match quad_pos with
      | 0%nat => Return []
      | 1%nat =>
          Raise (mk_exn BinasciiError
                   (lit "Invalid base64-encoded string: number of data characters ("
                    ++ decimal (n_out / 3 * 4 + 1)
                    ++ lit ") cannot be 1 more than a multiple of 4"))
      | _ => Raise (mk_exn BinasciiError (lit "Incorrect padding"))
      end
  | ch :: rest =>
      if Bytes.eqb ch pad
      then
        if (2 <=? quad_pos)%nat
        then if (4 <=? quad_pos + S pads)%nat
             then Return []
             else a2b_loop rest quad_pos leftchar (S pads) n_out
        else a2b_loop rest quad_pos leftchar pads n_out
      else
        match a2b ch with
        | None => a2b_loop rest quad_pos leftchar pads n_out
        | Some v =>
            match quad_pos with
            | 0%nat => a2b_loop rest 1 v 0 n_out
            | 1%nat =>
                emit (Bytes.of_N (leftchar * 4 + v / 16))
                     (a2b_loop rest 2 (v mod 16) 0 (n_out + 1))
            | 2%nat =>
                emit (Bytes.of_N (leftchar * 16 + v / 4))
                     (a2b_loop rest 3 (v mod 4) 0 (n_out + 1))
            | _ =>
                emit (Bytes.of_N (leftchar * 64 + v))
                     (a2b_loop rest 0 0 0 (n_out + 1))
            end
        end
  end.

(** [base64.b64decode(s)] with [validate=False]. *)
Definition b64decode (s : bytes) : outcome bytes := a2b_loop s 0 0 0 0.

(** [s.translate(_urlsafe_encode_translation)]: [+/] become [-_]. *)
Definition urlsafe_encode_translation (c : byte) : byte :=
  if Bytes.eqb c "+"%byte then "-"%byte
  else if Bytes.eqb c "/"%byte then "_"%byte
  else c.

(** [s.translate(_urlsafe_decode_translation)]: [-_] become [+/]. *)
Definition urlsafe_decode_translation (c : byte) : byte :=
  if Bytes.eqb c "-"%byte then "+"%byte
  else if Bytes.eqb c "_"%byte then "/"%byte
  else c.

Definition urlsafe_b64encode (s : bytes) : bytes :=
  map urlsafe_encode_translation (b64encode s).

Definition urlsafe_b64decode (s : bytes) : outcome bytes :=
  b64decode (map urlsafe_decode_translation s).

End base64.

(** ** AES-128 (FIPS 197), the block cipher under Fernet *)

Module AES.

(** A column of the state, and the state as its four columns; the
    sixteen input bytes fill the columns in order. *)
Definition word : Type := byte * byte * byte * byte.
Definition block : Type := word * word * word * word.

Definition sbox_table : list byte := [
    x63; x7c; x77; x7b; xf2; x6b; x6f; xc5; x30; x01; x67; x2b; xfe; xd7; xab; x76;
    xca; x82; xc9; x7d; xfa; x59; x47; xf0; xad; xd4; xa2; xaf; x9c; xa4; x72; xc0;
    xb7; xfd; x93; x26; x36; x3f; xf7; xcc; x34; xa5; xe5; xf1; x71; xd8; x31; x15;
    x04; xc7; x23; xc3; x18; x96; x05; x9a; x07; x12; x80; xe2; xeb; x27; xb2; x75;
    x09; x83; x2c; x1a; x1b; x6e; x5a; xa0; x52; x3b; xd6; xb3; x29; xe3; x2f; x84;
    x53; xd1; x00; xed; x20; xfc; xb1; x5b; x6a; xcb; xbe; x39; x4a; x4c; x58; xcf;
    xd0; xef; xaa; xfb; x43; x4d; x33; x85; x45; xf9; x02; x7f; x50; x3c; x9f; xa8;
    x51; xa3; x40; x8f; x92; x9d; x38; xf5; xbc; xb6; xda; x21; x10; xff; xf3; xd2;
    xcd; x0c; x13; xec; x5f; x97; x44; x17; xc4; xa7; x7e; x3d; x64; x5d; x19; x73;
    x60; x81; x4f; xdc; x22; x2a; x90; x88; x46; xee; xb8; x14; xde; x5e; x0b; xdb;
    xe0; x32; x3a; x0a; x49; x06; x24; x5c; xc2; xd3; xac; x62; x91; x95; xe4; x79;
    xe7; xc8; x37; x6d; x8d; xd5; x4e; xa9; x6c; x56; xf4; xea; x65; x7a; xae; x08;
    xba; x78; x25; x2e; x1c; xa6; xb4; xc6; xe8; xdd; x74; x1f; x4b; xbd; x8b; x8a;
    x70; x3e; xb5; x66; x48; x03; xf6; x0e; x61; x35; x57; xb9; x86; xc1; x1d; x9e;
    xe1; xf8; x98; x11; x69; xd9; x8e; x94; x9b; x1e; x87; xe9; xce; x55; x28; xdf;
    x8c; xa1; x89; x0d; xbf; xe6; x42; x68; x41; x99; x2d; x0f; xb0; x54; xbb; x16].

Definition inv_sbox_table : list byte := [
    x52; x09; x6a; xd5; x30; x36; xa5; x38; xbf; x40; xa3; x9e; x81; xf3; xd7; xfb;
    x7c; xe3; x39; x82; x9b; x2f; xff; x87; x34; x8e; x43; x44; xc4; xde; xe9; xcb;
    x54; x7b; x94; x32; xa6; xc2; x23; x3d; xee; x4c; x95; x0b; x42; xfa; xc3; x4e;
    x08; x2e; xa1; x66; x28; xd9; x24; xb2; x76; x5b; xa2; x49; x6d; x8b; xd1; x25;
    x72; xf8; xf6; x64; x86; x68; x98; x16; xd4; xa4; x5c; xcc; x5d; x65; xb6; x92;
    x6c; x70; x48; x50; xfd; xed; xb9; xda; x5e; x15; x46; x57; xa7; x8d; x9d; x84;
    x90; xd8; xab; x00; x8c; xbc; xd3; x0a; xf7; xe4; x58; x05; xb8; xb3; x45; x06;
    xd0; x2c; x1e; x8f; xca; x3f; x0f; x02; xc1; xaf; xbd; x03; x01; x13; x8a; x6b;
    x3a; x91; x11; x41; x4f; x67; xdc; xea; x97; xf2; xcf; xce; xf0; xb4; xe6; x73;
    x96; xac; x74; x22; xe7; xad; x35; x85; xe2; xf9; x37; xe8; x1c; x75; xdf; x6e;
    x47; xf1; x1a; x71; x1d; x29; xc5; x89; x6f; xb7; x62; x0e; xaa; x18; xbe; x1b;
    xfc; x56; x3e; x4b; xc6; xd2; x79; x20; x9a; xdb; xc0; xfe; x78; xcd; x5a; xf4;
    x1f; xdd; xa8; x33; x88; x07; xc7; x31; xb1; x12; x10; x59; x27; x80; xec; x5f;
    x60; x51; x7f; xa9; x19; xb5; x4a; x0d; x2d; xe5; x7a; x9f; x93; xc9; x9c; xef;
    xa0; xe0; x3b; x4d; xae; x2a; xf5; xb0; xc8; xeb; xbb; x3c; x83; x53; x99; x61;
    x17; x2b; x04; x7e; xba; x77; xd6; x26; xe1; x69; x14; x63; x55; x21; x0c; x7d].

Definition sub_byte (b : byte) : byte :=
  nth (N.to_nat (Bytes.to_N b)) sbox_table x00.
Definition inv_sub_byte (b : byte) : byte :=
  nth (N.to_nat (Bytes.to_N b)) inv_sbox_table x00.

Definition map_word (f : byte -> byte) (w : word) : word :=
  let '(a, b, c, d) := w in (f a, f b, f c, f d).
Definition map_block (f : word -> word) (s : block) : block :=
  let '(a, b, c, d) := s in (f a, f b, f c, f d).

Definition xor_word (u v : word) : word :=
  let '(a, b, c, d) := u in
  let '(a', b', c', d') := v in
  (Bytes.xor a a', Bytes.xor b b', Bytes.xor c c', Bytes.xor d d').
Definition xor_block (s t : block) : block :=
  let '(a, b, c, d) := s in
  let '(a', b', c', d') := t in
  (xor_word a a', xor_word b b', xor_word c c', xor_word d d').

Definition sub_bytes : block -> block := map_block (map_word sub_byte).
Definition inv_sub_bytes : block -> block := map_block (map_word inv_sub_byte).

(** Row [r] of the state moves [r] columns to the left. *)
Definition shift_rows (s : block) : block :=
  let '((a0, a1, a2, a3), (b0, b1, b2, b3),
        (c0, c1, c2, c3), (d0, d1, d2, d3)) := s in
  ((a0, b1, c2, d3), (b0, c1, d2, a3), (c0, d1, a2, b3), (d0, a1, b2, c3)).
Definition inv_shift_rows (s : block) : block :=
  let '((a0, a1, a2, a3), (b0, b1, b2, b3),
        (c0, c1, c2, c3), (d0, d1, d2, d3)) := s in
  ((a0, d1, c2, b3), (b0, a1, d2, c3), (c0, b1, a2, d3), (d0, c1, b2, a3)).

(** Multiplication by [x] in GF(2^8) modulo [x^8 + x^4 + x^3 + x + 1]. *)
Definition xtime (b : byte) : byte :=
  let n := Bytes.to_N b in
  Bytes.of_N (N.lxor (n * 2) (if (n <? 128)%N then 0 else 283)).

Definition mul2 (b : byte) : byte := xtime b.
Definition mul3 (b : byte) : byte := Bytes.xor (xtime b) b.
Definition mul9 (b : byte) : byte := Bytes.xor (xtime (xtime (xtime b))) b.
Definition mul11 (b : byte) : byte :=
  Bytes.xor (Bytes.xor (xtime (xtime (xtime b))) (xtime b)) b.
Definition mul13 (b : byte) : byte :=
  Bytes.xor (Bytes.xor (xtime (xtime (xtime b))) (xtime (xtime b))) b.
Definition mul14 (b : byte) : byte :=
  Bytes.xor (Bytes.xor (xtime (xtime (xtime b))) (xtime (xtime b))) (xtime b).

Definition xor4 (a b c d : byte) : byte :=
  Bytes.xor (Bytes.xor (Bytes.xor a b) c) d.

Definition mix_column (w : word) : word :=
  let '(a0, a1, a2, a3) := w in
  (xor4 (mul2 a0) (mul3 a1) a2 a3,
   xor4 a0 (mul2 a1) (mul3 a2) a3,
   xor4 a0 a1 (mul2 a2) (mul3 a3),
   xor4 (mul3 a0) a1 a2 (mul2 a3)).
Definition inv_mix_column (w : word) : word :=
  let '(a0, a1, a2, a3) := w in
  (xor4 (mul14 a0) (mul11 a1) (mul13 a2) (mul9 a3),
   xor4 (mul9 a0) (mul14 a1) (mul11 a2) (mul13 a3),
   xor4 (mul13 a0) (mul9 a1) (mul14 a2) (mul11 a3),
   xor4 (mul11 a0) (mul13 a1) (mul9 a2) (mul14 a3)).

Definition mix_columns : block -> block := map_block mix_column.
Definition inv_mix_columns : block -> block := map_block inv_mix_column.

Definition add_round_key (rk s : block) : block := xor_block s rk.

(** Key expansion: the next round key from the previous one. *)
Definition rcon : list byte :=
  [x01; x02; x04; x08; x10; x20; x40; x80; x1b; x36].

Definition next_key (rc : byte) (k : block) : block :=
  let '(w0, w1, w2, w3) := k in
  let '(a, b, c, d) := w3 in
  let t := xor_word (map_word sub_byte (b, c, d, a)) (rc, x00, x00, x00) in
  let w0' := xor_word w0 t in
  let w1' := xor_word w1 w0' in
  let w2' := xor_word w2 w1' in
  let w3' := xor_word w3 w2' in
  (w0', w1', w2', w3').

Fixpoint expand (rcs : list byte) (k : block) : list block :=
  match rcs with
  | [] => []
  | rc :: r => let k' := next_key rc k in k' :: expand r k'
  end.

Definition round (rk s : block) : block :=
  add_round_key rk (mix_columns (shift_rows (sub_bytes s))).
Definition final_round (rk s : block) : block :=
  add_round_key rk (shift_rows (sub_bytes s)).

Fixpoint rounds (rks : list block) (s : block) : block :=
  match rks with
  | [] => s
  | [rk] => final_round rk s
  | rk :: r => rounds r (round rk s)
  end.

Definition encrypt_block (key s : block) : block :=
  rounds (expand rcon key) (add_round_key key s).

Definition inv_round (rk s : block) : block :=
  inv_sub_bytes (inv_shift_rows (inv_mix_columns (add_round_key rk s))).
Definition inv_final_round (rk s : block) : block :=
  inv_sub_bytes (inv_shift_rows (add_round_key rk s)).

Fixpoint inv_rounds (rks : list block) (s : block) : block :=
  match rks with
  | [] => s
  | [rk] => inv_final_round rk s
  | rk :: r => inv_round rk (inv_rounds r s)
  end.

Definition decrypt_block (key s : block) : block :=
  add_round_key key (inv_rounds (expand rcon key) s).

(** Sixteen bytes as a block, and back. *)
Definition block_of_bytes (l : bytes) : option block :=
  match l with
  | [a0; a1; a2; a3; b0; b1; b2; b3; c0; c1; c2; c3; d0; d1; d2; d3] =>
      Some ((a0, a1, a2, a3), (b0, b1, b2, b3),
            (c0, c1, c2, c3), (d0, d1, d2, d3))
  | _ => None
  end.
Definition bytes_of_block (s : block) : bytes :=
  let '((a0, a1, a2, a3), (b0, b1, b2, b3),
        (c0, c1, c2, c3), (d0, d1, d2, d3)) := s in
  [a0; a1; a2; a3; b0; b1; b2; b3; c0; c1; c2; c3; d0; d1; d2; d3].

(** A byte string cut into blocks; none if a partial block is left. *)
Fixpoint blocks_of_bytes (l : bytes) : option (list block) :=
  match l with
  | [] => Some []
  | a0 :: a1 :: a2 :: a3 :: b0 :: b1 :: b2 :: b3
    :: c0 :: c1 :: c2 :: c3 :: d0 :: d1 :: d2 :: d3 :: r =>
      match blocks_of_bytes r with
      | Some bs => Some (((a0, a1, a2, a3), (b0, b1, b2, b3),
                          (c0, c1, c2, c3), (d0, d1, d2, d3)) :: bs)
      | None => None
      end
  | _ => None
  end.
Definition bytes_of_blocks (bs : list block) : bytes :=
  flat_map bytes_of_block bs.

(** Cipher block chaining. *)
Fixpoint cbc_encrypt (key prev : block) (ps : list block) : list block :=
  match ps with
  | [] => []
  | p :: r =>
      let c := encrypt_block key (xor_block p prev) in
      c :: cbc_encrypt key c r
  end.
Fixpoint cbc_decrypt (key prev : block) (cs : list block) : list block :=
  match cs with
  | [] => []
  | c :: r => xor_block (decrypt_block key c) prev :: cbc_decrypt key c r
  end.

End AES.

(** ** SHA-256 (FIPS 180-4), HMAC (RFC 2104) and PBKDF2 (RFC 8018) *)

Module SHA256.

Local Open Scope N_scope.

Definition add32 (a b : N) : N := (a + b) mod 4294967296.
Definition rotr (n x : N) : N :=
  (x / 2 ^ n + (x mod 2 ^ n) * 2 ^ (32 - n)) mod 4294967296.
Definition shr (n x : N) : N := x / 2 ^ n.
Definition not32 (x : N) : N := N.lxor x 4294967295.

Definition Ch (x y z : N) : N := N.lxor (N.land x y) (N.land (not32 x) z).
Definition Maj (x y z : N) : N :=
  N.lxor (N.lxor (N.land x y) (N.land x z)) (N.land y z).
Definition Sigma0 (x : N) : N := N.lxor (N.lxor (rotr 2 x) (rotr 13 x)) (rotr 22 x).
Definition Sigma1 (x : N) : N := N.lxor (N.lxor (rotr 6 x) (rotr 11 x)) (rotr 25 x).
Definition sigma0 (x : N) : N := N.lxor (N.lxor (rotr 7 x) (rotr 18 x)) (shr 3 x).
Definition sigma1 (x : N) : N := N.lxor (N.lxor (rotr 17 x) (rotr 19 x)) (shr 10 x).

Definition K : list N := [
    1116352408; 1899447441; 3049323471; 3921009573;
    961987163; 1508970993; 2453635748; 2870763221;
    3624381080; 310598401; 607225278; 1426881987;
    1925078388; 2162078206; 2614888103; 3248222580;
    3835390401; 4022224774; 264347078; 604807628;
    770255983; 1249150122; 1555081692; 1996064986;
    2554220882; 2821834349; 2952996808; 3210313671;
    3336571891; 3584528711; 113926993; 338241895;
    666307205; 773529912; 1294757372; 1396182291;
    1695183700; 1986661051; 2177026350; 2456956037;
    2730485921; 2820302411; 3259730800; 3345764771;
    3516065817; 3600352804; 4094571909; 275423344;
    430227734; 506948616; 659060556; 883997877;
    958139571; 1322822218; 1537002063; 1747873779;
    1955562222; 2024104815; 2227730452; 2361852424;
    2428436474; 2756734187; 3204031479; 3329325298].

Definition state : Type := N * N * N * N * N * N * N * N.

Definition H0 : state := (1779033703, 3144134277, 1013904242, 2773480762, 1359893119, 2600822924, 528734635, 1541459225).

(** The message schedule past the first sixteen words; [w] holds the
    last sixteen, oldest first. *)
Fixpoint extend (n : nat) (w : list N) : list N :=
  match n with
  | O => []
  | S n' =>
      let new := add32 (add32 (sigma1 (nth 14 w 0)) (nth 9 w 0))
                       (add32 (sigma0 (nth 1 w 0)) (nth 0 w 0)) in
      new :: extend n' (tl w ++ [new])
  end.

Definition step (s : state) (kw : N * N) : state :=
  let '(a, b, c, d, e, f, g, h) := s in
  let '(k, w) := kw in
  let t1 := add32 (add32 (add32 h (Sigma1 e)) (add32 (Ch e f g) k)) w in
  let t2 := add32 (Sigma0 a) (Maj a b c) in
  (add32 t1 t2, a, b, c, add32 d t1, e, f, g).

(** Big-endian 32-bit words of a byte string. *)
Fixpoint words (l : bytes) : list N :=
  match l with
  | a :: b :: c :: d :: r => Bytes.from_big_endian [a; b; c; d] :: words r
  | _ => []
  end.

Definition compress (s : state) (chunk : bytes) : state :=
  let w16 := words chunk in
  let w := w16 ++ extend 48 w16 in
  let '(a, b, c, d, e, f, g, h) := fold_left step (combine K w) s in
  let '(a0, b0, c0, d0, e0, f0, g0, h0) := s in
  (add32 a0 a, add32 b0 b, add32 c0 c, add32 d0 d,
   add32 e0 e, add32 f0 f, add32 g0 g, add32 h0 h).

Fixpoint process (fuel : nat) (data : bytes) (s : state) : state :=
  match fuel with
  | O => s
  | S f =>
      match data with
      | [] => s
      | _ => process f (drop 64 data) (compress s (take 64 data))
      end
  end.

Definition padding (n : N) : bytes :=
  x80 :: repeat x00 (N.to_nat ((119 - n mod 64) mod 64))
    ++ Bytes.big_endian 8 (8 * n).

Definition digest_of_state (s : state) : bytes :=
  let '(a, b, c, d, e, f, g, h) := s in
  Bytes.big_endian 4 a ++ Bytes.big_endian 4 b ++ Bytes.big_endian 4 c
  ++ Bytes.big_endian 4 d ++ Bytes.big_endian 4 e ++ Bytes.big_endian 4 f
  ++ Bytes.big_endian 4 g ++ Bytes.big_endian 4 h.

Definition sha256 (m : bytes) : bytes :=
  let data := m ++ padding (N.of_nat (length m)) in
  digest_of_state (process (length data) data H0).

Definition xor_bytes (a b : bytes) : bytes := zip_with Bytes.xor a b.

Definition hmac_sha256 (key m : bytes) : bytes :=
  let k0 := if (64 <? length key)%nat then sha256 key else key in
  let k := k0 ++ repeat x00 (64 - length k0)%nat in
  sha256 (map (Bytes.xor x5c) k ++ sha256 (map (Bytes.xor x36) k ++ m)).

(** PBKDF2 with HMAC-SHA256 for a 32-byte key: a single output block. *)
Definition pbkdf2_hmac_sha256 (password salt : bytes) (iterations : N) : bytes :=
  let u1 := hmac_sha256 password (salt ++ [x00; x00; x00; x01]) in
  snd (N.iter (iterations - 1)
         (fun ut => let u := hmac_sha256 password (fst ut) in
                    (u, xor_bytes (snd ut) u))
         (u1, u1)).

End SHA256.

(** ** The UTF-8 codec ([str.encode('utf-8')], [bytes.decode('utf-8')]) *)

Module utf8.

Local Open Scope N_scope.

Definition is_surrogate (c : N) : bool := (55296 <=? c) && (c <=? 57343).

(** The bytes of one code point; none for a surrogate or a number that
    is no code point. *)
Definition encode_cp (c : N) : option bytes :=
  if c <? 128 then Some [Bytes.of_N c]
  else if c <? 2048 then
    Some [Bytes.of_N (192 + c / 64); Bytes.of_N (128 + c mod 64)]
  else if c <? 65536 then
    if is_surrogate c then None
    else Some [Bytes.of_N (224 + c / 4096);
               Bytes.of_N (128 + (c / 64) mod 64);
               Bytes.of_N (128 + c mod 64)]
  else if c <? 1114112 then
    Some [Bytes.of_N (240 + c / 262144);
          Bytes.of_N (128 + (c / 4096) mod 64);
          Bytes.of_N (128 + (c / 64) mod 64);
          Bytes.of_N (128 + c mod 64)]
  else None.

(** Of the message CPython gives, which also names the character and
    its position, the codec and the reason are kept. *)
Definition encode_error : exn :=
  mk_exn UnicodeEncodeError
    (lit "'utf-8' codec can't encode character: surrogates not allowed").

(** [s.encode('utf-8')], strict. *)
Fixpoint encode (s : str) : outcome bytes :=
  match s with
  | [] => Return []
  | c :: r =>
      match encode_cp c with
      | None => Raise encode_error
      | Some bs =>
          match encode r with
          | Return rest => Return (bs ++ rest)
          | Raise e => Raise e
          end
      end
  end.

(** Of the message CPython gives, which also names the byte, its
    position and the reason, the codec is kept. *)
Definition decode_error : exn :=
  mk_exn UnicodeDecodeError (lit "'utf-8' codec can't decode bytes").

(** The payload of a continuation byte [10xxxxxx]. *)
Definition cont (b : byte) : option N :=
  let n := Bytes.to_N b in
  if (128 <=? n) && (n <? 192) then Some (n - 128) else None.

(** One code point off the front: its value and the number of bytes
    taken.  Overlong forms, surrogates and values past 0x10FFFF are
    errors, as in the strict decoder. *)
Definition decode_cp (l : bytes) : option (N * nat) :=
  match l with
  | [] => None
  | b0 :: r =>
      let n0 := Bytes.to_N b0 in
      if n0 <? 128 then Some (n0, 1%nat)
      else if n0 <? 192 then None
      else if n0 <? 224 then
        match r with
        | b1 :: _ =>
            match cont b1 with
            | Some c1 =>
                let c := (n0 - 192) * 64 + c1 in
                if c <? 128 then None else Some (c, 2%nat)
            | None => None
            end
        | _ => None
        end
      else if n0 <? 240 then
        match r with
        | b1 :: b2 :: _ =>
            match cont b1, cont b2 with
            | Some c1, Some c2 =>
                let c := (n0 - 224) * 4096 + c1 * 64 + c2 in
                if (c <? 2048) || is_surrogate c then None else Some (c, 3%nat)
            | _, _ => None
            end
        | _ => None
        end
      else if n0 <? 248 then
        match r with
        | b1 :: b2 :: b3 :: _ =>
            match cont b1, cont b2, cont b3 with
            | Some c1, Some c2, Some c3 =>
                let c := (n0 - 240) * 262144 + c1 * 4096 + c2 * 64 + c3 in
                if (c <? 65536) || (1114112 <=? c) then None else Some (c, 4%nat)
            | _, _, _ => None
            end
        | _ => None
        end
      else None
  end.

Fixpoint decode_fuel (fuel : nat) (l : bytes) : outcome str :=
  match fuel with
  | O => Return []
  | S f =>
      match l with
      | [] => Return []
      | _ =>
          match decode_cp l with
          | None => Raise decode_error
          | Some (c, k) =>
              match decode_fuel f (drop k l) with
              | Return rest => Return (c :: rest)
              | Raise e => Raise e
              end
          end
      end
  end.

(** [b.decode('utf-8')], strict. *)
Definition decode (l : bytes) : outcome str := decode_fuel (length l) l.

End utf8.

(** ** cryptography.fernet, after the Fernet specification *)

Module fernet.

Record Fernet := {
  _signing_key : bytes;
  _encryption_key : bytes
}.

Definition key_error : exn :=
  mk_exn ValueError (lit "Fernet key must be 32 url-safe base64-encoded bytes.").

(** [Fernet(key)] *)
Definition __init__ (key : bytes) : outcome Fernet :=
  match base64.urlsafe_b64decode key with
  | Raise e => if isinstance e BinasciiError then Raise key_error else Raise e
  | Return k =>
      if bool_decide (length k = 32%nat)
      then Return {| _signing_key := take 16 k; _encryption_key := drop 16 k |}
      else Raise key_error
  end.

(** [Fernet.generate_key()], on the bytes [os.urandom(32)] returned. *)
Definition generate_key (urandom32 : bytes) : bytes :=
  base64.urlsafe_b64encode urandom32.

(** PKCS7 padding to the AES block size. *)
Definition pkcs7_pad (data : bytes) : bytes :=
  let n := (16 - length data mod 16)%nat in
  data ++ repeat (Bytes.of_N (N.of_nat n)) n.

(** The unpadder: the data ends in a complete block whose last byte [n]
    is between 1 and 16 and whose last [n] bytes all equal [n]. *)
Definition pkcs7_unpad (padded : bytes) : option bytes :=
  match last padded with
  | None => None
  | Some b =>
      let n := N.to_nat (Bytes.to_N b) in
      if negb (length padded mod 16 =? 0)%nat then None
      else if (1 <=? n)%nat && (n <=? 16)%nat
              && forallb (Bytes.eqb b) (drop (length padded - n) padded)
      then Some (take (length padded - n) padded)
      else None
  end.

(** [AES(key)]: the sizes other than 128 bits cannot be reached from
    [Fernet(key)], which cuts a 32-byte key in two halves. *)
Definition aes_key (key : bytes) : outcome AES.block :=
  match AES.block_of_bytes key with
  | Some k => Return k
  | None =>
      Raise (mk_exn ValueError
               (lit "Invalid key size (" ++ decimal (N.of_nat (length key) * 8)
                ++ lit ") for AES."))
  end.

(** [CBC(iv)] *)
Definition cbc_iv (iv : bytes) : outcome AES.block :=
  match AES.block_of_bytes iv with
  | Some k => Return k
  | None =>
      Raise (mk_exn ValueError
               (lit "Invalid IV size (" ++ decimal (N.of_nat (length iv))
                ++ lit ") for CBC."))
  end.

Definition _encrypt_from_parts (self : Fernet) (data : bytes)
    (current_time : Z) (iv : bytes) : outcome bytes :=
  let padded_data := pkcs7_pad data in
  match aes_key (_encryption_key self) with
  | Raise e => Raise e
  | Return key =>
      match cbc_iv iv with
      | Raise e => Raise e
      | Return iv_block =>
          match AES.blocks_of_bytes padded_data with
          | None =>
              Raise (mk_exn ValueError
                       (lit "The length of the provided data is not a multiple of the block length."))
          | Some ps =>
              let ciphertext :=
                AES.bytes_of_blocks (AES.cbc_encrypt key iv_block ps) in
              match Bytes.to_bytes current_time 8 with
              | Raise e => Raise e
              | Return ts =>
                  let basic_parts := (x80 :: ts) ++ iv ++ ciphertext in
                  let hmac := SHA256.hmac_sha256 (_signing_key self) basic_parts in
                  Return (base64.urlsafe_b64encode (basic_parts ++ hmac))
              end
          end
      end
  end.

(** [Fernet.encrypt(data)]: the clock gives [now], [os.urandom(16)]
    gives [iv]. *)
Definition encrypt (self : Fernet) (now : Z) (iv : bytes) (data : bytes)
  : outcome bytes :=
  _encrypt_from_parts self data now iv.

Definition invalid_token : exn := mk_exn InvalidToken [].

Definition _get_unverified_token_data (token : bytes) : outcome (N * bytes) :=
  match base64.urlsafe_b64decode token with
  | Raise _ => Raise invalid_token
  | Return data =>
      match data with
      | [] => Raise invalid_token
      | b :: _ =>
          if negb (Bytes.eqb b x80) then Raise invalid_token
          else if (length data <? 9)%nat then Raise invalid_token
          else Return (Bytes.from_big_endian (take 8 (drop 1 data)), data)
      end
  end.

(** [data[:-32]] and [data[-32:]] *)
Definition signed_part (data : bytes) : bytes := take (length data - 32) data.
Definition tag_part (data : bytes) : bytes := drop (length data - 32) data.

Definition _verify_signature (self : Fernet) (data : bytes) : outcome unit :=
  if bool_decide (SHA256.hmac_sha256 (_signing_key self) (signed_part data)
                  = tag_part data)
  then Return tt
  else Raise invalid_token.

(** [_decrypt_data] with [ttl=None]: no check of the timestamp. *)
Definition _decrypt_data (self : Fernet) (data : bytes) : outcome bytes :=
  match _verify_signature self data with
  | Raise e => Raise e
  | Return _ =>
      let iv := take 16 (drop 9 data) in
      let ciphertext := drop 25 (signed_part data) in
      match aes_key (_encryption_key self) with
      | Raise e => Raise e
      | Return key =>
          match cbc_iv iv with
          | Raise e => Raise e
          | Return iv_block =>
              match AES.blocks_of_bytes ciphertext with
              | None => Raise invalid_token
              | Some cs =>
                  let plaintext_padded :=
                    AES.bytes_of_blocks (AES.cbc_decrypt key iv_block cs) in
                  match pkcs7_unpad plaintext_padded with
                  | None => Raise invalid_token
                  | Some unpadded => Return unpadded
                  end
              end
          end
      end
  end.

(** [Fernet.decrypt(token)] *)
Definition decrypt (self : Fernet) (token : bytes) : outcome bytes :=
  match _get_unverified_token_data token with
  | Raise e => Raise e
  | Return (_, data) => _decrypt_data self data
  end.

End fernet.

(** ** The built-ins [repr] (which [str] of a dict is) and [eval] *)

Module builtins.

Local Open Scope N_scope.

Section Repr.

(** [Py_UNICODE_ISPRINTABLE] on the code points from 128 on: a table of
    the Unicode database, not part of the sources. *)
Variable isprintable : N -> bool.

(** [k] lowercase hexadecimal digits of [n]. *)
Fixpoint hex_digits (k : nat) (n : N) : str :=
  match k with
  | O => []
  | S k' => Bytes.hex_digit ((n / 16 ^ N.of_nat k') mod 16) :: hex_digits k' n
  end.

(** The quote [repr] of a string chooses: double quotes when the string
    has a single quote and no double quote. *)
Definition repr_quote (s : str) : N :=
  if existsb (N.eqb 39) s && negb (existsb (N.eqb 34) s) then 34 else 39.

(** One character inside the quotes ([unicode_repr]). *)
Definition repr_char (quote c : N) : str :=
  if (c =? quote) || (c =? 92) then [92; c]
  else if c =? 9 then [92; 116]
  else if c =? 10 then [92; 110]
  else if c =? 13 then [92; 114]
  else if (c <? 32) || (c =? 127) then 92 :: 120 :: hex_digits 2 c
  else if c <? 127 then [c]
  else if isprintable c then [c]
  else if c <=? 255 then 92 :: 120 :: hex_digits 2 c
  else if c <=? 65535 then 92 :: 117 :: hex_digits 4 c
  else 92 :: 85 :: hex_digits 8 c.

Definition repr_str (s : str) : str :=
  let quote := repr_quote s in
  quote :: flat_map (repr_char quote) s ++ [quote].

(** [repr] of an int; the interpreter's limit on the number of digits
    (4300 by default) is not modelled. *)
Definition repr_int (z : Z) : str :=
  if (z <? 0)%Z then 45 :: decimal (Z.to_N (- z)) else decimal (Z.to_N z).

(** One byte inside the quotes of a bytes literal. *)
Definition repr_byte (quote : N) (b : byte) : str :=
  let c := Bytes.to_N b in
  if (c =? quote) || (c =? 92) then [92; c]
  else if c =? 9 then [92; 116]
  else if c =? 10 then [92; 110]
  else if c =? 13 then [92; 114]
  else if (c <? 32) || (127 <=? c) then 92 :: 120 :: hex_digits 2 c
  else [c].

Definition repr_bytes (b : bytes) : str :=
  let quote := repr_quote (map Bytes.to_N b) in
  98 :: quote :: flat_map (repr_byte quote) b ++ [quote].

(** [', '.join(items)] *)
Fixpoint join_comma (items : list str) : str :=
  match items with
  | [] => []
  | [x] => x
  | x :: r => x ++ 44 :: 32 :: join_comma r
  end.

(** [repr(v)]; a module prints without the location of its file. *)
Fixpoint repr (v : value) : str :=
  match v with
  | PNone => lit "None"
  | PBool true => lit "True"
  | PBool false => lit "False"
  | PInt z => repr_int z
  | PStr s => repr_str s
  | PBytes b => repr_bytes b
  | PList l => 91 :: join_comma (map repr l) ++ [93]
  | PDict d =>
      123 :: join_comma
               (map (fun kv => let '(k, x) := kv in
                               repr_str k ++ 58 :: 32 :: repr x) d)
          ++ [125]
  | PModule name => lit "<module '" ++ name ++ lit "'>"
  | PBuiltin name => lit "<built-in function " ++ name ++ lit ">"
  end.

End Repr.

(** The abstract syntax of the expressions [eval] is given on: literal
    displays as [repr] prints them, names, attribute references and
    calls. *)
Inductive expr :=
| ENone
| EBool (b : bool)
| EInt (n : N)
| EStr (s : str)
| ENeg (e : expr)
| EList (items : list expr)
| EDict (items : list (str * expr))
| EName (id : str)
| EAttr (e : expr) (attr : str)
| ECall (f : expr) (args : list expr).

Definition is_digit (c : N) : bool := (48 <=? c) && (c <=? 57).
Definition is_name_start (c : N) : bool :=
  ((65 <=? c) && (c <=? 90)) || ((97 <=? c) && (c <=? 122)) || (c =? 95).
Definition is_name_char (c : N) : bool := is_name_start c || is_digit c.

Fixpoint skip_ws (s : str) : str :=
  match s with
  | c :: r => if c =? 32 then skip_ws r else s
  | [] => []
  end.

(** What may follow a decimal integer literal for it to be one (no
    further digit, letter, underscore, dot or non-ASCII character). *)
Definition ends_number (s : str) : bool :=
  match s with
  | [] => true
  | c :: _ => negb (is_name_char c) && negb (c =? 46) && (c <? 128)
  end.

Fixpoint span_digits (s : str) (acc : N) : N * str :=
  match s with
  | c :: r => if is_digit c then span_digits r (acc * 10 + (c - 48)) else (acc, s)
  | [] => (acc, [])
  end.

(** A decimal integer literal: [0], or digits without a leading zero. *)
Definition parse_number (s : str) : option (N * str) :=
  match s with
  | c :: r =>
      if c =? 48 then if ends_number r then Some (0, r) else None
      else if is_digit c then
        let '(n, rest) := span_digits s 0 in
        if ends_number rest then Some (n, rest) else None
      else None
  | [] => None
  end.

Fixpoint span_name (s : str) : str * str :=
  match s with
  | c :: r =>
      if is_name_char c
      then let '(a, b) := span_name r in (c :: a, b)
      else ([], s)
  | [] => ([], [])
  end.

(** An ASCII identifier, not followed by a non-ASCII character. *)
Definition parse_name (s : str) : option (str * str) :=
  match s with
  | c :: _ =>
      if is_name_start c then
        let '(id, rest) := span_name s in
        match rest with
        | c' :: _ => if 128 <=? c' then None else Some (id, rest)
        | [] => Some (id, rest)
        end
      else None
  | [] => None
  end.

Definition hex_val (c : N) : option N :=
  if is_digit c then Some (c - 48)
  else if (97 <=? c) && (c <=? 102) then Some (c - 87)
  else if (65 <=? c) && (c <=? 70) then Some (c - 55)
  else None.

Fixpoint hex_value (ds : list N) (acc : N) : option N :=
  match ds with
  | [] => Some acc
  | d :: r =>
      match hex_val d with
      | Some x => hex_value r (acc * 16 + x)
      | None => None
      end
  end.

(** A character that stands for itself between the quotes. *)
Definition raw_ok (quote c : N) : bool :=
  negb (c =? quote) && negb (c =? 92)
  && (((32 <=? c) && (c <=? 126))
      || ((128 <=? c) && (c <? 1114112) && negb (utf8.is_surrogate c))).

Definition cons_char (c : N) (r : option (str * str)) : option (str * str) :=
  match r with
  | Some (s, rest) => Some (c :: s, rest)
  | None => None
  end.

(** The body of a string literal up to its closing quote, with the
    escapes [repr] writes. *)
Fixpoint parse_string_body (quote : N) (s : str) : option (str * str) :=
  match s with
  | [] => None
  | c :: r =>
      if c =? quote then Some ([], r)
      else if c =? 92 then
        match r with
        | e :: r1 =>
            if (e =? 92) || (e =? 39) || (e =? 34)
            then cons_char e (parse_string_body quote r1)
            else if e =? 110 then cons_char 10 (parse_string_body quote r1)
            else if e =? 114 then cons_char 13 (parse_string_body quote r1)
            else if e =? 116 then cons_char 9 (parse_string_body quote r1)
            else if e =? 120 then
              match r1 with
              | h1 :: h2 :: r2 =>
                  match hex_value [h1; h2] 0 with
                  | Some v => cons_char v (parse_string_body quote r2)
                  | None => None
                  end
              | _ => None
              end
            else if e =? 117 then
              match r1 with
              | h1 :: h2 :: h3 :: h4 :: r2 =>
                  match hex_value [h1; h2; h3; h4] 0 with
                  | Some v => cons_char v (parse_string_body quote r2)
                  | None => None
                  end
              | _ => None
              end
            else if e =? 85 then
              match r1 with
              | h1 :: h2 :: h3 :: h4 :: h5 :: h6 :: h7 :: h8 :: r2 =>
                  match hex_value [h1; h2; h3; h4; h5; h6; h7; h8] 0 with
                  | Some v =>
                      if v <? 1114112
                      then cons_char v (parse_string_body quote r2)
                      else None
                  | None => None
                  end
              | _ => None
              end
            else None
        | [] => None
        end
      else if raw_ok quote c then cons_char c (parse_string_body quote r)
      else None
  end.

(** A string literal in single or double quotes (not a triple-quoted
    one, and none with a prefix). *)
Definition parse_string (s : str) : option (str * str) :=
  match s with
  | q :: r =>
      if (q =? 39) || (q =? 34) then
        match r with
        | q1 :: q2 :: _ =>
            if (q1 =? q) && (q2 =? q) then None else parse_string_body q r
        | _ => parse_string_body q r
        end
      else None
  | [] => None
  end.

(** Recursive descent over the source text. *)
Fixpoint parse_expr (fuel : nat) (s : str) : option (expr * str) :=
  match fuel with
  | O => None
  | S f =>
      match skip_ws s with
      | [] => None
      | c :: r =>
          if c =? 91 then
            match skip_ws r with
            | c' :: r' =>
                if c' =? 93 then Some (EList [], r')
                else match parse_items f 93 r with
                     | Some (es, r'') => Some (EList es, r'')
                     | None => None
                     end
            | [] => None
            end
          else if c =? 123 then
            match skip_ws r with
            | c' :: r' =>
                if c' =? 125 then Some (EDict [], r')
                else match parse_pairs f r with
                     | Some (kvs, r'') => Some (EDict kvs, r'')
                     | None => None
                     end
            | [] => None
            end
          else if (c =? 39) || (c =? 34) then
            match parse_string (c :: r) with
            | Some (str, r') => Some (EStr str, r')
            | None => None
            end
          else if c =? 45 then
            match parse_expr f r with
            | Some (e, r') => Some (ENeg e, r')
            | None => None
            end
          else if is_digit c then
            match parse_number (c :: r) with
            | Some (n, r') => Some (EInt n, r')
            | None => None
            end
          else
            match parse_name (c :: r) with
            | Some (id, r') =>
                if bool_decide (id = lit "None") then Some (ENone, r')
                else if bool_decide (id = lit "True") then Some (EBool true, r')
                else if bool_decide (id = lit "False") then Some (EBool false, r')
                else parse_trailers f (EName id) r'
            | None => None
            end
      end
  end

with parse_items (fuel : nat) (close : N) (s : str)
  : option (list expr * str) :=
  match fuel with
  | O => None
  | S f =>
      match parse_expr f s with
      | Some (e, r) =>
          match skip_ws r with
          | c :: r' =>
              if c =? 44 then
                match parse_items f close r' with
                | Some (es, r'') => Some (e :: es, r'')
                | None => None
                end
              else if c =? close then Some ([e], r')
              else None
          | [] => None
          end
      | None => None
      end
  end

with parse_pairs (fuel : nat) (s : str) : option (list (str * expr) * str) :=
  match fuel with
  | O => None
  | S f =>
      match parse_string (skip_ws s) with
      | Some (k, r) =>
          match skip_ws r with
          | c :: r0 =>
              if c =? 58 then
                match parse_expr f r0 with
                | Some (e, r1) =>
                    match skip_ws r1 with
                    | c' :: r' =>
                        if c' =? 44 then
                          match parse_pairs f r' with
                          | Some (kvs, r'') => Some ((k, e) :: kvs, r'')
                          | None => None
                          end
                        else if c' =? 125 then Some ([(k, e)], r')
                        else None
                    | [] => None
                    end
                | None => None
                end
              else None
          | [] => None
          end
      | None => None
      end
  end

with parse_trailers (fuel : nat) (e : expr) (s : str) : option (expr * str) :=
  match fuel with
  | O => None
  | S f =>
      match skip_ws s with
      | c :: r =>
          if c =? 46 then
            match parse_name (skip_ws r) with
            | Some (attr, r') => parse_trailers f (EAttr e attr) r'
            | None => None
            end
          else if c =? 40 then
            match skip_ws r with
            | c' :: r' =>
                if c' =? 41 then parse_trailers f (ECall e []) r'
                else match parse_items f 41 r with
                     | Some (args, r'') => parse_trailers f (ECall e args) r''
                     | None => None
                     end
            | [] => None
            end
          else Some (e, s)
      | [] => Some (e, s)
      end
  end.

Definition parse (source : str) : option expr :=
  match parse_expr (2 * length source + 2) source with
  | Some (e, rest) => if bool_decide (skip_ws rest = []) then Some e else None
  | None => None
  end.

(** [d[k] = v] on an insertion-ordered dict. *)
Fixpoint dict_set (d : list (str * value)) (k : str) (v : value)
  : list (str * value) :=
  match d with
  | [] => [(k, v)]
  | (k', v') :: r =>
      if bool_decide (k' = k) then (k', v) :: r else (k', v') :: dict_set r k v
  end.

Definition type_name (v : value) : str :=
  match v with
  | PNone => lit "NoneType"
  | PBool _ => lit "bool"
  | PInt _ => lit "int"
  | PStr _ => lit "str"
  | PBytes _ => lit "bytes"
  | PList _ => lit "list"
  | PDict _ => lit "dict"
  | PModule _ => lit "module"
  | PBuiltin _ => lit "builtin_function_or_method"
  end.

Definition not_modelled {A} : M A :=
  raise (mk_exn NotModelled (lit "outside the modelled fragment")).

Section Eval.

Variable W : oracle.

(** A command [os.system] passes on as it is: printable ASCII. *)
Definition plain (s : str) : bool :=
  forallb (fun c => (32 <=? c) && (c <=? 126)) s.

(** Evaluation in the globals of [encryption.py], whose [import os]
    binds the name [os]; operands are evaluated left to right. *)
Fixpoint eval_expr (e : expr) : M value :=
  match e with
  | ENone => ret PNone
  | EBool b => ret (PBool b)
  | EInt n => ret (PInt (Z.of_N n))
  | EStr s => ret (PStr s)
  | ENeg e' =>
      let* v := eval_expr e' in
      match v with
      | PInt z => ret (PInt (- z))
      | PBool b => ret (PInt (if b then (-1) else 0))
      | _ => raise (mk_exn TypeError
                      (lit "bad operand type for unary -: '" ++ type_name v ++ lit "'"))
      end
  | EList items =>
      let* vs :=
        (fix eval_items (l : list expr) : M (list value) :=
           match l with
           | [] => ret []
           | x :: r =>
               let* v := eval_expr x in
               let* vs := eval_items r in
               ret (v :: vs)
           end) items in
      ret (PList vs)
  | EDict items =>
      let* d :=
        (fix eval_pairs (l : list (str * expr)) (d : list (str * value))
           : M (list (str * value)) :=
           match l with
           | [] => ret d
           | (k, x) :: r =>
               let* v := eval_expr x in
               eval_pairs r (dict_set d k v)
           end) items [] in
      ret (PDict d)
  | EName id =>
      if bool_decide (id = lit "os") then ret (PModule (lit "os"))
      else not_modelled
  | EAttr e' attr =>
      let* v := eval_expr e' in
      match v with
      | PModule m =>
          if bool_decide (m = lit "os") && bool_decide (attr = lit "system")
          then ret (PBuiltin (lit "system"))
          else not_modelled
      | _ => not_modelled
      end
  | ECall f args =>
      let* fv := eval_expr f in
      let* vs :=
        (fix eval_items (l : list expr) : M (list value) :=
           match l with
           | [] => ret []
           | x :: r =>
               let* v := eval_expr x in
               let* vs := eval_items r in
               ret (v :: vs)
           end) args in
      match fv, vs with
      | PBuiltin name, [PStr command] =>
          if bool_decide (name = lit "system") && plain command
          then let* status := ask (ESystem command)
                                  (fun tr => Return (os_system W tr command)) in
               ret (PInt status)
          else not_modelled
      | _, _ => not_modelled
      end
  end.

(** [eval(source)] *)
Definition eval (source : str) : M value :=
  match parse source with
  | Some e => eval_expr e
  | None => not_modelled
  end.

End Eval.

End builtins.

(** ** The file system of [encrypt_file] and [decrypt_file] *)

Module os.

(** The three calls the file functions make. *)
Class FileSystem (fs : Type) := {
  (** [os.path.exists(path)] *)
  path_exists : fs -> str -> bool;
  (** [open(path, 'rb').read()] *)
  read_bytes : fs -> str -> outcome bytes;
  (** [open(path, 'wb').write(data)] *)
  write_bytes : fs -> str -> bytes -> outcome unit * fs
}.

(** A file system of plain files named by their path, where a written
    file holds what was written. *)
Definition plain_files := gmap str bytes.

#[global] Instance plain_files_system : FileSystem plain_files := {|
  path_exists files path := bool_decide (is_Some (files !! path));
  read_bytes files path :=
    match files !! path with
    | Some data => Return data
    | None =>
        Raise (mk_exn FileNotFoundError
                 (lit "[Errno 2] No such file or directory: " ++ path))
    end;
  write_bytes files path data :=
    if bool_decide (path = [])
    then (Raise (mk_exn FileNotFoundError
                   (lit "[Errno 2] No such file or directory: ''")),
          files)
    else (Return tt, <[path := data]> files)
|}.

End os.

(** ** encryption.py *)

Module encryption.

Record AESCipher := {
  key : bytes;
  fernet : fernet.Fernet
}.

(** [_generate_key], on the bytes [os.urandom(32)] returns. *)
Definition _generate_key (urandom32 : bytes) : bytes :=
  fernet.generate_key urandom32.

Definition _derive_key_from_password (env : environ) (password : str)
  : outcome bytes :=
  match utf8.encode (getenv_default env "ENCRYPTION_SALT" (lit "secure-sftp-salt")) with
  | Raise e => Raise e
  | Return s =>
      let salt := take 16 s in
      match utf8.encode password with
      | Raise e => Raise e
      | Return pw =>
          Return (base64.urlsafe_b64encode
                    (SHA256.pbkdf2_hmac_sha256 pw salt 100000))
      end
  end.

(** [try: base64.urlsafe_b64decode(key_b64.encode())
     except Exception: self._generate_key()] *)
Definition key_from_environment (key_b64 : str) (urandom32 : bytes) : bytes :=
  match utf8.encode key_b64 with
  | Raise _ => _generate_key urandom32
  | Return b =>
      match base64.urlsafe_b64decode b with
      | Raise _ => _generate_key urandom32
      | Return k => k
      end
  end.

(** [AESCipher(password)]; [urandom32] is what [os.urandom(32)] returns
    if a key has to be generated. *)
Definition __init__ (env : environ) (urandom32 : bytes) (password : option str)
  : outcome AESCipher :=
  let chosen :=
    if truthy_opt password
    then _derive_key_from_password env (default [] password)
    else
      let key_b64 := getenv env "ENCRYPTION_KEY" in
      if truthy_opt key_b64
      then Return (key_from_environment (default [] key_b64) urandom32)
      else Return (_generate_key urandom32) in
  match chosen with
  | Raise e => Raise e
  | Return k =>
      match fernet.__init__ k with
      | Raise e => Raise e
      | Return f => Return {| key := k; fernet := f |}
      end
  end.

(** [raise Exception(f"<what> failed: {str(e)}")] *)
Definition failed (what : string) (e : exn) : exn :=
  mk_exn Exception (lit what ++ lit " failed: " ++ msg e).

(** [encrypt(data)], [data] being a [str] or [bytes]; the clock gives
    [now] and [os.urandom(16)] gives [iv]. *)
Definition encrypt (self : AESCipher) (now : Z) (iv : bytes) (data : value)
  : outcome bytes :=
  let attempt :=
    match data with
    | PStr s =>
        match utf8.encode s with
        | Raise e => Raise e
        | Return b => fernet.encrypt (fernet self) now iv b
        end
    | PBytes b => fernet.encrypt (fernet self) now iv b
    | _ => Raise (mk_exn TypeError (lit "data must be bytes"))
    end in
  match attempt with
  | Return encrypted_data => Return encrypted_data
  | Raise e => Raise (failed "Encryption" e)
  end.

Definition decrypt (self : AESCipher) (encrypted_data : value) : outcome bytes :=
  let attempt :=
    match encrypted_data with
    | PStr s =>
        match utf8.encode s with
        | Raise e => Raise e
        | Return b => fernet.decrypt (fernet self) b
        end
    | PBytes b => fernet.decrypt (fernet self) b
    | _ => Raise (mk_exn TypeError (lit "token must be bytes or str"))
    end in
  match attempt with
  | Return decrypted_data => Return decrypted_data
  | Raise e => Raise (failed "Decryption" e)
  end.

Definition get_key_info (self : AESCipher) : value :=
  PDict [(lit "key_length", PInt (len (key self)));
         (lit "key_b64",
          PStr (map Bytes.to_N (base64.urlsafe_b64encode (key self))));
         (lit "algorithm", PStr (lit "AES-128-CBC (Fernet)"))].

Section FileEncryptionManager.

Variable isprintable : N -> bool.
Variable W : oracle.

Record FileEncryptionManager := {
  cipher : AESCipher
}.

Definition failure (e : exn) : value :=
  PDict [(lit "success", PBool false); (lit "error", PStr (msg e))].

(** The metadata record that travels in the envelope; [token] is what
    [os.urandom(16)] returns. *)
Definition file_metadata (data : bytes) (filename : str) (token : bytes)
    (metadata : value) : value :=
  PDict [(lit "filename", PStr filename);
         (lit "size", PInt (len data));
         (lit "encrypted_at", PStr (Bytes.hex token));
         (lit "metadata", if truthy metadata then metadata else PDict [])].

(** [metadata_length + metadata_json + data] *)
Definition combined_data (md : value) (data : bytes) : outcome bytes :=
  match utf8.encode (builtins.repr isprintable md) with
  | Raise e => Raise e
  | Return metadata_json =>
      match Bytes.to_bytes (len metadata_json) 4 with
      | Raise e => Raise e
      | Return metadata_length => Return (metadata_length ++ metadata_json ++ data)
      end
  end.

Definition encrypt_with_metadata (self : FileEncryptionManager)
    (token : bytes) (now : Z) (iv : bytes)
    (data : bytes) (filename : str) (metadata : value) : value :=
  let md := file_metadata data filename token metadata in
  match combined_data md data with
  | Raise e => failure e
  | Return combined =>
      match encrypt (cipher self) now iv (PBytes combined) with
      | Raise e => failure e
      | Return encrypted_data =>
          PDict [(lit "success", PBool true);
                 (lit "encrypted_data", PBytes encrypted_data);
                 (lit "metadata", md);
                 (lit "original_size", PInt (len data));
                 (lit "encrypted_size", PInt (len encrypted_data))]
      end
  end.

Definition decrypt_with_metadata (self : FileEncryptionManager)
    (encrypted_data : value) : M value :=
  try_except
    (match decrypt (cipher self) encrypted_data with
     | Raise e => raise e
     | Return decrypted_combined =>
         let metadata_length :=
           N.to_nat (Bytes.from_big_endian (take 4 decrypted_combined)) in
         let metadata_json := take metadata_length (drop 4 decrypted_combined) in
         match utf8.decode metadata_json with
         | Raise e => raise e
         | Return source =>
             let* file_metadata := builtins.eval W source in
             let original_data := drop (4 + metadata_length) decrypted_combined in
             ret (PDict [(lit "success", PBool true);
                         (lit "data", PBytes original_data);
                         (lit "metadata", file_metadata);
                         (lit "decrypted_size", PInt (len original_data))])
         end
     end)
    (fun e => ret (failure e)).

End FileEncryptionManager.

Section Files.

Context {fs : Type} `{os.FileSystem fs}.

(** [s.endswith(suffix)] *)
Definition endswith (s suffix : str) : bool :=
  (length suffix <=? length s)%nat
  && bool_decide (drop (length s - length suffix) s = suffix).

(** [encrypt_file(file_path, output_path)]: the clock gives [now] and
    [os.urandom(16)] gives [iv]. *)
Definition encrypt_file (self : AESCipher) (now : Z) (iv : bytes)
    (file_path : str) (output_path : option str) (files : fs) : value * fs :=
  if negb (os.path_exists files file_path)
  then (failure (mk_exn FileNotFoundError (lit "File not found: " ++ file_path)),
        files)
  else
    match os.read_bytes files file_path with
    | Raise e => (failure e, files)
    | Return file_data =>
        match encrypt self now iv (PBytes file_data) with
        | Raise e => (failure e, files)
        | Return encrypted_data =>
            let output_path :=
              match output_path with
              | None => file_path ++ lit ".enc"
              | Some p => p
              end in
            match os.write_bytes files output_path encrypted_data with
            | (Raise e, files') => (failure e, files')
            | (Return _, files') =>
                (PDict [(lit "success", PBool true);
                        (lit "input_file", PStr file_path);
                        (lit "output_file", PStr output_path);
                        (lit "original_size", PInt (len file_data));
                        (lit "encrypted_size", PInt (len encrypted_data))],
                 files')
            end
        end
    end.

Definition decrypt_file (self : AESCipher)
    (encrypted_file_path : str) (output_path : option str) (files : fs)
  : value * fs :=
  if negb (os.path_exists files encrypted_file_path)
  then (failure (mk_exn FileNotFoundError
                   (lit "Encrypted file not found: " ++ encrypted_file_path)),
        files)
  else
    match os.read_bytes files encrypted_file_path with
    | Raise e => (failure e, files)
    | Return encrypted_data =>
        match decrypt self (PBytes encrypted_data) with
        | Raise e => (failure e, files)
        | Return decrypted_data =>
            let output_path :=
              match output_path with
              | None =>
                  if endswith encrypted_file_path (lit ".enc")
                  then take (length encrypted_file_path - 4) encrypted_file_path
                  else encrypted_file_path ++ lit ".dec"
              | Some p => p
              end in
            match os.write_bytes files output_path decrypted_data with
            | (Raise e, files') => (failure e, files')
            | (Return _, files') =>
                (PDict [(lit "success", PBool true);
                        (lit "input_file", PStr encrypted_file_path);
                        (lit "output_file", PStr output_path);
                        (lit "encrypted_size", PInt (len encrypted_data));
                        (lit "decrypted_size", PInt (len decrypted_data))],
                 files')
            end
        end
    end.

End Files.

(** [generate_secure_key()] *)
Definition generate_secure_key (urandom32 : bytes) : bytes :=
  fernet.generate_key urandom32.

End encryption.

(** ** database.py: the in-memory storage *)

Module database.

(** A field of a stored record: a value as before, or a [datetime],
    counted in microseconds from [datetime.min]. *)
Inductive field :=
| Plain (v : value)
| Datetime (t : Z).

(** What a dict with string keys holds, in insertion order. *)
Definition row := list (str * field).

(** The storage keeps the dicts it is given, not copies of them: a
    record is a dict object, known by its identity, and [dicts] tells
    what each dict object of the program holds.  A table of the storage
    is a dict from identifiers to such objects, in insertion order. *)
Definition ref := nat.
Definition dicts := ref -> row.
Definition table := list (str * ref).

(** [d.get(k)] *)
Fixpoint lookup {A} (d : list (str * A)) (k : str) : option A :=
  match d with
  | [] => None
  | (k', v) :: r => if bool_decide (k' = k) then Some v else lookup r k
  end.

(** [d[k] = v]: an existing key keeps its place. *)
Fixpoint store {A} (d : list (str * A)) (k : str) (v : A) : list (str * A) :=
  match d with
  | [] => [(k, v)]
  | (k', v') :: r =>
      if bool_decide (k' = k) then (k', v) :: r else (k', v') :: store r k v
  end.

(** [d[k] = v] on the dict object [d]: every holder of [d] sees it. *)
Definition setitem (heap : dicts) (d : ref) (k : str) (v : field) : dicts :=
  fun d' => if bool_decide (d' = d) then store (heap d) k v else heap d'.

(** [x == s] for what [get] returned and a string [s]. *)
Definition equals_str (x : option field) (s : str) : bool :=
  match x with
  | Some (Plain (PStr s')) => bool_decide (s' = s)
  | _ => false
  end.

Record Database := {
  users : table;
  transfers : table;
  activities : table;
  sessions : table;
  next_id : Z
}.

Definition _use_memory_storage : Database :=
  {| users := []; transfers := []; activities := []; sessions := [];
     next_id := 1 |}.

(** [self.next_id += 1; return str(self.next_id)] *)
Definition _get_next_id (self : Database) : str * Database :=
  (builtins.repr_int (next_id self + 1),
   {| users := users self; transfers := transfers self;
      activities := activities self; sessions := sessions self;
      next_id := next_id self + 1 |}).

(** [user_data['id'] = user_id; users[user_id] = user_data]: the id is
    written into the caller's dict, and that dict is what is stored. *)
Definition create_user (self : Database) (heap : dicts) (user_data : ref)
  : str * (Database * dicts) :=
  let (user_id, self) := _get_next_id self in
  let heap := setitem heap user_data (lit "id") (Plain (PStr user_id)) in
  (user_id,
   ({| users := store (users self) user_id user_data;
       transfers := transfers self; activities := activities self;
       sessions := sessions self; next_id := next_id self |},
    heap)).

(** [for user in users.values(): if user.get('username') == username:
    return user] *)
Fixpoint first_named (heap : dicts) (users : list ref) (username : str)
  : option ref :=
  match users with
  | [] => None
  | user :: rest =>
      if equals_str (lookup (heap user) (lit "username")) username
      then Some user
      else first_named heap rest username
  end.

Definition get_user (self : Database) (heap : dicts) (username : str)
  : option ref :=
  first_named heap (map snd (users self)) username.

Definition get_user_by_id (self : Database) (user_id : str) : option ref :=
  lookup (users self) user_id.

(** [if user_id in users: users[user_id]['last_login'] = utcnow()];
    [now] is what [datetime.utcnow()] returns. *)
Definition update_user_login (self : Database) (heap : dicts) (user_id : str)
    (now : Z) : dicts :=
  match lookup (users self) user_id with
  | Some user => setitem heap user (lit "last_login") (Datetime now)
  | None => heap
  end.

Definition log_transfer (self : Database) (heap : dicts) (transfer_data : ref)
  : str * (Database * dicts) :=
  let (transfer_id, self) := _get_next_id self in
  let heap := setitem heap transfer_data (lit "id") (Plain (PStr transfer_id)) in
  (transfer_id,
   ({| users := users self;
       transfers := store (transfers self) transfer_id transfer_data;
       activities := activities self; sessions := sessions self;
       next_id := next_id self |},
    heap)).

(** [if transfer and (not user_id or transfer.get('user_id') == user_id)] *)
Definition get_transfer (self : Database) (heap : dicts) (transfer_id : str)
    (user_id : option str) : option ref :=
  match lookup (transfers self) transfer_id with
  | Some transfer =>
      if negb (bool_decide (heap transfer = []))
         && (negb (truthy_opt user_id)
             || equals_str (lookup (heap transfer) (lit "user_id"))
                  (default [] user_id))
      then Some transfer
      else None
  | None => None
  end.






(** [now] is what [datetime.utcnow()] returns, [activity_data] the
    identity of the dict that the display creates (in Python one that
    no other live object has; the model takes any). *)
Definition log_activity (self : Database) (heap : dicts)
    (user_id activity_type details : value) (now : Z) (activity_data : ref)
  : str * (Database * dicts) :=
  let heap : dicts :=
    fun d => if bool_decide (d = activity_data)
             then [(lit "user_id", Plain user_id);
                   (lit "activity_type", Plain activity_type);
                   (lit "details",
                    Plain (if truthy details then details else PDict []));
                   (lit "timestamp", Datetime now);
                   (lit "ip_address", Plain PNone)]
             else heap d in
  let (activity_id, self) := _get_next_id self in
  let heap := setitem heap activity_data (lit "id") (Plain (PStr activity_id)) in
  (activity_id,
   ({| users := users self; transfers := transfers self;
       activities := store (activities self) activity_id activity_data;
       sessions := sessions self; next_id := next_id self |},
    heap)).

(** The calls that change the storage, what the rest of the program
    does to its dicts in between (creating them, changing them, those
    it handed to the storage included), and the storage and the dicts
    after a sequence of these. *)
Inductive request :=
| CreateUser (user_data : ref)
| UpdateUserLogin (user_id : str) (now : Z)
| LogTransfer (transfer_data : ref)
| LogActivity (user_id activity_type details : value) (now : Z)
    (activity_data : ref)
| Elsewhere (change : dicts -> dicts).

Definition serve (state : Database * dicts) (r : request) : Database * dicts :=
  let (self, heap) := state in
  match r with
  | CreateUser user_data => snd (create_user self heap user_data)
  | UpdateUserLogin user_id now => (self, update_user_login self heap user_id now)
  | LogTransfer transfer_data => snd (log_transfer self heap transfer_data)
  | LogActivity user_id activity_type details now activity_data =>
      snd (log_activity self heap user_id activity_type details now activity_data)
  | Elsewhere change => (self, change heap)
  end.

Definition after (heap : dicts) (requests : list request) : Database * dicts :=
  fold_left serve requests (_use_memory_storage, heap).

End database.


(** ** Notions the statements use *)

Module notions.


(** A character of the base64 alphabets (standard or URL-safe). *)
Definition base64_char (c : byte) : bool :=
  match base64.a2b (base64.urlsafe_decode_translation c) with
  | Some _ => true
  | None => false
  end.

(** Valid padded base64 in the sense of RFC 4648: groups of four
    alphabet characters, the last group possibly ending in one or two
    pad characters. *)
Fixpoint valid_base64 (s : bytes) : bool :=
  match s with
  | [] => true
  | [a; b; c; d] =>
      base64_char a && base64_char b
      && ((base64_char c && (base64_char d || Bytes.eqb d base64.pad))
          || (Bytes.eqb c base64.pad && Bytes.eqb d base64.pad))
  | a :: b :: c :: d :: r =>
      base64_char a && base64_char b && base64_char c && base64_char d
      && valid_base64 r
  | _ => false
  end.

(** The remote names the path rule of the specification speaks of. *)
Definition has_separator (name : str) : bool := existsb (N.eqb 47) name.
Definition has_dotdot_segment (name : str) : bool :=
  existsb (fun seg => bool_decide (seg = posixpath.dotdot))
          (posixpath.split_sep name).
Definition is_absolute (name : str) : bool := startswith1 name 47.
Definition has_leading_dot (name : str) : bool := startswith1 name 46.

(** The name check of put, get and delete:
    [not sanitized_filename or sanitized_filename.startswith('.')]. *)
Definition rejected_name (remote_filename : str) : bool :=
  bool_decide (posixpath.basename remote_filename = [])
  || startswith1 (posixpath.basename remote_filename) 46.

(** The result of an operation is a failure carrying a message. *)
Definition is_failure (result : value) : Prop :=
  exists error, result = PDict [(lit "success", PBool false);
                                (lit "error", PStr error)].

(** No event of the trace creates a session or touches the network. *)
Definition no_network (tr : trace) : Prop :=
  Forall (fun e => is_network e = false) tr.



(** A code point that UTF-8 can encode: in range and not a surrogate. *)
Definition encodable (c : N) : Prop :=
  (c < 1114112)%N /\ utf8.is_surrogate c = false.

(** A Python [str]: every element is a code point. *)
Definition valid_str (s : str) : Prop := Forall (fun c => (c < 1114112)%N) s.

(** The metadata values of the envelope schema: [None], booleans,
    integers, strings, lists, and maps with distinct string keys. *)
Fixpoint in_schema (v : value) : Prop :=
  match v with
  | PNone | PBool _ | PInt _ => True
  | PStr s => valid_str s
  | PList l =>
      (fix all (l : list value) : Prop :=
         match l with
         | [] => True
         | x :: r => in_schema x /\ all r
         end) l
  | PDict d =>
      NoDup (map fst d)
      /\ (fix all (d : list (str * value)) : Prop :=
            match d with
            | [] => True
            | (k, x) :: r => valid_str k /\ in_schema x /\ all r
            end) d
  | PBytes _ | PModule _ | PBuiltin _ => False
  end.

(** The interpreter's default limits on what it prints and reads back,
    which the model of [repr] and [eval] leaves out: an int has at most
    4300 decimal digits ([sys.int_max_str_digits]), and brackets nest
    at most 200 deep (the tokenizer's [MAXLEVEL]). *)
Fixpoint nesting (v : value) : nat :=
  match v with
  | PList l =>
      S ((fix deepest (l : list value) : nat :=
            match l with
            | [] => 0%nat
            | x :: r => Nat.max (nesting x) (deepest r)
            end) l)
  | PDict d =>
      S ((fix deepest (d : list (str * value)) : nat :=
            match d with
            | [] => 0%nat
            | (_, x) :: r => Nat.max (nesting x) (deepest r)
            end) d)
  | _ => 0%nat
  end.

Fixpoint ints_printable (v : value) : bool :=
  match v with
  | PInt z => Z.abs z <? 10 ^ 4300
  | PList l =>
      (fix all (l : list value) : bool :=
         match l with
         | [] => true
         | x :: r => ints_printable x && all r
         end) l
  | PDict d =>
      (fix all (d : list (str * value)) : bool :=
         match d with
         | [] => true
         | (_, x) :: r => ints_printable x && all r
         end) d
  | _ => true
  end.

Definition within_limits (v : value) : Prop :=
  ints_printable v = true /\ (nesting v <= 200)%nat.

(** What is known of the Unicode table: a printable code point is no
    surrogate. *)
Definition printable_table (isprintable : N -> bool) : Prop :=
  forall c, isprintable c = true -> utf8.is_surrogate c = false.

(** *** Notions for the traces of the transport *)

(** What a computation adds to the trace satisfies [P]; what it
    returns satisfies [Q], what it raises satisfies [E]. *)
Definition sat {A} (P : event -> Prop) (Q : A -> Prop) (E : exn -> Prop)
    (m : M A) : Prop :=
  forall tr, exists evs,
    snd (m tr) = tr ++ evs /\ Forall P evs
    /\ match fst (m tr) with Return a => Q a | Raise e => E e end.

(** A computation only adds events to the trace, and the first event
    it adds is [e]. *)
Definition adds_events {A} (m : M A) : Prop :=
  sat (fun _ => True) (fun _ => True) (fun _ => True) m.
Definition begins_with {A} (e : event) (m : M A) : Prop :=
  forall tr, exists evs, snd (m tr) = tr ++ e :: evs.

(** The remote file an event works on. *)
Definition remote_file (e : event) : option str :=
  match e with
  | EPut _ p | EChmod p _ | EStat p | EGet p _ | ERemove p => Some p
  | _ => None
  end.

(** [p] names an entry directly inside [dir], and not a hidden one:
    [dir/b] with [b] non-empty, free of separators and not beginning
    with a dot (so neither [.] nor [..]). *)
Definition confined (dir p : str) : Prop :=
  exists b, p = dir ++ lit "/" ++ b
            /\ b <> [] /\ Forall (fun c => c <> posixpath.sep) b
            /\ startswith1 b 46 = false.

(** The result of an operation: a failure with its message, or a
    record that begins with [success: True]. *)
Definition is_report (result : value) : Prop :=
  is_failure result
  \/ exists rest, result = PDict ((lit "success", PBool true) :: rest).

Definition is_print (e : event) : Prop := exists text, e = EPrint text.

Definition is_close (e : event) : Prop := e = ESftpClose \/ e = ESshClose.

(** The session is closed once, the SFTP channel before the SSH
    client, and nothing but console output follows. *)
Definition closes_session (evs : list event) : Prop :=
  exists before after,
    evs = before ++ ESftpClose :: ESshClose :: after
    /\ Forall (fun e => ~ is_close e) before
    /\ Forall is_print after.

(** A computation that ends by closing the session. *)
Definition closing {A} (m : M A) : Prop :=
  forall tr, exists before,
    snd (m tr) = tr ++ before ++ [ESftpClose; ESshClose]
    /\ Forall (fun e => ~ is_close e) before.

(** The host key policy and the connect calls are those of the
    configuration: unknown hosts rejected, the configured host, port
    and credentials, a timeout of ten seconds. *)
Definition follows_configuration (self : sftp_client.SFTPManager) (e : event)
  : Prop :=
  match e with
  | ESetMissingHostKeyPolicy policy => policy = RejectPolicy
  | EConnect h po u pw timeout =>
      sftp_client.host self = Some h /\ po = sftp_client.port self
      /\ sftp_client.username self = Some u
      /\ sftp_client.password self = Some pw /\ timeout = 10
  | _ => True
  end.

(** The directory check of [list_files]. *)
Definition rejected_directory (remote_directory : option str) : bool :=
  truthy_opt remote_directory
  && (let normalized_dir := posixpath.normpath (default [] remote_directory) in
      contains posixpath.dotdot normalized_dir
      || startswith1 normalized_dir 47).

(** Walking the components of a relative path: [depth] counts the
    directories entered below the start; the walk leaves the start
    when a [..] comes at depth 0. *)
Fixpoint escapes_from (depth : nat) (comps : list str) : bool :=
  match comps with
  | [] => false
  | comp :: rest =>
      if bool_decide (comp = []) || bool_decide (comp = posixpath.dot)
      then escapes_from depth rest
      else if bool_decide (comp = posixpath.dotdot)
           then match depth with
                | O => true
                | S d => escapes_from d rest
                end
           else escapes_from (S depth) rest
  end.

Definition escapes (path : str) : bool :=
  escapes_from 0 (posixpath.split_sep path).

(** *** Notions for keys and tokens *)

(** The characters of a token: the URL-safe alphabet and the pad. *)
Definition token_char (c : byte) : bool :=
  let n := Bytes.to_N c in
  ((65 <=? n) && (n <=? 90) || (97 <=? n) && (n <=? 122)
   || (48 <=? n) && (n <=? 57) || (n =? 45) || (n =? 95) || (n =? 61))%N.

(** What the base64 decoder may still emit for the characters read
    into the current group of four. *)
Definition slack (quad_pos : nat) : nat :=
  match quad_pos with
  | 0 => 0
  | 1 => 3
  | 2 => 2
  | _ => 1
  end%nat.

(** *** Notions for the in-memory storage *)

(** An identifier that was handed out: [str(n)] for some [n] between 2
    and the counter. *)
Definition issued (self : database.Database) (id : str) : Prop :=
  exists n, 1 < n <= database.next_id self /\ id = builtins.repr_int n.

(** Every identifier in use was handed out. *)
Definition well_formed (self : database.Database) : Prop :=
  1 <= database.next_id self
  /\ Forall (fun kv => issued self (fst kv)) (database.users self)
  /\ Forall (fun kv => issued self (fst kv)) (database.transfers self)
  /\ Forall (fun kv => issued self (fst kv)) (database.activities self)
  /\ Forall (fun kv => issued self (fst kv)) (database.sessions self).

(** No record of any table goes by [id]. *)
Definition unused (self : database.Database) (id : str) : Prop :=
  database.lookup (database.users self) id = None
  /\ database.lookup (database.transfers self) id = None
  /\ database.lookup (database.activities self) id = None
  /\ database.lookup (database.sessions self) id = None.



End notions.

(** ** Concrete surroundings for the examples *)

Module fixtures.

(** A server that accepts every call. *)
Definition accepting : oracle := {|
  os_path_expanduser := fun p => lit "/root" ++ drop 1 p;
  load_system_host_keys := fun _ => None;
  load_host_keys := fun _ _ => None;
  ssh_connect := fun _ _ _ _ _ => None;
  ssh_open_sftp := fun _ => None;
  sftp_listdir := fun _ _ => Return [];
  sftp_mkdir := fun _ _ => None;
  named_temporary_file := fun _ => Return (lit "/tmp/tmpfile");
  sftp_put := fun _ _ _ => None;
  sftp_chmod := fun _ _ _ => None;
  sftp_stat := fun _ _ => None;
  sftp_get := fun _ _ _ => None;
  file_read := fun _ _ => Return [];
  os_path_exists := fun _ _ => true;
  os_unlink := fun _ _ => None;
  sftp_listdir_attr := fun _ _ => Return [];
  sftp_remove := fun _ _ => None;
  sftp_close := fun _ => None;
  ssh_close := fun _ => None;
  isoformat_fromtimestamp := fun _ => lit "1970-01-01T00:00:00";
  isoformat_now := fun _ => lit "1970-01-01T00:00:00";
  os_system := fun _ _ => 0
|}.

(** [int] on the decimal digits the examples use. *)
Definition int_of_digits (s : str) : outcome Z :=
  match builtins.parse_number s with
  | Some (n, []) => Return (Z.of_N n)
  | _ => Raise (mk_exn ValueError (lit "invalid literal for int() with base 10"))
  end.

(** A configured transport. *)
Definition configured_env : environ :=
  <[lit "SFTP_HOST" := lit "sftp.example.org"]>
    (<[lit "SFTP_USERNAME" := lit "alice"]>
       (<[lit "SFTP_PASSWORD" := lit "secret"]> ∅)).

Definition configured : sftp_client.SFTPManager := {|
  sftp_client.host := Some (lit "sftp.example.org");
  sftp_client.port := 22;
  sftp_client.username := Some (lit "alice");
  sftp_client.password := Some (lit "secret");
  sftp_client.remote_path := lit "/uploads";
  sftp_client.dev_mode := false
|}.

(** A transport in development mode without credentials. *)
Definition dev_env : environ := <[lit "SFTP_DEV_MODE" := lit "TRUE"]> ∅.

Definition disabled : sftp_client.SFTPManager := {|
  sftp_client.host := None;
  sftp_client.port := 22;
  sftp_client.username := None;
  sftp_client.password := None;
  sftp_client.remote_path := lit "/uploads";
  sftp_client.dev_mode := true
|}.

(** The key, clock and initialisation vector of the generation vector
    of the Fernet specification. *)
Definition secret : bytes :=
  Bytes.ascii "cw_0x689RpI-jtRR7oE8h_eQsKImvJapLeSbXpwF4e4=".
Definition now : Z := 499162800.
Definition iv : bytes := map (fun n => Bytes.of_N (N.of_nat n)) (seq 0 16).
Definition spec_token : bytes :=
  Bytes.ascii "gAAAAAAdwJ6wAAECAwQFBgcICQoLDA0ODy021cpGVWKZ_eEwCGM4BLLF_5CV9dOPmrhuVUPgJobwOz7JcbmrR64jVmpU4IwqDA==".

(** The cipher an [AESCipher()] builds when [os.urandom(32)] returns
    the bytes of that key. *)
Definition urandom32 : bytes :=
  match base64.urlsafe_b64decode secret with
  | Return k => k
  | Raise _ => []
  end.

Definition cipher : encryption.AESCipher :=
  match encryption.__init__ ∅ urandom32 None with
  | Return c => c
  | Raise _ => {| encryption.key := [];
                  encryption.fernet := {| fernet._signing_key := [];
                                          fernet._encryption_key := [] |} |}
  end.

Definition manager : encryption.FileEncryptionManager :=
  {| encryption.cipher := cipher |}.

(** [str.isprintable] where [repr] asks for it, as the Unicode table has
    it on Latin-1: from U+0080 to U+00FF all are printable but the
    controls, the no-break space and the soft hyphen.  Beyond Latin-1
    the table answers no, and [repr] escapes. *)
Definition latin1_printable (c : N) : bool :=
  ((161 <=? c) && (c <=? 255) && negb (c =? 173))%N.


(** A server that accepts the login and then refuses the SFTP
    subsystem. *)
Definition no_subsystem : oracle := {|
  os_path_expanduser := os_path_expanduser accepting;
  load_system_host_keys := load_system_host_keys accepting;
  load_host_keys := load_host_keys accepting;
  ssh_connect := ssh_connect accepting;
  ssh_open_sftp := fun _ => Some (mk_exn SSHException (lit "Channel closed."));
  sftp_listdir := sftp_listdir accepting;
  sftp_mkdir := sftp_mkdir accepting;
  named_temporary_file := named_temporary_file accepting;
  sftp_put := sftp_put accepting;
  sftp_chmod := sftp_chmod accepting;
  sftp_stat := sftp_stat accepting;
  sftp_get := sftp_get accepting;
  file_read := file_read accepting;
  os_path_exists := os_path_exists accepting;
  os_unlink := os_unlink accepting;
  sftp_listdir_attr := sftp_listdir_attr accepting;
  sftp_remove := sftp_remove accepting;
  sftp_close := sftp_close accepting;
  ssh_close := ssh_close accepting;
  isoformat_fromtimestamp := isoformat_fromtimestamp accepting;
  isoformat_now := isoformat_now accepting;
  os_system := os_system accepting
|}.

(** A server that holds no file. *)
Definition nothing_there : oracle := {|
  os_path_expanduser := os_path_expanduser accepting;
  load_system_host_keys := load_system_host_keys accepting;
  load_host_keys := load_host_keys accepting;
  ssh_connect := ssh_connect accepting;
  ssh_open_sftp := ssh_open_sftp accepting;
  sftp_listdir := sftp_listdir accepting;
  sftp_mkdir := sftp_mkdir accepting;
  named_temporary_file := named_temporary_file accepting;
  sftp_put := sftp_put accepting;
  sftp_chmod := sftp_chmod accepting;
  sftp_stat := fun _ _ =>
    Some (mk_exn FileNotFoundError (lit "[Errno 2] No such file"));
  sftp_get := sftp_get accepting;
  file_read := file_read accepting;
  os_path_exists := os_path_exists accepting;
  os_unlink := os_unlink accepting;
  sftp_listdir_attr := sftp_listdir_attr accepting;
  sftp_remove := sftp_remove accepting;
  sftp_close := sftp_close accepting;
  ssh_close := ssh_close accepting;
  isoformat_fromtimestamp := isoformat_fromtimestamp accepting;
  isoformat_now := isoformat_now accepting;
  os_system := os_system accepting
|}.

(** The session events of a connection that succeeds. *)
Definition connected : trace :=
  [ESSHClient; ELoadSystemHostKeys;
   ELoadHostKeys (lit "/root/.ssh/known_hosts");
   ESetMissingHostKeyPolicy RejectPolicy;
   EConnect (lit "sftp.example.org") 22 (lit "alice") (lit "secret") 10;
   EOpenSftp].

(** A file of three bytes that are no text, and what [encrypt_file]
    makes of it. *)
Definition report : bytes := [xff; x00; xfe].

Definition sealed_report : bytes :=
  match encryption.encrypt cipher now iv (PBytes report) with
  | Return c => c
  | Raise _ => []
  end.

Definition report_on_disk : os.plain_files := {[ lit "report.pdf" := report ]}.


(** The dicts of a program: one user record and the records of three
    uploads of one user; every other dict is empty. *)
Definition alice : database.row :=
  [(lit "username", database.Plain (PStr (lit "alice")));
   (lit "active", database.Plain (PBool true))].

Definition upload (t : Z) (name : string) : database.row :=
  [(lit "user_id", database.Plain (PStr (lit "2")));
   (lit "filename", database.Plain (PStr (lit name)));
   (lit "timestamp", database.Datetime t)].

Definition program_dicts : database.dicts :=
  fun d =>
    match d with
    | 0 => alice
    | 1 => upload 100 "a"
    | 2 => upload 300 "b"
    | 3 => upload 200 "c"
    | _ => []
    end%nat.


End fixtures.

(** ** Printed values as literals *)

Module literals.

Import builtins.
Local Open Scope N_scope.

Definition is_quote (q : N) : Prop := q = 39 \/ q = 34.

(** What may follow a printed string: no quote character. *)
Definition no_quote (rest : str) : Prop :=
  match rest with
  | [] => True
  | c :: _ => c <> 39 /\ c <> 34
  end.

(** What follows a printed value inside a display: the end of the
    text, a comma, or a closing bracket. *)
Definition follows (rest : str) : Prop :=
  match rest with
  | [] => True
  | c :: _ => c = 44 \/ c = 93 \/ c = 125
  end.

(** The expression that [repr] of a value of the schema spells. *)
Fixpoint literal (v : value) : expr :=
  match v with
  | PNone => ENone
  | PBool b => EBool b
  | PInt z => if (z <? 0)%Z then ENeg (EInt (Z.to_N (- z))) else EInt (Z.to_N z)
  | PStr s => EStr s
  | PList l => EList (map literal l)
  | PDict d => EDict (map (fun kv => let '(k, x) := kv in (k, literal x)) d)
  | PBytes _ | PModule _ | PBuiltin _ => ENone
  end.

Definition literal_pair (kv : str * value) : str * expr :=
  let '(k, x) := kv in (k, literal x).

(** One [key: value] of a printed dict. *)
Definition repr_pair (isprintable : N -> bool) (kv : str * value) : str :=
  let '(k, x) := kv in
  repr_str isprintable k ++ 58 :: 32 :: builtins.repr isprintable x.

(** Fuel that suffices to read a printed value back. *)
Fixpoint cost (v : value) : nat :=
  match v with
  | PInt _ => 2
  | PList l =>
      S ((fix items (l : list value) : nat :=
            match l with
            | [] => O
            | x :: r => S (cost x + items r)
            end) l)
  | PDict d =>
      S ((fix pairs (d : list (str * value)) : nat :=
            match d with
            | [] => O
            | (_, x) :: r => S (cost x + pairs r)
            end) d)
  | _ => 1
  end.

Definition items_cost : list value -> nat :=
  fix items (l : list value) : nat :=
    match l with
    | [] => O
    | x :: r => S (cost x + items r)
    end.

Definition pairs_cost : list (str * value) -> nat :=
  fix pairs (d : list (str * value)) : nat :=
    match d with
    | [] => O
    | (_, x) :: r => S (cost x + pairs r)
    end.

(** The loops of [eval_expr] over the items of a display. *)
Definition eval_items (W : oracle) : list expr -> M (list value) :=
  fix eval_items (l : list expr) : M (list value) :=
    match l with
    | [] => ret []
    | x :: r =>
        let* v := eval_expr W x in
        let* vs := eval_items r in
        ret (v :: vs)
    end.

Definition eval_pairs (W : oracle)
  : list (str * expr) -> list (str * value) -> M (list (str * value)) :=
  fix eval_pairs (l : list (str * expr)) (d : list (str * value))
    : M (list (str * value)) :=
    match l with
    | [] => ret d
    | (k, x) :: r =>
        let* v := eval_expr W x in
        eval_pairs r (dict_set d k v)
    end.

(** The values of the schema, as a predicate on lists. *)
Definition all_in_schema : list value -> Prop :=
  fix all (l : list value) : Prop :=
    match l with
    | [] => True
    | x :: r => notions.in_schema x /\ all r
    end.

Definition pairs_in_schema : list (str * value) -> Prop :=
  fix all (d : list (str * value)) : Prop :=
    match d with
    | [] => True
    | (k, x) :: r => notions.valid_str k /\ notions.in_schema x /\ all r
    end.

(** Reading a printed value back gives its literal and leaves the rest. *)
Definition reads_back (isprintable : N -> bool) (v : value) : Prop :=
  notions.in_schema v ->
  forall fuel rest,
    (cost v <= fuel)%nat -> follows rest ->
    parse_expr fuel (repr isprintable v ++ rest) = Some (literal v, rest).

(** Evaluating the literal of a value gives the value, without effect. *)
Definition evaluates (W : oracle) (v : value) : Prop :=
  notions.in_schema v ->
  forall tr, eval_expr W (literal v) tr = (Return v, tr).

End literals.

(** * Properties *)

(** ** The transport *)

Module sftp_client_properties.

Import posixpath sftp_client notions.

Lemma rfind_from_bounds c s i acc :
  acc < i ->
  (rfind_from c s i acc = acc \/ i <= rfind_from c s i acc)
  /\ rfind_from c s i acc < i + len s.
Proof.
  unfold len. revert i acc.
  induction s as [|x r IH]; intros i acc H; simpl rfind_from.
  - simpl. lia.
  - destruct (x =? c)%N.
    + specialize (IH (i + 1) i ltac:(lia)). simpl length. lia.
    + specialize (IH (i + 1) acc ltac:(lia)). simpl length. lia.
Qed.

(** Past the last separator there is none: [rfind] from index [i]
    returns [acc] exactly when the string holds no [c]. *)
Lemma rfind_from_none c s i acc :
  Forall (fun x => x <> c) s -> rfind_from c s i acc = acc.
Proof.
  revert i acc. induction s as [|x r IH]; intros i acc H; simpl; [done|].
  inversion H as [|? ? Hx Hr]; subst.
  destruct (N.eqb_spec x c); [done|]. by apply IH.
Qed.

Lemma rfind_from_drop c s : forall i acc,
  acc < i ->
  Forall (fun x => x <> c)
         (drop (Z.to_nat (rfind_from c s i acc + 1 - i)) s).
Proof.
  induction s as [|x r IH]; intros i acc H; simpl rfind_from.
  - rewrite drop_nil. constructor.
  - destruct (N.eqb_spec x c) as [->|Hne].
    + pose proof (rfind_from_bounds c r (i + 1) i ltac:(lia)) as Hb.
      destruct (Z.eq_dec (rfind_from c r (i + 1) i) i) as [Heq|Hneq].
      * rewrite Heq. replace (Z.to_nat (i + 1 - i)) with 1%nat by lia.
        simpl. rewrite drop_0.
        specialize (IH (i + 1) i ltac:(lia)). rewrite Heq in IH.
        replace (Z.to_nat (i + 1 - (i + 1))) with 0%nat in IH by lia.
        by rewrite drop_0 in IH.
      * specialize (IH (i + 1) i ltac:(lia)).
        replace (Z.to_nat (rfind_from c r (i + 1) i + 1 - i))
          with (S (Z.to_nat (rfind_from c r (i + 1) i + 1 - (i + 1)))) by lia.
        exact IH.
    + pose proof (rfind_from_bounds c r (i + 1) acc ltac:(lia)) as Hb.
      destruct (Z_lt_le_dec (rfind_from c r (i + 1) acc) i) as [Hlt|Hge].
      * (* no separator further on *)
        replace (Z.to_nat (rfind_from c r (i + 1) acc + 1 - i)) with 0%nat by lia.
        rewrite drop_0. constructor; [done|].
        specialize (IH (i + 1) acc ltac:(lia)).
        replace (Z.to_nat (rfind_from c r (i + 1) acc + 1 - (i + 1)))
          with 0%nat in IH by lia.
        by rewrite drop_0 in IH.
      * specialize (IH (i + 1) acc ltac:(lia)).
        replace (Z.to_nat (rfind_from c r (i + 1) acc + 1 - i))
          with (S (Z.to_nat (rfind_from c r (i + 1) acc + 1 - (i + 1)))) by lia.
        exact IH.
Qed.

(** The last component holds no separator. *)
Lemma basename_no_separator p :
  Forall (fun x => x <> posixpath.sep) (posixpath.basename p).
Proof.
  unfold posixpath.basename, posixpath.rfind.
  pose proof (rfind_from_drop posixpath.sep p 0 (-1) ltac:(lia)) as H.
  by rewrite Z.sub_0_r in H.
Qed.

(** A name without separator is its own last component. *)
Lemma basename_plain p :
  Forall (fun x => x <> posixpath.sep) p -> posixpath.basename p = p.
Proof.
  intros H. unfold posixpath.basename, posixpath.rfind.
  by rewrite rfind_from_none.
Qed.

Lemma basename_idempotent p :
  posixpath.basename (posixpath.basename p) = posixpath.basename p.
Proof. apply basename_plain, basename_no_separator. Qed.

(** The last component is what follows the final separator. *)
Lemma basename_after_last_separator dir name :
  Forall (fun x => x <> posixpath.sep) name ->
  posixpath.basename (dir ++ posixpath.sep :: name) = name.
Proof.
  intros H. unfold posixpath.basename, posixpath.rfind.
  assert (G : forall i acc, -1 <= acc < i ->
            rfind_from posixpath.sep (dir ++ posixpath.sep :: name) i acc
            = i + len dir).
  { unfold len. induction dir as [|x r IH]; intros i acc Hi; simpl.
    - rewrite rfind_from_none by done. lia.
    - rewrite IH by (destruct (x =? posixpath.sep)%N; lia). lia. }
  rewrite G by lia. unfold len.
  replace (Z.to_nat (0 + Z.of_nat (length dir) + 1)) with (length dir + 1)%nat by lia.
  rewrite <- drop_drop, drop_app_length. done.
Qed.

(** In development mode the constructor accepts a missing
    configuration and the object it returns is disabled. *)
Example dev_mode_construction :
  __init__ fixtures.int_of_digits fixtures.dev_env []
  = (Return fixtures.disabled,
     [EPrint (lit "WARNING: Running in development mode - SFTP operations will fail gracefully")]).
Proof. vm_compute. reflexivity. Qed.

(** C5: a transport in disabled (development) mode answers each of
    the five operations (put, get, list, delete, testConnection) with
    the failure result that carries the message "SFTP not configured -
    running in development mode", and leaves the trace of outside
    calls as it found it: no session, no connection, no network call. *)
Theorem disabled_mode_rejects_every_operation
    (W : oracle) (env : environ) (self : SFTPManager)
    (file_data : bytes) (remote_filename : str)
    (remote_directory : option str) (tr : trace) :
  dev_mode self = true ->
  let rejected := (Return (failure dev_mode_error), tr) in
  upload_file W env self file_data remote_filename tr = rejected
  /\ download_file W env self remote_filename tr = rejected
  /\ list_files W env self remote_directory tr = rejected
  /\ delete_file W env self remote_filename tr = rejected
  /\ test_connection W env self tr = rejected.
Proof.
  intros Hdev rejected.
  unfold upload_file, download_file, list_files, delete_file, test_connection,
    try_except.
  rewrite Hdev. repeat split; reflexivity.
Qed.

Lemma disabled_mode_rejects_every_operation_witness :
  dev_mode fixtures.disabled = true
  /\ upload_file fixtures.accepting fixtures.configured_env fixtures.disabled
       [x01] (lit "report.enc") []
     = (Return (failure dev_mode_error), []).
Proof.
  split; [reflexivity|].
  apply (disabled_mode_rejects_every_operation fixtures.accepting
           fixtures.configured_env fixtures.disabled [x01] (lit "report.enc")
           None []).
  reflexivity.
Defined.

(** C8: when host, username or credential is absent (unset or empty)
    and development mode is not switched on, constructing the transport
    raises a [ValueError]: nothing is returned, nothing is printed, and
    no disabled object is handed out in its place. *)
Theorem construction_requires_credentials
    (int_of_str : str -> outcome Z) (env : environ) (tr : trace) :
  (forall s e, int_of_str s = Raise e -> cls e = ValueError) ->
  truthy_opt (getenv env "SFTP_HOST") = false
  \/ truthy_opt (getenv env "SFTP_USERNAME") = false
  \/ truthy_opt (getenv env "SFTP_PASSWORD") = false ->
  lower (getenv_default env "SFTP_DEV_MODE" (lit "false")) <> lit "true" ->
  exists e, __init__ int_of_str env tr = (Raise e, tr) /\ cls e = ValueError.
Proof.
  intros Hint Habsent Hdev. unfold __init__.
  destruct (int_of_str _) as [port|e] eqn:Hport.
  - rewrite bool_decide_eq_false_2 by exact Hdev.
    exists (mk_exn ValueError configuration_message). split; [|reflexivity].
    destruct Habsent as [H|[H|H]]; rewrite H; simpl;
      rewrite ?orb_true_r; reflexivity.
  - exists e. split; [reflexivity|]. eapply Hint, Hport.
Qed.

Lemma construction_requires_credentials_witness :
  exists e,
    __init__ fixtures.int_of_digits
      (<[lit "SFTP_HOST" := lit "sftp.example.org"]> ∅) []
    = (Raise e, []) /\ cls e = ValueError.
Proof.
  apply (construction_requires_credentials fixtures.int_of_digits
           (<[lit "SFTP_HOST" := lit "sftp.example.org"]> ∅) []).
  - intros s e. unfold fixtures.int_of_digits.
    destruct (builtins.parse_number s) as [[n [|c r]]|]; intros H;
      inversion H; reflexivity.
  - right. left. reflexivity.
  - vm_compute. discriminate.
Defined.

(** With all three present the constructor returns the object. *)
Example configured_construction :
  __init__ fixtures.int_of_digits fixtures.configured_env []
  = (Return fixtures.configured, []).
Proof. vm_compute. reflexivity. Qed.

Lemma rejected_name_basename name :
  rejected_name (posixpath.basename name) = rejected_name name.
Proof. unfold rejected_name. by rewrite basename_idempotent. Qed.

(** C4 as stated fails: a name with a separator, a [..] segment and an
    absolute prefix is uploaded under its last component, over a
    session that is opened for it. *)
Lemma traversal_name_is_not_rejected :
  let name := lit "/../etc/passwd" in
  has_separator name = true
  /\ has_dotdot_segment name = true
  /\ is_absolute name = true
  /\ exists tr,
       upload_file fixtures.accepting fixtures.configured_env
         fixtures.configured [x01] name []
       = (Return (PDict [(lit "success", PBool true);
                         (lit "remote_filename", PStr (lit "passwd"));
                         (lit "remote_path", PStr (lit "/uploads/passwd"));
                         (lit "size", PInt 1)]), tr)
       /\ In (EConnect (lit "sftp.example.org") 22 (lit "alice") (lit "secret") 10) tr
       /\ In (EPut (lit "/tmp/tmpfile") (lit "/uploads/passwd")) tr.
Proof.
  repeat split; try reflexivity.
  eexists. split; [vm_compute; reflexivity|].
  split; vm_compute; tauto.
Qed.

End sftp_client_properties.

(** ** The compression ratio *)

Module server_properties.

Import server.

(** C7: for every pair of sizes the reported ratio is
    [round((1 - compressed/original) * 100, 2)] when the original size
    is positive and the int [0] otherwise; in particular the division
    is never reached with a zero divisor, and no [ZeroDivisionError]
    (nor any other exception) is raised, the empty file included. *)
Theorem compression_ratio_guards_division
    (float : Type) (quotient : Z -> Z -> float)
    (int_minus : Z -> float -> float) (times_int : float -> Z -> float)
    (round : float -> Z -> float) (compressed_size original_size : Z) :
  compression_ratio float quotient int_minus times_int round
    compressed_size original_size
  = Return (if 0 <? original_size
            then Float (round (times_int
                                 (int_minus 1 (quotient compressed_size original_size))
                                 100) 2)
            else Int 0).
Proof.
  unfold compression_ratio, truediv.
  destruct (Z.ltb_spec 0 original_size) as [Hpos|Hnonpos]; [|reflexivity].
  destruct (Z.eqb_spec original_size 0) as [Hzero|_]; [lia|reflexivity].
Qed.

End server_properties.

(** Linear arithmetic with division and remainder by constants. *)
Ltac lia_div := zify; Z.to_euclidean_division_equations; lia.

(** ** Bytes *)

Module Bytes_facts.

Local Open Scope N_scope.

Lemma to_N_lt b : Bytes.to_N b < 256.
Proof. unfold Bytes.to_N. pose proof (Byte.to_N_bounded b). lia. Qed.

Lemma of_to_N b : Bytes.of_N (Bytes.to_N b) = b.
Proof.
  unfold Bytes.of_N, Bytes.to_N.
  rewrite N.mod_small by apply to_N_lt.
  by rewrite Byte.of_to_N.
Qed.

Lemma to_of_N n : n < 256 -> Bytes.to_N (Bytes.of_N n) = n.
Proof.
  intros H. unfold Bytes.of_N, Bytes.to_N. rewrite N.mod_small by done.
  destruct (Byte.of_N n) as [b|] eqn:E.
  - by apply Byte.to_of_N.
  - apply Byte.of_N_None_iff in E. lia.
Qed.

Lemma to_N_inj a b : Bytes.to_N a = Bytes.to_N b -> a = b.
Proof. intros H. by rewrite <- (of_to_N a), <- (of_to_N b), H. Qed.

Lemma eqb_eq a b : Bytes.eqb a b = true <-> a = b.
Proof.
  unfold Bytes.eqb. split; [apply Byte.byte_dec_bl | apply Byte.byte_dec_lb].
Qed.

Lemma eqb_neq a b : Bytes.eqb a b = false <-> a <> b.
Proof.
  rewrite <- eqb_eq. destruct (Bytes.eqb a b); split; congruence.
Qed.

(** A property checked on the numbers below [k] holds of each. *)
Lemma forall_below (k : nat) (f : N -> bool) :
  forallb f (map N.of_nat (seq 0 k)) = true ->
  forall v, v < N.of_nat k -> f v = true.
Proof.
  intros H v Hv. rewrite forallb_forall in H. apply H.
  apply in_map_iff. exists (N.to_nat v). split; [lia|].
  apply in_seq. lia.
Qed.

(** A property checked on [Bytes.all] holds of every byte. *)
Lemma forall_byte (f : byte -> bool) :
  forallb f Bytes.all = true -> forall b, f b = true.
Proof.
  intros H b. rewrite forallb_forall in H. apply H.
  unfold Bytes.all. apply in_map_iff. exists (N.to_nat (Bytes.to_N b)).
  split.
  - rewrite N2Nat.id. apply of_to_N.
  - apply in_seq. pose proof (to_N_lt b). lia.
Qed.

Lemma forall_byte2 (f : byte -> byte -> bool) :
  forallb (fun a => forallb (f a) Bytes.all) Bytes.all = true ->
  forall a b, f a b = true.
Proof.
  intros H a b.
  apply (forall_byte (f a)).
  apply (forall_byte (fun a => forallb (f a) Bytes.all) H).
Qed.

End Bytes_facts.

(** Settle a statement about one or two arbitrary bytes by running it
    on all of them. *)
Ltac by_enumeration :=
  match goal with
  | |- forall a b : byte, @eq ?T (@?l a b) (@?r a b) =>
      let H := fresh in
      intros a b;
      assert (H : bool_decide (l a b = r a b) = true);
      [ revert a b; apply Bytes_facts.forall_byte2; vm_compute; reflexivity
      | exact (bool_decide_eq_true_1 _ H) ]
  | |- forall a : byte, @eq ?T (@?l a) (@?r a) =>
      let H := fresh in
      intros a;
      assert (H : bool_decide (l a = r a) = true);
      [ revert a; apply Bytes_facts.forall_byte; vm_compute; reflexivity
      | exact (bool_decide_eq_true_1 _ H) ]
  end.


(** ** AES-128: decryption inverts encryption *)

Module AES_facts.

Import AES.

Lemma xor_involutive : forall a k : byte, Bytes.xor (Bytes.xor a k) k = a.
Proof. by_enumeration. Qed.

Lemma xor_zero_r : forall a : byte, Bytes.xor a x00 = a.
Proof. by_enumeration. Qed.

Lemma xor_zero_l : forall a : byte, Bytes.xor x00 a = a.
Proof. by_enumeration. Qed.

Lemma inv_sub_byte_sub_byte : forall a : byte, inv_sub_byte (sub_byte a) = a.
Proof. by_enumeration. Qed.

(** Multiplication by a constant distributes over the sum of the field. *)
Lemma mul9_xor : forall a b : byte,
  mul9 (Bytes.xor a b) = Bytes.xor (mul9 a) (mul9 b).
Proof. by_enumeration. Qed.
Lemma mul11_xor : forall a b : byte,
  mul11 (Bytes.xor a b) = Bytes.xor (mul11 a) (mul11 b).
Proof. by_enumeration. Qed.
Lemma mul13_xor : forall a b : byte,
  mul13 (Bytes.xor a b) = Bytes.xor (mul13 a) (mul13 b).
Proof. by_enumeration. Qed.
Lemma mul14_xor : forall a b : byte,
  mul14 (Bytes.xor a b) = Bytes.xor (mul14 a) (mul14 b).
Proof. by_enumeration. Qed.

Lemma to_N_xor a b :
  Bytes.to_N (Bytes.xor a b) = N.lxor (Bytes.to_N a) (Bytes.to_N b).
Proof.
  revert a b.
  assert (H : forall a b : byte,
             Bytes.to_N (Bytes.xor a b) = N.lxor (Bytes.to_N a) (Bytes.to_N b))
    by by_enumeration.
  exact H.
Qed.

(** Sums of the field may be regrouped: both sides have the same bits. *)
Ltac xor_bits :=
  apply Bytes_facts.to_N_inj; rewrite !to_N_xor;
  apply N.bits_inj; intros ?i; rewrite !N.lxor_spec;
  repeat match goal with
         | |- context [N.testbit ?x ?i] =>
             let b := fresh "b" in
             generalize (N.testbit x i); intros b
         end;
  repeat match goal with b : bool |- _ => destruct b end; reflexivity.

Lemma xor4_interchange a b c d a' b' c' d' :
  xor4 (Bytes.xor a a') (Bytes.xor b b') (Bytes.xor c c') (Bytes.xor d d')
  = Bytes.xor (xor4 a b c d) (xor4 a' b' c' d').
Proof. unfold xor4. xor_bits. Qed.

Lemma inv_mix_column_xor u v :
  inv_mix_column (xor_word u v) = xor_word (inv_mix_column u) (inv_mix_column v).
Proof.
  destruct u as [[[u0 u1] u2] u3], v as [[[v0 v1] v2] v3].
  unfold inv_mix_column, xor_word.
  rewrite !mul9_xor, !mul11_xor, !mul13_xor, !mul14_xor.
  by rewrite !xor4_interchange.
Qed.

(** The contribution of each input byte to a mixed column, and what the
    inverse makes of it. *)
Lemma inv_mix_column_0 : forall a : byte,
  inv_mix_column (mul2 a, a, a, mul3 a) = (a, x00, x00, x00).
Proof. by_enumeration. Qed.
Lemma inv_mix_column_1 : forall a : byte,
  inv_mix_column (mul3 a, mul2 a, a, a) = (x00, a, x00, x00).
Proof. by_enumeration. Qed.
Lemma inv_mix_column_2 : forall a : byte,
  inv_mix_column (a, mul3 a, mul2 a, a) = (x00, x00, a, x00).
Proof. by_enumeration. Qed.
Lemma inv_mix_column_3 : forall a : byte,
  inv_mix_column (a, a, mul3 a, mul2 a) = (x00, x00, x00, a).
Proof. by_enumeration. Qed.

Lemma mix_column_sum a0 a1 a2 a3 :
  mix_column (a0, a1, a2, a3)
  = xor_word (xor_word (xor_word (mul2 a0, a0, a0, mul3 a0)
                                 (mul3 a1, mul2 a1, a1, a1))
                       (a2, mul3 a2, mul2 a2, a2))
             (a3, a3, mul3 a3, mul2 a3).
Proof. reflexivity. Qed.

Lemma inv_mix_column_mix_column w : inv_mix_column (mix_column w) = w.
Proof.
  destruct w as [[[a0 a1] a2] a3].
  rewrite mix_column_sum, !inv_mix_column_xor.
  rewrite inv_mix_column_0, inv_mix_column_1, inv_mix_column_2, inv_mix_column_3.
  unfold xor_word. by rewrite !xor_zero_r, !xor_zero_l.
Qed.

Lemma xor_word_involutive w k : xor_word (xor_word w k) k = w.
Proof.
  destruct w as [[[a b] c] d], k as [[[a' b'] c'] d'].
  unfold xor_word. by rewrite !xor_involutive.
Qed.

Lemma xor_block_involutive s k : xor_block (xor_block s k) k = s.
Proof.
  destruct s as [[[a b] c] d], k as [[[a' b'] c'] d'].
  unfold xor_block. by rewrite !xor_word_involutive.
Qed.

Lemma inv_sub_bytes_sub_bytes s : inv_sub_bytes (sub_bytes s) = s.
Proof.
  destruct s as [[[[[[a0 a1] a2] a3] [[[b0 b1] b2] b3]]
                   [[[c0 c1] c2] c3]] [[[d0 d1] d2] d3]].
  unfold inv_sub_bytes, sub_bytes, map_block, map_word.
  by rewrite !inv_sub_byte_sub_byte.
Qed.

Lemma inv_shift_rows_shift_rows s : inv_shift_rows (shift_rows s) = s.
Proof.
  by destruct s as [[[[[[a0 a1] a2] a3] [[[b0 b1] b2] b3]]
                      [[[c0 c1] c2] c3]] [[[d0 d1] d2] d3]].
Qed.

Lemma inv_mix_columns_mix_columns s : inv_mix_columns (mix_columns s) = s.
Proof.
  destruct s as [[[a b] c] d].
  unfold inv_mix_columns, mix_columns, map_block.
  by rewrite !inv_mix_column_mix_column.
Qed.

Lemma inv_round_round rk s : inv_round rk (round rk s) = s.
Proof.
  unfold inv_round, round, add_round_key.
  by rewrite xor_block_involutive, inv_mix_columns_mix_columns,
    inv_shift_rows_shift_rows, inv_sub_bytes_sub_bytes.
Qed.

Lemma inv_final_round_final_round rk s :
  inv_final_round rk (final_round rk s) = s.
Proof.
  unfold inv_final_round, final_round, add_round_key.
  by rewrite xor_block_involutive, inv_shift_rows_shift_rows,
    inv_sub_bytes_sub_bytes.
Qed.

Lemma inv_rounds_rounds rks : forall s, inv_rounds rks (rounds rks s) = s.
Proof.
  induction rks as [|rk [|rk' r] IH]; intros s.
  - reflexivity.
  - apply inv_final_round_final_round.
  - change (inv_round rk (inv_rounds (rk' :: r) (rounds (rk' :: r) (round rk s))) = s).
    by rewrite IH, inv_round_round.
Qed.

(** Decryption of a block undoes its encryption, under every key. *)
Lemma decrypt_block_encrypt_block key s :
  decrypt_block key (encrypt_block key s) = s.
Proof.
  unfold decrypt_block, encrypt_block, add_round_key.
  by rewrite inv_rounds_rounds, xor_block_involutive.
Qed.

Lemma cbc_decrypt_cbc_encrypt key ps : forall prev,
  cbc_decrypt key prev (cbc_encrypt key prev ps) = ps.
Proof.
  induction ps as [|p r IH]; intros prev; cbn [cbc_encrypt cbc_decrypt];
    [reflexivity|].
  rewrite decrypt_block_encrypt_block, xor_block_involutive, IH. reflexivity.
Qed.

Lemma length_bytes_of_block s : length (bytes_of_block s) = 16%nat.
Proof.
  by destruct s as [[[[[[a0 a1] a2] a3] [[[b0 b1] b2] b3]]
                      [[[c0 c1] c2] c3]] [[[d0 d1] d2] d3]].
Qed.

Lemma blocks_of_bytes_app s r :
  blocks_of_bytes (bytes_of_block s ++ r)
  = match blocks_of_bytes r with
    | Some bs => Some (s :: bs)
    | None => None
    end.
Proof.
  by destruct s as [[[[[[a0 a1] a2] a3] [[[b0 b1] b2] b3]]
                      [[[c0 c1] c2] c3]] [[[d0 d1] d2] d3]].
Qed.

Lemma blocks_of_bytes_of_blocks bs :
  blocks_of_bytes (bytes_of_blocks bs) = Some bs.
Proof.
  induction bs as [|s r IH]; [done|].
  unfold bytes_of_blocks. simpl flat_map.
  rewrite blocks_of_bytes_app. fold (bytes_of_blocks r). by rewrite IH.
Qed.

Lemma length_bytes_of_blocks bs :
  length (bytes_of_blocks bs) = (16 * length bs)%nat.
Proof.
  induction bs as [|s r IH]; [done|].
  unfold bytes_of_blocks in *. simpl flat_map.
  rewrite length_app, length_bytes_of_block, IH. simpl length. lia.
Qed.

Lemma length_cbc_encrypt key ps : forall prev,
  length (cbc_encrypt key prev ps) = length ps.
Proof.
  induction ps as [|p r IH]; intros prev; cbn [cbc_encrypt length];
    [reflexivity|].
  rewrite IH. reflexivity.
Qed.

(** Sixteen bytes make a block. *)
Lemma block_of_bytes_length l :
  length l = 16%nat -> exists s, block_of_bytes l = Some s /\ bytes_of_block s = l.
Proof.
  intros H.
  do 16 (destruct l as [|? l]; [discriminate|]).
  destruct l; [|discriminate]. eexists. split; reflexivity.
Qed.

(** A byte string of whole blocks is cut without remainder, and the
    blocks put together give it back. *)
Lemma blocks_of_bytes_length n : forall l,
  length l = (16 * n)%nat ->
  exists bs, blocks_of_bytes l = Some bs /\ bytes_of_blocks bs = l
             /\ length bs = n.
Proof.
  induction n as [|n IH]; intros l H.
  - destruct l; [|discriminate]. exists []. done.
  - do 16 (destruct l as [|? l]; [simpl in H; lia|]).
    destruct (IH l) as (bs & Hbs & Hl & Hn); [simpl in H; lia|].
    eexists (_ :: bs). simpl blocks_of_bytes. rewrite Hbs.
    split; [reflexivity|]. split; [|simpl; lia].
    unfold bytes_of_blocks in *. simpl. by rewrite Hl.
Qed.


End AES_facts.

(** ** base64: decoding inverts encoding *)

Module base64_facts.

Import base64 Bytes_facts.
Local Open Scope N_scope.

Lemma a2b_b2a v : v < 64 -> a2b (b2a v) = Some v.
Proof.
  intros H.
  assert (G : bool_decide (a2b (b2a v) = Some v) = true).
  { revert v H. apply (forall_below 64). vm_compute. reflexivity. }
  exact (bool_decide_eq_true_1 _ G).
Qed.

(** A property checked on the sixty-four alphabet characters holds of
    whatever [b2a] returns. *)
Lemma forall_b2a (f : byte -> bool) :
  forallb (fun v => f (b2a v)) (map N.of_nat (seq 0 64)) = true ->
  forall v, f (b2a v) = true.
Proof.
  intros H v. destruct (N.lt_ge_cases v 64) as [Hv|Hv].
  - by apply (forall_below 64 (fun v => f (b2a v))).
  - replace (b2a v) with (b2a 63).
    + by apply (forall_below 64 (fun v => f (b2a v))).
    + unfold b2a.
      destruct (N.ltb_spec v 26); [lia|]. destruct (N.ltb_spec v 52); [lia|].
      destruct (N.ltb_spec v 62); [lia|]. destruct (N.eqb_spec v 62); [lia|].
      reflexivity.
Qed.

Lemma b2a_not_pad v : Bytes.eqb (b2a v) pad = false.
Proof.
  apply negb_true_iff.
  apply (forall_b2a (fun c => negb (Bytes.eqb c pad))). vm_compute. reflexivity.
Qed.

(** The steps of the decoder on one alphabet character. *)
Lemma a2b_loop_0 v rest l p n :
  v < 64 -> a2b_loop (b2a v :: rest) 0 l p n = a2b_loop rest 1 v 0 n.
Proof. intros H. cbn [a2b_loop]. by rewrite b2a_not_pad, a2b_b2a. Qed.

Lemma a2b_loop_1 v rest l p n :
  v < 64 ->
  a2b_loop (b2a v :: rest) 1 l p n
  = emit (Bytes.of_N (l * 4 + v / 16)) (a2b_loop rest 2 (v mod 16) 0 (n + 1)).
Proof. intros H. cbn [a2b_loop]. by rewrite b2a_not_pad, a2b_b2a. Qed.

Lemma a2b_loop_2 v rest l p n :
  v < 64 ->
  a2b_loop (b2a v :: rest) 2 l p n
  = emit (Bytes.of_N (l * 16 + v / 4)) (a2b_loop rest 3 (v mod 4) 0 (n + 1)).
Proof. intros H. cbn [a2b_loop]. by rewrite b2a_not_pad, a2b_b2a. Qed.

Lemma a2b_loop_3 v rest l p n :
  v < 64 ->
  a2b_loop (b2a v :: rest) 3 l p n
  = emit (Bytes.of_N (l * 64 + v)) (a2b_loop rest 0 0 0 (n + 1)).
Proof. intros H. cbn [a2b_loop]. by rewrite b2a_not_pad, a2b_b2a. Qed.

(** The arithmetic of three bytes in four sextets, byte by byte. *)
Lemma sextets a b c :
  a < 256 -> b < 256 -> c < 256 ->
  a / 4 < 64 /\ a mod 4 * 16 + b / 16 < 64 /\ b mod 16 * 4 + c / 64 < 64
  /\ c mod 64 < 64 /\ a mod 4 * 16 < 64 /\ b mod 16 * 4 < 64
  /\ a / 4 * 4 + (a mod 4 * 16 + b / 16) / 16 = a
  /\ (a mod 4 * 16 + b / 16) mod 16 * 16 + (b mod 16 * 4 + c / 64) / 4 = b
  /\ (b mod 16 * 4 + c / 64) mod 4 * 64 + c mod 64 = c
  /\ a / 4 * 4 + (a mod 4 * 16) / 16 = a
  /\ (a mod 4 * 16 + b / 16) mod 16 * 16 + (b mod 16 * 4) / 4 = b.
Proof.
  intros Ha Hb Hc.
  pose proof (N.div_mod a 4 ltac:(lia)). pose proof (N.mod_lt a 4 ltac:(lia)).
  pose proof (N.div_mod b 16 ltac:(lia)). pose proof (N.mod_lt b 16 ltac:(lia)).
  pose proof (N.div_mod c 64 ltac:(lia)). pose proof (N.mod_lt c 64 ltac:(lia)).
  assert (b / 16 < 16) by (apply N.Div0.div_lt_upper_bound; lia).
  assert (c / 64 < 4) by (apply N.Div0.div_lt_upper_bound; lia).
  assert (a / 4 < 64) by (apply N.Div0.div_lt_upper_bound; lia).
  assert (E1 : (a mod 4 * 16 + b / 16) / 16 = a mod 4).
  { rewrite N.add_comm, N.div_add by lia. rewrite N.div_small by lia. lia. }
  assert (E2 : (a mod 4 * 16 + b / 16) mod 16 = b / 16).
  { rewrite N.add_comm, N.Div0.mod_add. apply N.mod_small. lia. }
  assert (E3 : (b mod 16 * 4 + c / 64) / 4 = b mod 16).
  { rewrite N.add_comm, N.div_add by lia. rewrite N.div_small by lia. lia. }
  assert (E4 : (b mod 16 * 4 + c / 64) mod 4 = c / 64).
  { rewrite N.add_comm, N.Div0.mod_add. apply N.mod_small. lia. }
  assert (E5 : a mod 4 * 16 / 16 = a mod 4) by (apply N.div_mul; lia).
  assert (E6 : b mod 16 * 4 / 4 = b mod 16) by (apply N.div_mul; lia).
  rewrite E1, E2, E3, E4, E5, E6. lia.
Qed.

(** Decoding undoes encoding. *)
Lemma a2b_loop_b64encode s : forall n, a2b_loop (b64encode s) 0 0 0 n = Return s.
Proof.
  induction s as [s IH] using (induction_ltof1 _ (@length byte)).
  unfold ltof in IH. intros n.
  destruct s as [|x [|y [|z r]]].
  - reflexivity.
  - pose proof (sextets _ _ _ (to_N_lt x) (to_N_lt x00) (to_N_lt x00))
      as (? & ? & _ & _ & ? & _ & _ & _ & _ & E & _).
    cbn [b64encode].
    rewrite a2b_loop_0, a2b_loop_1 by done. rewrite E, of_to_N.
    reflexivity.
  - pose proof (sextets _ _ _ (to_N_lt x) (to_N_lt y) (to_N_lt x00))
      as (? & ? & _ & _ & _ & ? & E1 & _ & _ & _ & E2).
    cbn [b64encode].
    rewrite a2b_loop_0, a2b_loop_1, a2b_loop_2 by done.
    rewrite E1, E2, !of_to_N. reflexivity.
  - pose proof (sextets _ _ _ (to_N_lt x) (to_N_lt y) (to_N_lt z))
      as (? & ? & ? & ? & _ & _ & E1 & E2 & E3 & _ & _).
    cbn [b64encode].
    rewrite a2b_loop_0, a2b_loop_1, a2b_loop_2, a2b_loop_3 by done.
    rewrite E1, E2, E3, !of_to_N, IH by (simpl; lia). reflexivity.
Qed.

Lemma b64decode_b64encode s : b64decode (b64encode s) = Return s.
Proof. apply a2b_loop_b64encode. Qed.

Lemma urlsafe_translation_pad :
  urlsafe_decode_translation (urlsafe_encode_translation pad) = pad.
Proof. reflexivity. Qed.

Lemma urlsafe_translation_b2a v :
  urlsafe_decode_translation (urlsafe_encode_translation (b2a v)) = b2a v.
Proof.
  apply eqb_eq.
  apply (forall_b2a
           (fun c => Bytes.eqb (urlsafe_decode_translation
                                  (urlsafe_encode_translation c)) c)).
  vm_compute. reflexivity.
Qed.

Lemma urlsafe_translation_b64encode s :
  map urlsafe_decode_translation (map urlsafe_encode_translation (b64encode s))
  = b64encode s.
Proof.
  induction s as [s IH] using (induction_ltof1 _ (@length byte)).
  unfold ltof in IH.
  destruct s as [|x [|y [|z r]]]; cbn [b64encode map];
    rewrite ?urlsafe_translation_b2a, ?urlsafe_translation_pad;
    [reflexivity..|].
  rewrite IH by (simpl; lia). reflexivity.
Qed.

(** [urlsafe_b64decode(urlsafe_b64encode(s)) == s] *)
Lemma urlsafe_b64decode_urlsafe_b64encode s :
  urlsafe_b64decode (urlsafe_b64encode s) = Return s.
Proof.
  unfold urlsafe_b64decode, urlsafe_b64encode.
  rewrite urlsafe_translation_b64encode. apply b64decode_b64encode.
Qed.

End base64_facts.

(** ** Byte order, SHA-256 lengths, Fernet *)

Module Bytes_codec_facts.

Import Bytes_facts.

Lemma length_big_endian k n : length (Bytes.big_endian k n) = k.
Proof. induction k as [|k IH]; simpl; [done|]. by rewrite IH. Qed.

Lemma from_big_endian_app a b :
  Bytes.from_big_endian (a ++ b)
  = fold_left (fun acc x => (acc * 256 + Bytes.to_N x)%N) b (Bytes.from_big_endian a).
Proof. unfold Bytes.from_big_endian. apply fold_left_app. Qed.

Lemma fold_big_endian k : forall n acc,
  (n < 256 ^ N.of_nat k)%N ->
  fold_left (fun acc x => (acc * 256 + Bytes.to_N x)%N) (Bytes.big_endian k n) acc
  = (acc * 256 ^ N.of_nat k + n)%N.
Proof.
  induction k as [|k IH]; intros n acc H.
  - simpl in *. lia.
  - cbn [Bytes.big_endian fold_left].
    replace (N.of_nat (S k)) with (N.succ (N.of_nat k)) in * by lia.
    rewrite N.pow_succ_r' in *.
    set (p := (256 ^ N.of_nat k)%N) in *.
    assert (Hp : (0 < p)%N) by (apply N.neq_0_lt_0, N.pow_nonzero; lia).
    assert (Hq : (n / p < 256)%N) by (apply N.Div0.div_lt_upper_bound; lia).
    rewrite to_of_N by done.
    pose proof (N.div_mod n p ltac:(lia)) as Hdm.
    pose proof (N.mod_lt n p ltac:(lia)) as Hlt.
    (* the remaining digits are those of [n mod p] *)
    assert (G : forall m, Bytes.big_endian k (m * p + n mod p) = Bytes.big_endian k n).
    { clear IH. subst p. revert Hdm Hlt. generalize (n mod 256 ^ N.of_nat k)%N as r.
      intros r Hdm Hlt m. clear Hq H acc Hp.
      assert (Q : forall j, (j <= k)%nat ->
                Bytes.big_endian j (m * 256 ^ N.of_nat k + r)
                = Bytes.big_endian j (n / 256 ^ N.of_nat k * 256 ^ N.of_nat k + r)).
      { induction j as [|j IHj]; intros Hj; [done|].
        cbn [Bytes.big_endian]. rewrite IHj by lia. f_equal.
        unfold Bytes.of_N. f_equal.
        replace (N.of_nat k) with (N.of_nat (k - j) + N.of_nat j)%N by lia.
        rewrite N.pow_add_r, !N.mul_assoc.
        rewrite !(N.add_comm (_ * _ * _)).
        rewrite !N.div_add by (apply N.pow_nonzero; lia).
        replace (N.of_nat (k - j)) with (N.succ (N.of_nat (k - S j))) by lia.
        rewrite N.pow_succ_r'.
        rewrite !(N.mul_comm 256), !N.mul_assoc, !N.Div0.mod_add. reflexivity. }
      rewrite (Q k) by lia. f_equal. lia. }
    rewrite <- (G 0%N). rewrite N.mul_0_l, N.add_0_l.
    rewrite IH by done. lia.
Qed.

Lemma from_big_endian_big_endian k n :
  (n < 256 ^ N.of_nat k)%N -> Bytes.from_big_endian (Bytes.big_endian k n) = n.
Proof. intros H. unfold Bytes.from_big_endian. rewrite fold_big_endian by done. lia. Qed.

(** [int.from_bytes(n.to_bytes(k, 'big'), 'big') == n] *)
Lemma to_bytes_from_big_endian n k b :
  Bytes.to_bytes n k = Return b ->
  length b = k /\ Z.of_N (Bytes.from_big_endian b) = n.
Proof.
  unfold Bytes.to_bytes.
  destruct (Z.ltb_spec n 0); [discriminate|].
  destruct (Z.leb_spec (256 ^ Z.of_nat k) n); [discriminate|].
  intros [= <-]. split; [apply length_big_endian|].
  rewrite from_big_endian_big_endian; [lia|].
  apply N2Z.inj_lt. rewrite N2Z.inj_pow, Z2N.id, nat_N_Z by lia. done.
Qed.

Lemma to_bytes_in_range n k :
  0 <= n < 256 ^ Z.of_nat k ->
  Bytes.to_bytes n k = Return (Bytes.big_endian k (Z.to_N n)).
Proof.
  intros H. unfold Bytes.to_bytes.
  destruct (Z.ltb_spec n 0); [lia|].
  destruct (Z.leb_spec (256 ^ Z.of_nat k) n); [lia|]. reflexivity.
Qed.

End Bytes_codec_facts.

Module SHA256_facts.

Import SHA256 Bytes_codec_facts.

Lemma length_sha256 m : length (sha256 m) = 32%nat.
Proof.
  unfold sha256. generalize (process (length (m ++ padding (N.of_nat (length m))))
                               (m ++ padding (N.of_nat (length m))) H0).
  intros [[[[[[[a b] c] d] e] f] g] h]. unfold digest_of_state.
  rewrite !length_app, !length_big_endian. reflexivity.
Qed.

Lemma length_hmac_sha256 key m : length (hmac_sha256 key m) = 32%nat.
Proof. apply length_sha256. Qed.

End SHA256_facts.

Module fernet_facts.

Import fernet Bytes_facts Bytes_codec_facts AES_facts base64_facts SHA256_facts.

Lemma pad_amount n : (1 <= 16 - n mod 16 <= 16)%nat.
Proof. pose proof (Nat.mod_upper_bound n 16). lia. Qed.

Lemma length_pkcs7_pad data :
  exists n, length (pkcs7_pad data) = (16 * n)%nat.
Proof.
  unfold pkcs7_pad. rewrite length_app, repeat_length.
  exists (S (length data / 16)).
  pose proof (Nat.div_mod_eq (length data) 16).
  pose proof (Nat.mod_upper_bound (length data) 16). lia.
Qed.

Lemma pkcs7_unpad_pkcs7_pad data : pkcs7_unpad (pkcs7_pad data) = Some data.
Proof.
  destruct (length_pkcs7_pad data) as [n Hn].
  unfold pkcs7_unpad. rewrite Hn. unfold pkcs7_pad in *.
  set (k := (16 - length data mod 16)%nat) in *.
  pose proof (pad_amount (length data)) as Hk. fold k in Hk.
  assert (Hlast : last (data ++ repeat (Bytes.of_N (N.of_nat k)) k)
                  = Some (Bytes.of_N (N.of_nat k))).
  { destruct k as [|k']; [lia|].
    replace (repeat (Bytes.of_N (N.of_nat (S k'))) (S k'))
      with (repeat (Bytes.of_N (N.of_nat (S k'))) k' ++ [Bytes.of_N (N.of_nat (S k'))]).
    - rewrite app_assoc. apply last_snoc.
    - rewrite <- repeat_cons. reflexivity. }
  rewrite Hlast.
  rewrite to_of_N by lia. rewrite Nat2N.id.
  replace (16 * n mod 16)%nat with 0%nat
    by (symmetry; rewrite Nat.mul_comm; apply Nat.Div0.mod_mul).
  cbn [Nat.eqb negb].
  rewrite length_app, repeat_length in Hn.
  replace (16 * n - k)%nat with (length data) by lia.
  rewrite drop_app_length, take_app_length.
  destruct (Nat.leb_spec 1 k); [|lia]. destruct (Nat.leb_spec k 16); [|lia].
  cbn [andb].
  replace (forallb (Bytes.eqb (Bytes.of_N (N.of_nat k)))
             (repeat (Bytes.of_N (N.of_nat k)) k)) with true; [done|].
  symmetry. apply forallb_forall. intros x Hx. apply repeat_spec in Hx.
  subst. by apply eqb_eq.
Qed.

(** The two halves of a constructed key are AES-128 keys. *)
Lemma init_key_lengths key f :
  __init__ key = Return f ->
  length (_signing_key f) = 16%nat /\ length (_encryption_key f) = 16%nat.
Proof.
  unfold __init__.
  destruct (base64.urlsafe_b64decode key) as [k|e];
    [|destruct (isinstance e BinasciiError); discriminate].
  case_bool_decide as Hk; [|discriminate].
  intros [= <-]. cbn [_signing_key _encryption_key].
  rewrite length_take, length_drop. lia.
Qed.

(** A generated key is accepted by the constructor. *)
Lemma init_generate_key urandom32 :
  length urandom32 = 32%nat ->
  __init__ (generate_key urandom32)
  = Return {| _signing_key := take 16 urandom32;
              _encryption_key := drop 16 urandom32 |}.
Proof.
  intros H. unfold __init__, generate_key.
  rewrite urlsafe_b64decode_urlsafe_b64encode.
  by rewrite bool_decide_eq_true_2.
Qed.

(** What [_encrypt_from_parts] computes when the key and the
    initialisation vector have sixteen bytes and the clock fits in
    eight. *)
Lemma encrypt_succeeds self data now iv :
  length (_encryption_key self) = 16%nat ->
  length iv = 16%nat ->
  0 <= now < 2 ^ 64 ->
  exists key iv_block ps ts,
    AES.block_of_bytes (_encryption_key self) = Some key
    /\ AES.block_of_bytes iv = Some iv_block
    /\ AES.blocks_of_bytes (pkcs7_pad data) = Some ps
    /\ AES.bytes_of_blocks ps = pkcs7_pad data
    /\ length ts = 8%nat
    /\ encrypt self now iv data
       = Return (base64.urlsafe_b64encode
                   (((x80 :: ts) ++ iv
                     ++ AES.bytes_of_blocks (AES.cbc_encrypt key iv_block ps))
                    ++ SHA256.hmac_sha256 (_signing_key self)
                         ((x80 :: ts) ++ iv
                          ++ AES.bytes_of_blocks (AES.cbc_encrypt key iv_block ps)))).
Proof.
  intros Hkey Hiv Hnow.
  destruct (block_of_bytes_length _ Hkey) as (key & Ekey & _).
  destruct (block_of_bytes_length _ Hiv) as (iv_block & Eiv & _).
  destruct (length_pkcs7_pad data) as [n Hn].
  destruct (blocks_of_bytes_length n _ Hn) as (ps & Eps & Hps & _).
  exists key, iv_block, ps, (Bytes.big_endian 8 (Z.to_N now)).
  do 4 (split; [assumption|]). split; [apply length_big_endian|].
  unfold encrypt, _encrypt_from_parts, aes_key, cbc_iv.
  rewrite Ekey, Eiv, Eps, to_bytes_in_range by (change (256 ^ Z.of_nat 8) with (2 ^ 64); lia).
  reflexivity.
Qed.

(** Decryption of a well-formed token whose tag verifies. *)
Lemma decrypt_well_formed self token body :
  base64.urlsafe_b64decode token = Return (x80 :: body) ->
  (8 <= length body)%nat ->
  decrypt self token = _decrypt_data self (x80 :: body).
Proof.
  intros Hdec Hlen. unfold decrypt, _get_unverified_token_data.
  rewrite Hdec. cbn [Bytes.eqb Byte.eqb negb].
  destruct (Nat.ltb_spec (length (x80 :: body)) 9) as [H|H];
    [simpl in H; lia|reflexivity].
Qed.

Lemma decrypt_data_verified self key iv_block ts iv cs unpadded :
  AES.block_of_bytes (_encryption_key self) = Some key ->
  AES.block_of_bytes iv = Some iv_block ->
  length ts = 8%nat ->
  pkcs7_unpad (AES.bytes_of_blocks (AES.cbc_decrypt key iv_block cs)) = Some unpadded ->
  let basic_parts := (x80 :: ts) ++ iv ++ AES.bytes_of_blocks cs in
  _decrypt_data self
    (basic_parts ++ SHA256.hmac_sha256 (_signing_key self) basic_parts)
  = Return unpadded.
Proof.
  intros Ekey Eiv Hts Hunpad basic_parts.
  assert (Hiv : length iv = 16%nat).
  { do 17 (destruct iv as [|? iv]; try discriminate). reflexivity. }
  set (tag := SHA256.hmac_sha256 (_signing_key self) basic_parts).
  assert (Htag : length tag = 32%nat) by apply length_hmac_sha256.
  assert (Hsigned : signed_part (basic_parts ++ tag) = basic_parts).
  { unfold signed_part. rewrite length_app, Htag.
    replace (length basic_parts + 32 - 32)%nat with (length basic_parts) by lia.
    apply take_app_length. }
  assert (Htagp : tag_part (basic_parts ++ tag) = tag).
  { unfold tag_part. rewrite length_app, Htag.
    replace (length basic_parts + 32 - 32)%nat with (length basic_parts) by lia.
    apply drop_app_length. }
  assert (Ediv : take 16 (drop 9 (basic_parts ++ tag)) = iv).
  { unfold basic_parts. rewrite <- !app_assoc.
    rewrite (drop_app_length' (x80 :: ts)) by (simpl; lia).
    by apply take_app_length'. }
  assert (Ect : drop 25 basic_parts = AES.bytes_of_blocks cs).
  { unfold basic_parts. rewrite app_assoc.
    apply drop_app_length'. rewrite length_app. simpl. lia. }
  unfold _decrypt_data, _verify_signature.
  rewrite Hsigned, Htagp. fold tag.
  rewrite bool_decide_eq_true_2 by reflexivity.
  unfold aes_key, cbc_iv.
  rewrite Ekey, Ediv, Eiv, Ect, blocks_of_bytes_of_blocks, Hunpad.
  reflexivity.
Qed.

(** Decryption of a well-formed token whose tag verifies. *)
Lemma decrypt_token self key iv_block ts iv cs unpadded :
  AES.block_of_bytes (_encryption_key self) = Some key ->
  AES.block_of_bytes iv = Some iv_block ->
  length ts = 8%nat ->
  pkcs7_unpad (AES.bytes_of_blocks (AES.cbc_decrypt key iv_block cs)) = Some unpadded ->
  let basic_parts := (x80 :: ts) ++ iv ++ AES.bytes_of_blocks cs in
  decrypt self (base64.urlsafe_b64encode
                  (basic_parts ++ SHA256.hmac_sha256 (_signing_key self) basic_parts))
  = Return unpadded.
Proof.
  intros Ekey Eiv Hts Hunpad basic_parts.
  rewrite (decrypt_well_formed self _
             ((ts ++ iv ++ AES.bytes_of_blocks cs)
              ++ SHA256.hmac_sha256 (_signing_key self) basic_parts)).
  - by apply (decrypt_data_verified self key iv_block ts iv cs).
  - apply urlsafe_b64decode_urlsafe_b64encode.
  - rewrite !length_app. lia.
Qed.

(** [decrypt(encrypt(data)) == data] for the Fernet object. *)
Lemma decrypt_encrypt self data now iv :
  length (_encryption_key self) = 16%nat ->
  length iv = 16%nat ->
  0 <= now < 2 ^ 64 ->
  exists token,
    encrypt self now iv data = Return token /\ decrypt self token = Return data.
Proof.
  intros Hkey Hiv Hnow.
  destruct (encrypt_succeeds self data now iv Hkey Hiv Hnow)
    as (key & iv_block & ps & ts & Ekey & Eiv & Eps & Hps & Hts & Henc).
  eexists. split; [exact Henc|].
  apply (decrypt_token self key iv_block ts iv); try done.
  rewrite cbc_decrypt_cbc_encrypt, Hps. apply pkcs7_unpad_pkcs7_pad.
Qed.

End fernet_facts.

(** ** UTF-8: decoding inverts encoding *)

Module utf8_facts.

Import utf8 notions Bytes_facts.
Local Open Scope N_scope.

Lemma cont_of_N x : x < 64 -> cont (Bytes.of_N (128 + x)) = Some x.
Proof.
  intros H. unfold cont. rewrite to_of_N by lia.
  destruct (N.leb_spec 128 (128 + x)); [|lia].
  destruct (N.ltb_spec (128 + x) 192); [|lia].
  cbn [andb]. f_equal. lia.
Qed.

Lemma encode_cp_encodable c : encodable c -> exists bs, encode_cp c = Some bs.
Proof.
  intros [Hc Hs]. unfold encode_cp. rewrite Hs.
  destruct (c <? 128); [by eexists|]. destruct (c <? 2048); [by eexists|].
  destruct (c <? 65536); [by eexists|].
  destruct (N.ltb_spec c 1114112); [by eexists|lia].
Qed.

Lemma encode_cp_nonempty c bs : encode_cp c = Some bs -> bs <> [].
Proof.
  unfold encode_cp.
  repeat match goal with |- context [if ?b then _ else _] => destruct b end;
    intros [= <-]; discriminate.
Qed.

(** The decoder reads back one encoded code point. *)
Lemma decode_cp_encode_cp c bs rest :
  encode_cp c = Some bs -> decode_cp (bs ++ rest) = Some (c, length bs).
Proof.
  unfold encode_cp.
  destruct (N.ltb_spec c 128) as [H1|H1].
  { intros [= <-]. cbn [app decode_cp]. rewrite to_of_N by lia_div.
    destruct (N.ltb_spec c 128); [reflexivity|lia_div]. }
  destruct (N.ltb_spec c 2048) as [H2|H2].
  { intros [= <-]. cbn [app decode_cp length].
    assert (c / 64 < 32) by lia_div.
    rewrite to_of_N by lia_div.
    destruct (N.ltb_spec (192 + c / 64) 128); [lia_div|].
    destruct (N.ltb_spec (192 + c / 64) 192); [lia_div|].
    destruct (N.ltb_spec (192 + c / 64) 224); [|lia_div].
    rewrite cont_of_N by lia_div.
    replace ((192 + c / 64 - 192) * 64 + c mod 64) with c by lia_div.
    destruct (N.ltb_spec c 128); [lia_div|reflexivity]. }
  destruct (N.ltb_spec c 65536) as [H3|H3].
  { destruct (is_surrogate c) eqn:Hs; [discriminate|].
    intros [= <-]. cbn [app decode_cp length].
    assert (c / 4096 < 16) by lia_div.
    rewrite to_of_N by lia_div.
    destruct (N.ltb_spec (224 + c / 4096) 128); [lia_div|].
    destruct (N.ltb_spec (224 + c / 4096) 192); [lia_div|].
    destruct (N.ltb_spec (224 + c / 4096) 224); [lia_div|].
    destruct (N.ltb_spec (224 + c / 4096) 240); [|lia_div].
    rewrite !cont_of_N by lia_div.
    replace ((224 + c / 4096 - 224) * 4096 + c / 64 mod 64 * 64 + c mod 64)
      with c by lia_div.
    rewrite Hs. destruct (N.ltb_spec c 2048); [lia_div|reflexivity]. }
  destruct (N.ltb_spec c 1114112) as [H4|H4]; [|discriminate].
  intros [= <-]. cbn [app decode_cp length].
  assert (c / 262144 < 5) by lia_div.
  rewrite to_of_N by lia_div.
  destruct (N.ltb_spec (240 + c / 262144) 128); [lia_div|].
  destruct (N.ltb_spec (240 + c / 262144) 192); [lia_div|].
  destruct (N.ltb_spec (240 + c / 262144) 224); [lia_div|].
  destruct (N.ltb_spec (240 + c / 262144) 240); [lia_div|].
  destruct (N.ltb_spec (240 + c / 262144) 248); [|lia_div].
  rewrite !cont_of_N by lia_div.
  replace ((240 + c / 262144 - 240) * 262144 + c / 4096 mod 64 * 4096
           + c / 64 mod 64 * 64 + c mod 64) with c by lia_div.
  destruct (N.ltb_spec c 65536); [lia_div|].
  destruct (N.leb_spec 1114112 c); [lia_div|reflexivity].
Qed.

Lemma decode_fuel_encode s : forall b fuel,
  encode s = Return b -> (length b <= fuel)%nat -> decode_fuel fuel b = Return s.
Proof.
  induction s as [|c r IH]; intros b fuel Henc Hfuel.
  - injection Henc as <-. by destruct fuel.
  - cbn [encode] in Henc.
    destruct (encode_cp c) as [bs|] eqn:Ec; [|discriminate].
    destruct (encode r) as [rest|] eqn:Er; [|discriminate].
    injection Henc as <-.
    pose proof (encode_cp_nonempty c bs Ec) as Hne.
    rewrite length_app in Hfuel.
    destruct fuel as [|f]; [destruct bs; [done|simpl in Hfuel; lia]|].
    cbn [decode_fuel].
    rewrite (decode_cp_encode_cp c bs rest Ec), drop_app_length.
    rewrite (IH rest f eq_refl) by (destruct bs; [done|simpl in Hfuel; lia]).
    destruct bs; [done|reflexivity].
Qed.

(** [s.encode('utf-8').decode('utf-8') == s] *)
Lemma decode_encode s b : encode s = Return b -> decode b = Return s.
Proof. intros H. unfold decode. by apply decode_fuel_encode. Qed.

(** Text without surrogates has an encoding. *)
Lemma encode_encodable s : Forall encodable s -> exists b, encode s = Return b.
Proof.
  induction 1 as [|c r Hc _ [b IH]]; [by eexists|].
  destruct (encode_cp_encodable c Hc) as [bs Hbs].
  cbn [encode]. rewrite Hbs, IH. by eexists.
Qed.

End utf8_facts.

(** ** The cipher of encryption.py *)

Module encryption_properties.

Import encryption notions.
Import Bytes_facts base64_facts fernet_facts.

(** The model reproduces the generation vector of the Fernet
    specification, token for token. *)
Example fernet_specification_vector :
  encryption.__init__ ∅ fixtures.urandom32 None = Return fixtures.cipher
  /\ encrypt fixtures.cipher fixtures.now fixtures.iv (PBytes (Bytes.ascii "hello"))
     = Return fixtures.spec_token
  /\ decrypt fixtures.cipher (PBytes fixtures.spec_token)
     = Return (Bytes.ascii "hello").
Proof. vm_compute. repeat split; reflexivity. Qed.

(** A constructed cipher holds two sixteen-byte keys. *)
Lemma cipher_key_lengths env urandom32 password self :
  encryption.__init__ env urandom32 password = Return self ->
  length (fernet._signing_key (fernet self)) = 16%nat
  /\ length (fernet._encryption_key (fernet self)) = 16%nat.
Proof.
  unfold encryption.__init__.
  destruct (if truthy_opt password then _ else _) as [k|e]; [|discriminate].
  destruct (fernet.__init__ k) as [f|e] eqn:Hf; [|discriminate].
  intros [= <-]. cbn [fernet]. by apply (fernet_facts.init_key_lengths k).
Qed.

Lemma encrypt_bytes self now iv b :
  encrypt self now iv (PBytes b)
  = match fernet.encrypt (fernet self) now iv b with
    | Return c => Return c
    | Raise e => Raise (failed "Encryption" e)
    end.
Proof. reflexivity. Qed.

Lemma decrypt_bytes self c :
  decrypt self (PBytes c)
  = match fernet.decrypt (fernet self) c with
    | Return p => Return p
    | Raise e => Raise (failed "Decryption" e)
    end.
Proof. reflexivity. Qed.

(** Decryption undoes encryption, for a constructed cipher. *)
Lemma cipher_round_trip env urandom32 password self now iv p :
  encryption.__init__ env urandom32 password = Return self ->
  0 <= now < 2 ^ 64 ->
  length iv = 16%nat ->
  exists c, encrypt self now iv (PBytes p) = Return c
            /\ decrypt self (PBytes c) = Return p.
Proof.
  intros Hinit Hnow Hiv.
  destruct (cipher_key_lengths _ _ _ _ Hinit) as [_ Hkey].
  destruct (fernet_facts.decrypt_encrypt (fernet self) p now iv Hkey Hiv Hnow)
    as (c & Henc & Hdec).
  exists c. by rewrite encrypt_bytes, decrypt_bytes, Henc, Hdec.
Qed.

(** C2: under a constructed cipher, with the clock within its eight
    bytes and sixteen random bytes for the initialisation vector,
    encrypting any byte sequence succeeds and decrypting the result
    with the same cipher returns exactly that sequence, the empty one
    and those that are no valid text included. *)
Theorem decrypt_encrypt_round_trip
    (env : environ) (urandom32 : bytes) (password : option str)
    (self : AESCipher) (now : Z) (iv p : bytes) :
  encryption.__init__ env urandom32 password = Return self ->
  0 <= now < 2 ^ 64 ->
  length iv = 16%nat ->
  exists c, encrypt self now iv (PBytes p) = Return c
            /\ decrypt self (PBytes c) = Return p.
Proof.
  intros Hinit Hnow Hiv.
  destruct (cipher_key_lengths _ _ _ _ Hinit) as [_ Hkey].
  destruct (fernet_facts.decrypt_encrypt (fernet self) p now iv Hkey Hiv Hnow)
    as (c & Henc & Hdec).
  exists c. rewrite encrypt_bytes, decrypt_bytes, Henc, Hdec. by split.
Qed.

Lemma decrypt_encrypt_round_trip_witness :
  exists c,
    encrypt fixtures.cipher fixtures.now fixtures.iv (PBytes [xff; x00; xfe]) = Return c
    /\ decrypt fixtures.cipher (PBytes c) = Return [xff; x00; xfe].
Proof.
  apply (decrypt_encrypt_round_trip ∅ fixtures.urandom32 None fixtures.cipher
           fixtures.now fixtures.iv [xff; x00; xfe]).
  - vm_compute. reflexivity.
  - vm_compute. split; [discriminate|reflexivity].
  - reflexivity.
Defined.

(** C10: a string is encrypted as its UTF-8 bytes are, and decrypting
    the result returns those bytes (a [bytes] value); a token handed
    to decrypt as a string is likewise encoded first. *)
Theorem strings_are_encoded_first
    (env : environ) (urandom32 : bytes) (password : option str)
    (self : AESCipher) (now : Z) (iv : bytes) (s : str) (b : bytes) :
  encryption.__init__ env urandom32 password = Return self ->
  0 <= now < 2 ^ 64 ->
  length iv = 16%nat ->
  utf8.encode s = Return b ->
  encrypt self now iv (PStr s) = encrypt self now iv (PBytes b)
  /\ decrypt self (PStr s) = decrypt self (PBytes b)
  /\ exists c, encrypt self now iv (PStr s) = Return c
               /\ decrypt self (PBytes c) = Return b.
Proof.
  intros Hinit Hnow Hiv Henc.
  assert (E : encrypt self now iv (PStr s) = encrypt self now iv (PBytes b))
    by (unfold encrypt; by rewrite Henc).
  split; [exact E|]. split; [unfold decrypt; by rewrite Henc|].
  rewrite E. by apply (cipher_round_trip env urandom32 password).
Qed.

Lemma strings_are_encoded_first_witness :
  encrypt fixtures.cipher fixtures.now fixtures.iv (PStr [104; 233; 8364]%N)
  = encrypt fixtures.cipher fixtures.now fixtures.iv
      (PBytes [x68; xc3; xa9; xe2; x82; xac])
  /\ decrypt fixtures.cipher (PStr [104; 233; 8364]%N)
     = decrypt fixtures.cipher (PBytes [x68; xc3; xa9; xe2; x82; xac])
  /\ exists c,
       encrypt fixtures.cipher fixtures.now fixtures.iv (PStr [104; 233; 8364]%N)
       = Return c
       /\ decrypt fixtures.cipher (PBytes c) = Return [x68; xc3; xa9; xe2; x82; xac].
Proof.
  apply (strings_are_encoded_first ∅ fixtures.urandom32 None fixtures.cipher
           fixtures.now fixtures.iv).
  - vm_compute. reflexivity.
  - vm_compute. split; [discriminate|reflexivity].
  - reflexivity.
  - vm_compute. reflexivity.
Defined.

(** C9 as stated fails: [!!!!] is no base64, yet the decoder skips the
    four characters and returns the empty key, no exception is caught
    and [Fernet] refuses the key: construction fails. *)
Lemma invalid_key_can_fail_construction :
  valid_base64 (Bytes.ascii "!!!!") = false
  /\ base64.urlsafe_b64decode (Bytes.ascii "!!!!") = Return []
  /\ encryption.__init__ (<[lit "ENCRYPTION_KEY" := lit "!!!!"]> ∅)
       fixtures.urandom32 None
     = Raise fernet.key_error.
Proof. vm_compute. repeat split; reflexivity. Qed.

(** C9, as the code has it: when the configured key is present and
    decoding it raises (its text cannot be encoded, or the decoder
    rejects it), construction succeeds without any report and the
    cipher runs on the freshly generated key, whatever was configured. *)
Theorem undecodable_key_falls_back_to_random
    (env : environ) (urandom32 : bytes) (key_b64 : str) :
  getenv env "ENCRYPTION_KEY" = Some key_b64 ->
  key_b64 <> [] ->
  length urandom32 = 32%nat ->
  (forall b, utf8.encode key_b64 = Return b ->
             exists e, base64.urlsafe_b64decode b = Raise e) ->
  encryption.__init__ env urandom32 None
  = Return {| key := fernet.generate_key urandom32;
              fernet := {| fernet._signing_key := take 16 urandom32;
                           fernet._encryption_key := drop 16 urandom32 |} |}.
Proof.
  intros Henv Hne Hlen Hraises.
  unfold encryption.__init__. cbn [truthy_opt]. rewrite Henv. cbn [truthy_opt default].
  rewrite bool_decide_eq_false_2 by done. cbn [negb].
  assert (E : key_from_environment key_b64 urandom32 = fernet.generate_key urandom32).
  { unfold key_from_environment, _generate_key.
    destruct (utf8.encode key_b64) as [b|e]; [|reflexivity].
    destruct (Hraises b eq_refl) as [e He]. by rewrite He. }
  unfold id. rewrite E, init_generate_key by done. reflexivity.
Qed.

Lemma undecodable_key_falls_back_to_random_witness :
  encryption.__init__ (<[lit "ENCRYPTION_KEY" := lit "not base64"]> ∅)
    fixtures.urandom32 None
  = Return {| key := fernet.generate_key fixtures.urandom32;
              fernet := {| fernet._signing_key := take 16 fixtures.urandom32;
                           fernet._encryption_key := drop 16 fixtures.urandom32 |} |}.
Proof.
  apply (undecodable_key_falls_back_to_random
           (<[lit "ENCRYPTION_KEY" := lit "not base64"]> ∅)
           fixtures.urandom32 (lit "not base64")).
  - reflexivity.
  - discriminate.
  - reflexivity.
  - intros b Hb. vm_compute in Hb. injection Hb as <-.
    eexists. vm_compute. reflexivity.
Defined.









End encryption_properties.

(** ** repr and eval: reading a printed value back *)

Module builtins_facts.

Import builtins notions utf8_facts literals.
Local Open Scope N_scope.

(** *** Decimal literals *)

Lemma is_digit_decimal d : d < 10 -> is_digit (48 + d) = true.
Proof.
  intros H. unfold is_digit.
  destruct (N.leb_spec 48 (48 + d)); [|lia].
  destruct (N.leb_spec (48 + d) 57); [reflexivity|lia].
Qed.

Lemma decimal_fuel_S f n acc :
  decimal_fuel (S f) n acc
  = if n <? 10 then (48 + n mod 10) :: acc
    else decimal_fuel f (n / 10) ((48 + n mod 10) :: acc).
Proof. reflexivity. Qed.

(** The digits [decimal_fuel] puts before [acc], read back. *)
Lemma decimal_fuel_spec f : forall n acc,
  n < 10 ^ N.of_nat (S f) ->
  exists ds,
    decimal_fuel (S f) n acc = ds ++ acc
    /\ (exists d r, ds = (48 + d) :: r /\ d < 10 /\ (d = 0 <-> n = 0))
    /\ Forall (fun c => c < 128) ds
    /\ forall a rest, span_digits (ds ++ rest) a
                      = span_digits rest (a * 10 ^ N.of_nat (length ds) + n).
Proof.
  induction f as [|f IH]; intros n acc Hn; rewrite decimal_fuel_S;
    destruct (N.ltb_spec n 10) as [Hlt|Hge].
  1, 3:
    exists [48 + n mod 10]; rewrite N.mod_small by done;
    (split; [reflexivity|]); (split; [exists n, []; repeat split; lia|]);
    (split; [repeat constructor; lia|]);
    intros a rest; cbn [app span_digits length];
    rewrite is_digit_decimal by done; f_equal; simpl; lia.
  - change (10 ^ N.of_nat 1) with 10 in Hn. lia.
  - assert (Hq : n / 10 < 10 ^ N.of_nat (S f)).
    { apply N.Div0.div_lt_upper_bound.
      replace (N.of_nat (S (S f))) with (N.succ (N.of_nat (S f))) in Hn by lia.
      by rewrite N.pow_succ_r' in Hn. }
    destruct (IH (n / 10) ((48 + n mod 10) :: acc) Hq)
      as (ds & Hds & (d & r & Hhead & Hd & Hzero) & Hascii & Hspan).
    exists (ds ++ [48 + n mod 10]).
    split; [by rewrite Hds, <- app_assoc|].
    assert (Hm : n mod 10 < 10) by (apply N.mod_lt; lia).
    assert (Hq1 : n / 10 <> 0).
    { intros E. pose proof (N.div_mod n 10 ltac:(lia)). lia. }
    split.
    { exists d, (r ++ [48 + n mod 10]). rewrite Hhead.
      split; [reflexivity|]. split; [done|]. split; [tauto|lia]. }
    split; [apply Forall_app; split; [done|repeat constructor; lia]|].
    intros a rest. rewrite <- app_assoc, Hspan. cbn [app span_digits].
    rewrite is_digit_decimal by done. f_equal.
    rewrite length_app. cbn [length].
    replace (N.of_nat (length ds + 1)) with (N.succ (N.of_nat (length ds))) by lia.
    rewrite N.pow_succ_r'.
    replace (48 + n mod 10 - 48) with (n mod 10) by lia_div.
    rewrite (N.div_mod n 10) at 3 by lia.
    ring.
Qed.

Lemma decimal_spec n :
  exists ds,
    decimal n = ds
    /\ (exists d r, ds = (48 + d) :: r /\ d < 10 /\ (d = 0 <-> n = 0))
    /\ Forall (fun c => c < 128) ds
    /\ forall rest, span_digits (ds ++ rest) 0 = span_digits rest n.
Proof.
  unfold decimal.
  assert (Hn : n < 10 ^ N.of_nat (S (N.to_nat (N.log2 n)))).
  { destruct (N.eq_dec n 0) as [->|Hne]; [reflexivity|].
    pose proof (N.log2_spec n ltac:(lia)) as [_ Hlog].
    eapply N.lt_le_trans; [exact Hlog|].
    replace (N.of_nat (S (N.to_nat (N.log2 n)))) with (N.succ (N.log2 n)) by lia.
    apply N.pow_le_mono_l. lia. }
  destruct (decimal_fuel_spec _ n [] Hn) as (ds & Hds & Hhead & Hascii & Hspan).
  exists ds. rewrite app_nil_r in Hds. split; [done|]. split; [done|].
  split; [done|]. intros rest. rewrite Hspan. reflexivity.
Qed.

Lemma span_digits_stop rest n :
  ends_number rest = true -> span_digits rest n = (n, rest).
Proof.
  destruct rest as [|c r]; [reflexivity|]. cbn [ends_number span_digits].
  unfold is_name_char. destruct (is_digit c); [|reflexivity].
  rewrite orb_true_r. discriminate.
Qed.

(** A printed natural number is read back as a literal. *)
Lemma parse_number_decimal n rest :
  ends_number rest = true ->
  parse_number (decimal n ++ rest) = Some (n, rest).
Proof.
  intros Hrest.
  destruct (N.eq_dec n 0) as [->|Hne].
  - change (decimal 0) with [48]. cbn [app parse_number N.eqb Pos.eqb].
    by rewrite Hrest.
  - destruct (decimal_spec n) as (ds & -> & (d & r & -> & Hd & Hzero) & _ & Hspan).
    cbn [app parse_number].
    destruct (N.eqb_spec (48 + d) 48) as [E|E]; [lia|].
    rewrite is_digit_decimal by done.
    specialize (Hspan rest). cbn [app] in Hspan. rewrite Hspan.
    rewrite span_digits_stop by done. by rewrite Hrest.
Qed.

(** *** String literals *)

Lemma hex_val_hex_digit d : d < 16 -> hex_val (Bytes.hex_digit d) = Some d.
Proof.
  intros H.
  assert (G : bool_decide (hex_val (Bytes.hex_digit d) = Some d) = true).
  { revert d H. apply (Bytes_facts.forall_below 16). vm_compute. reflexivity. }
  exact (bool_decide_eq_true_1 _ G).
Qed.

Lemma hex_value_hex_digits k : forall c acc,
  hex_value (hex_digits k c) acc
  = Some (acc * 16 ^ N.of_nat k + c mod 16 ^ N.of_nat k).
Proof.
  induction k as [|k IH]; intros c acc.
  - cbn [hex_digits hex_value]. f_equal. change (16 ^ N.of_nat 0) with 1.
    rewrite N.mod_1_r. lia.
  - cbn [hex_digits hex_value].
    rewrite hex_val_hex_digit by (apply N.mod_lt; lia).
    rewrite IH. f_equal.
    replace (N.of_nat (S k)) with (N.succ (N.of_nat k)) by lia.
    rewrite N.pow_succ_r'.
    rewrite (N.mul_comm 16 (16 ^ N.of_nat k)).
    rewrite (N.Div0.mod_mul_r c (16 ^ N.of_nat k) 16).
    ring.
Qed.

Lemma hex_value_hex_digits_small k c :
  c < 16 ^ N.of_nat k -> hex_value (hex_digits k c) 0 = Some c.
Proof.
  intros H. rewrite hex_value_hex_digits, N.mod_small by done. f_equal.
Qed.

(** The escapes, one equation each. *)
Lemma string_body_close q rest : parse_string_body q (q :: rest) = Some ([], rest).
Proof. cbn [parse_string_body]. by rewrite N.eqb_refl. Qed.

Lemma string_body_escape q e r1 :
  (92 =? q) = false -> (e =? 92) || (e =? 39) || (e =? 34) = true ->
  parse_string_body q (92 :: e :: r1) = cons_char e (parse_string_body q r1).
Proof.
  intros Hq He. cbn [parse_string_body]. rewrite Hq.
  change (92 =? 92) with true. cbv iota. by rewrite He.
Qed.

Lemma string_body_n q r1 :
  (92 =? q) = false ->
  parse_string_body q (92 :: 110 :: r1) = cons_char 10 (parse_string_body q r1).
Proof. intros Hq. cbn [parse_string_body]. by rewrite Hq. Qed.

Lemma string_body_r q r1 :
  (92 =? q) = false ->
  parse_string_body q (92 :: 114 :: r1) = cons_char 13 (parse_string_body q r1).
Proof. intros Hq. cbn [parse_string_body]. by rewrite Hq. Qed.

Lemma string_body_t q r1 :
  (92 =? q) = false ->
  parse_string_body q (92 :: 116 :: r1) = cons_char 9 (parse_string_body q r1).
Proof. intros Hq. cbn [parse_string_body]. by rewrite Hq. Qed.

Lemma string_body_x q c tail :
  (92 =? q) = false -> c < 256 ->
  parse_string_body q (92 :: 120 :: hex_digits 2 c ++ tail)
  = cons_char c (parse_string_body q tail).
Proof.
  intros Hq Hc.
  pose proof (hex_value_hex_digits_small 2 c Hc) as Hv.
  cbn [hex_digits app] in *. cbn [parse_string_body]. rewrite Hq.
  change (92 =? 92) with true. cbv iota.
  change (120 =? 92) with false. change (120 =? 39) with false.
  change (120 =? 34) with false. change (120 =? 110) with false.
  change (120 =? 114) with false. change (120 =? 116) with false.
  change (120 =? 120) with true. cbv iota. cbn [orb].
  by rewrite Hv.
Qed.

Lemma string_body_u q c tail :
  (92 =? q) = false -> c < 65536 ->
  parse_string_body q (92 :: 117 :: hex_digits 4 c ++ tail)
  = cons_char c (parse_string_body q tail).
Proof.
  intros Hq Hc.
  pose proof (hex_value_hex_digits_small 4 c Hc) as Hv.
  cbn [hex_digits app] in *. cbn [parse_string_body]. rewrite Hq.
  change (92 =? 92) with true. cbv iota.
  change (117 =? 92) with false. change (117 =? 39) with false.
  change (117 =? 34) with false. change (117 =? 110) with false.
  change (117 =? 114) with false. change (117 =? 116) with false.
  change (117 =? 120) with false. change (117 =? 117) with true.
  cbv iota. cbn [orb].
  by rewrite Hv.
Qed.

Lemma string_body_U q c tail :
  (92 =? q) = false -> c < 1114112 ->
  parse_string_body q (92 :: 85 :: hex_digits 8 c ++ tail)
  = cons_char c (parse_string_body q tail).
Proof.
  intros Hq Hc.
  assert (Hc' : c < 16 ^ N.of_nat 8) by (change (16 ^ N.of_nat 8) with 4294967296; lia).
  pose proof (hex_value_hex_digits_small 8 c Hc') as Hv.
  cbn [hex_digits app] in *. cbn [parse_string_body]. rewrite Hq.
  change (92 =? 92) with true. cbv iota.
  change (85 =? 92) with false. change (85 =? 39) with false.
  change (85 =? 34) with false. change (85 =? 110) with false.
  change (85 =? 114) with false. change (85 =? 116) with false.
  change (85 =? 120) with false. change (85 =? 117) with false.
  change (85 =? 85) with true. cbv iota. cbn [orb].
  rewrite Hv. destruct (N.ltb_spec c 1114112); [reflexivity|lia].
Qed.

Lemma string_body_raw q c tail :
  raw_ok q c = true ->
  parse_string_body q (c :: tail) = cons_char c (parse_string_body q tail).
Proof.
  intros H. cbn [parse_string_body]. rewrite H.
  unfold raw_ok in H. apply andb_true_iff in H as [H _].
  apply andb_true_iff in H as [H1 H2].
  apply negb_true_iff in H1, H2. by rewrite H1, H2.
Qed.

Section Strings.

Variable isprintable : N -> bool.
Hypothesis printable : printable_table isprintable.

(** One printed character is read back as the character. *)
Lemma parse_repr_char q c tail :
  is_quote q -> c < 1114112 ->
  parse_string_body q (repr_char isprintable q c ++ tail)
  = cons_char c (parse_string_body q tail).
Proof.
  intros Hq Hc.
  assert (Hq92 : (92 =? q) = false) by (apply N.eqb_neq; destruct Hq; lia).
  unfold repr_char.
  destruct ((c =? q) || (c =? 92)) eqn:E1.
  { cbn [app]. apply string_body_escape; [done|].
    apply orb_true_iff in E1 as [E|E]; apply N.eqb_eq in E; subst c.
    - destruct Hq as [-> | ->]; reflexivity.
    - reflexivity. }
  apply orb_false_iff in E1 as [Ecq Ec92].
  destruct (N.eqb_spec c 9) as [->|H9]; [by apply string_body_t|].
  destruct (N.eqb_spec c 10) as [->|H10]; [by apply string_body_n|].
  destruct (N.eqb_spec c 13) as [->|H13]; [by apply string_body_r|].
  destruct ((c <? 32) || (c =? 127)) eqn:E2.
  { apply string_body_x; [done|].
    apply orb_true_iff in E2 as [E|E];
      [apply N.ltb_lt in E|apply N.eqb_eq in E]; lia. }
  apply orb_false_iff in E2 as [E32 E127].
  apply N.ltb_ge in E32. apply N.eqb_neq in E127.
  destruct (N.ltb_spec c 127) as [Hlt|Hge].
  { cbn [app]. apply string_body_raw. unfold raw_ok.
    rewrite Ecq, Ec92. cbn [negb andb].
    destruct (N.leb_spec 32 c); [|lia]. destruct (N.leb_spec c 126); [|lia].
    reflexivity. }
  assert (Hraw : isprintable c = true -> raw_ok q c = true).
  { intros Hp. unfold raw_ok. rewrite Ecq, Ec92, (printable c Hp).
    cbn [negb andb].
    destruct (N.leb_spec 128 c); [|lia]. destruct (N.ltb_spec c 1114112); [|lia].
    cbn [andb]. apply orb_true_r. }
  destruct (isprintable c) eqn:Ep.
  { cbn [app]. by apply string_body_raw, Hraw. }
  destruct (N.leb_spec c 255); [apply string_body_x; [done|lia]|].
  destruct (N.leb_spec c 65535); [apply string_body_u; [done|lia]|].
  by apply string_body_U.
Qed.

(** A printed character does not begin with the quote in use. *)
Lemma repr_char_head q c :
  is_quote q -> exists x r, repr_char isprintable q c = x :: r /\ x <> q.
Proof.
  intros Hq.
  assert (92 <> q) by (destruct Hq; lia).
  unfold repr_char.
  destruct ((c =? q) || (c =? 92)) eqn:E1; [by eexists _, _|].
  apply orb_false_iff in E1 as [Ecq _]. apply N.eqb_neq in Ecq.
  repeat match goal with
         | |- context [if ?b then _ else _] => destruct b
         end; by eexists _, _.
Qed.

Lemma parse_repr_chars q s rest :
  is_quote q -> valid_str s ->
  parse_string_body q (flat_map (repr_char isprintable q) s ++ q :: rest)
  = Some (s, rest).
Proof.
  intros Hq. induction 1 as [|c r Hc _ IH]; cbn [flat_map app].
  - apply string_body_close.
  - rewrite <- app_assoc, parse_repr_char by done.
    by rewrite IH.
Qed.

Lemma repr_quote_is_quote s : is_quote (repr_quote s).
Proof. unfold repr_quote. destruct (_ && _); [by right|by left]. Qed.

(** [repr] of a string is a literal of that string. *)
Lemma parse_string_repr_str s rest :
  valid_str s -> no_quote rest ->
  parse_string (repr_str isprintable s ++ rest) = Some (s, rest).
Proof.
  intros Hs Hrest. unfold repr_str.
  pose proof (repr_quote_is_quote s) as Hq.
  set (q := repr_quote s) in *.
  pose proof (parse_repr_chars q s rest Hq Hs) as Hbody.
  cbn [app parse_string].
  replace ((q =? 39) || (q =? 34)) with true
    by (destruct Hq as [-> | ->]; reflexivity).
  rewrite <- app_assoc. cbn [app].
  destruct s as [|c s'].
  - cbn [flat_map app] in *.
    destruct rest as [|c' rest']; [exact Hbody|].
    rewrite N.eqb_refl. cbn [andb].
    replace (c' =? q) with false; [exact Hbody|].
    symmetry. apply N.eqb_neq. destruct Hrest, Hq; lia.
  - cbn [flat_map] in *.
    destruct (repr_char_head q c Hq) as (x & r & Hx & Hne).
    rewrite Hx in *. rewrite <- app_assoc in *. cbn [app] in *.
    destruct (r ++ flat_map (repr_char isprintable q) s' ++ q :: rest)
      as [|y t] eqn:Heq.
    + exact Hbody.
    + replace (x =? q) with false by (symmetry; by apply N.eqb_neq).
      exact Hbody.
Qed.

End Strings.

(** *** Displays *)

Lemma value_ind_nested (P : value -> Prop)
    (HNone : P PNone) (HBool : forall b, P (PBool b))
    (HInt : forall z, P (PInt z)) (HStr : forall s, P (PStr s))
    (HBytes : forall b, P (PBytes b))
    (HList : forall l, Forall P l -> P (PList l))
    (HDict : forall d, Forall (fun kv => P (snd kv)) d -> P (PDict d))
    (HModule : forall n, P (PModule n)) (HBuiltin : forall n, P (PBuiltin n)) :
  forall v, P v.
Proof.
  fix IH 1. intros [ | b | z | s | b | l | d | n | n ].
  - exact HNone.
  - apply HBool.
  - apply HInt.
  - apply HStr.
  - apply HBytes.
  - apply HList. induction l as [|x r IHl]; constructor; [apply IH|exact IHl].
  - apply HDict. induction d as [|[k x] r IHd]; constructor; [apply IH|exact IHd].
  - apply HModule.
  - apply HBuiltin.
Qed.

Lemma in_schema_list l : in_schema (PList l) <-> all_in_schema l.
Proof. reflexivity. Qed.

Lemma in_schema_dict d :
  in_schema (PDict d) <-> NoDup (map fst d) /\ pairs_in_schema d.
Proof. reflexivity. Qed.

Lemma cost_list l : cost (PList l) = S (items_cost l).
Proof. reflexivity. Qed.

Lemma cost_dict d : cost (PDict d) = S (pairs_cost d).
Proof. reflexivity. Qed.

Lemma follows_ends_number rest : follows rest -> ends_number rest = true.
Proof. destruct rest as [|c r]; [done|]. intros [->|[->| ->]]; reflexivity. Qed.

Lemma follows_no_quote rest : follows rest -> no_quote rest.
Proof. destruct rest as [|c r]; [done|]. intros [->|[->| ->]]; split; lia. Qed.

Lemma parse_expr_space f s : parse_expr f (32 :: s) = parse_expr f s.
Proof. by destruct f. Qed.

Lemma parse_items_space f close s :
  parse_items f close (32 :: s) = parse_items f close s.
Proof. destruct f as [|f]; [done|]. cbn [parse_items]. by rewrite parse_expr_space. Qed.

Lemma parse_pairs_space f s : parse_pairs f (32 :: s) = parse_pairs f s.
Proof. by destruct f. Qed.

Lemma below_10 d : d < 10 ->
  d = 0 \/ d = 1 \/ d = 2 \/ d = 3 \/ d = 4 \/ d = 5 \/ d = 6 \/ d = 7
  \/ d = 8 \/ d = 9.
Proof. lia. Qed.

Lemma parse_expr_digit f d r : d < 10 ->
  parse_expr (S f) ((48 + d) :: r)
  = match parse_number ((48 + d) :: r) with
    | Some (n, r') => Some (EInt n, r')
    | None => None
    end.
Proof.
  intros H. apply below_10 in H.
  repeat (destruct H as [->|H]; [reflexivity|]). by subst.
Qed.

Lemma parse_expr_quote f q r : is_quote q ->
  parse_expr (S f) (q :: r)
  = match parse_string (q :: r) with
    | Some (s, r') => Some (EStr s, r')
    | None => None
    end.
Proof. intros [-> | ->]; reflexivity. Qed.

Lemma parse_expr_constant f rest :
  follows rest ->
  parse_expr (S f) (lit "None" ++ rest) = Some (ENone, rest)
  /\ parse_expr (S f) (lit "True" ++ rest) = Some (EBool true, rest)
  /\ parse_expr (S f) (lit "False" ++ rest) = Some (EBool false, rest).
Proof.
  destruct rest as [|c r]; [done|].
  intros [->|[->| ->]]; repeat split; reflexivity.
Qed.

Lemma skip_ws_head c t : c <> 32 -> skip_ws (c :: t) = c :: t.
Proof. intros H. cbn [skip_ws]. by destruct (N.eqb_spec c 32). Qed.

Lemma parse_expr_list_empty f rest :
  parse_expr (S f) (91 :: 93 :: rest) = Some (EList [], rest).
Proof. reflexivity. Qed.

Lemma parse_expr_list f c t :
  c <> 32 -> c <> 93 ->
  parse_expr (S f) (91 :: c :: t)
  = match parse_items f 93 (c :: t) with
    | Some (es, r) => Some (EList es, r)
    | None => None
    end.
Proof.
  intros H32 H93. cbn [parse_expr]. rewrite (skip_ws_head 91) by lia.
  change (91 =? 91) with true. cbv iota.
  rewrite skip_ws_head by done.
  by destruct (N.eqb_spec c 93).
Qed.

Lemma parse_expr_dict_empty f rest :
  parse_expr (S f) (123 :: 125 :: rest) = Some (EDict [], rest).
Proof. reflexivity. Qed.

Lemma parse_expr_dict f c t :
  c <> 32 -> c <> 125 ->
  parse_expr (S f) (123 :: c :: t)
  = match parse_pairs f (c :: t) with
    | Some (kvs, r) => Some (EDict kvs, r)
    | None => None
    end.
Proof.
  intros H32 H125. cbn [parse_expr]. rewrite (skip_ws_head 123) by lia.
  change (123 =? 91) with false. change (123 =? 123) with true. cbv iota.
  rewrite skip_ws_head by done.
  by destruct (N.eqb_spec c 125).
Qed.

Lemma parse_expr_minus f r :
  parse_expr (S f) (45 :: r)
  = match parse_expr f r with
    | Some (e, r') => Some (ENeg e, r')
    | None => None
    end.
Proof. reflexivity. Qed.

Lemma parse_items_one f close e r r' :
  parse_expr f r = Some (e, close :: r') -> close <> 32 -> close <> 44 ->
  parse_items (S f) close r = Some ([e], r').
Proof.
  intros H H32 H44. cbn [parse_items]. rewrite H, skip_ws_head by done.
  destruct (N.eqb_spec close 44); [done|]. by rewrite N.eqb_refl.
Qed.

Lemma parse_items_more f close e r r' es r'' :
  parse_expr f r = Some (e, 44 :: r') ->
  parse_items f close r' = Some (es, r'') ->
  parse_items (S f) close r = Some (e :: es, r'').
Proof.
  intros H H'. cbn [parse_items]. rewrite H, skip_ws_head by lia.
  change (44 =? 44) with true. cbv iota. by rewrite H'.
Qed.

Lemma parse_pairs_one f k e r r0 r' :
  parse_string r = Some (k, 58 :: r0) ->
  (forall c t, r = c :: t -> c <> 32) ->
  parse_expr f r0 = Some (e, 125 :: r') ->
  parse_pairs (S f) r = Some ([(k, e)], r').
Proof.
  intros Hk Hr He. cbn [parse_pairs].
  replace (skip_ws r) with r
    by (destruct r as [|c t]; [done|]; symmetry; apply skip_ws_head; by eapply Hr).
  rewrite Hk, (skip_ws_head 58) by lia. change (58 =? 58) with true. cbv iota.
  rewrite He, (skip_ws_head 125) by lia. reflexivity.
Qed.

Lemma parse_pairs_more f k e r r0 r' kvs r'' :
  parse_string r = Some (k, 58 :: r0) ->
  (forall c t, r = c :: t -> c <> 32) ->
  parse_expr f r0 = Some (e, 44 :: r') ->
  parse_pairs f r' = Some (kvs, r'') ->
  parse_pairs (S f) r = Some ((k, e) :: kvs, r'').
Proof.
  intros Hk Hr He Hkvs. cbn [parse_pairs].
  replace (skip_ws r) with r
    by (destruct r as [|c t]; [done|]; symmetry; apply skip_ws_head; by eapply Hr).
  rewrite Hk, (skip_ws_head 58) by lia. change (58 =? 58) with true. cbv iota.
  rewrite He, (skip_ws_head 44) by lia. change (44 =? 44) with true. cbv iota.
  by rewrite Hkvs.
Qed.

Lemma join_comma_cons2 x y r :
  join_comma (x :: y :: r) = x ++ 44 :: 32 :: join_comma (y :: r).
Proof. reflexivity. Qed.

Section Displays.

Variable isprintable : N -> bool.
Hypothesis printable : printable_table isprintable.

Local Abbreviation repr := (builtins.repr isprintable).

(** A printed value begins with no space and no closing bracket. *)
Lemma repr_first v :
  in_schema v ->
  exists c t, repr v = c :: t /\ c <> 32 /\ c <> 93 /\ c <> 125.
Proof.
  destruct v as [ | b | z | s | b | l | d | n | n ]; intros Hv; try done;
    try (eexists _, _; split; [reflexivity|lia]).
  - eexists _, _. split; [reflexivity|]. vm_compute. repeat split; discriminate.
  - destruct b; eexists _, _; (split; [reflexivity|]); vm_compute;
      repeat split; discriminate.
  - cbn [builtins.repr]. unfold repr_int.
    destruct (z <? 0)%Z; [eexists _, _; split; [reflexivity|lia]|].
    destruct (decimal_spec (Z.to_N z)) as (ds & -> & (d & r & -> & Hd & _) & _).
    eexists _, _. split; [reflexivity|lia].
  - cbn [builtins.repr]. unfold repr_str.
    eexists _, _. split; [reflexivity|].
    destruct (repr_quote_is_quote s); lia.
Qed.

Local Abbreviation reads_back := (literals.reads_back isprintable).

Lemma parse_items_repr l :
  Forall reads_back l -> all_in_schema l -> l <> [] ->
  forall fuel rest,
    (items_cost l <= fuel)%nat ->
    parse_items fuel 93 (join_comma (map repr l) ++ 93 :: rest)
    = Some (map literal l, rest).
Proof.
  induction 1 as [|x r Hx Hr IH]; intros Hall Hne fuel rest Hfuel; [done|].
  destruct Hall as [Hxs Hrs].
  unfold items_cost in Hfuel; fold items_cost in Hfuel.
  destruct fuel as [|f]; [lia|].
  destruct r as [|y r'].
  - cbn [map join_comma].
    apply parse_items_one; [|lia..].
    apply Hx; [done|lia|]. cbn. tauto.
  - cbn [map join_comma]. fold (map repr (y :: r')).
    change (literal x :: literal y :: map literal r')
      with (literal x :: map literal (y :: r')).
    rewrite <- app_assoc. cbn [app].
    eapply parse_items_more.
    + apply Hx; [done|lia|]. cbn. tauto.
    + rewrite parse_items_space. apply IH; [done|done|lia].
Qed.

Lemma parse_pairs_repr d :
  Forall (fun kv => reads_back (snd kv)) d -> pairs_in_schema d -> d <> [] ->
  forall fuel rest,
    (pairs_cost d <= fuel)%nat ->
    parse_pairs fuel (join_comma (map (repr_pair isprintable) d) ++ 125 :: rest)
    = Some (map literal_pair d, rest).
Proof.
  induction 1 as [|[k x] r Hx Hr IH]; intros Hall Hne fuel rest Hfuel; [done|].
  destruct Hall as (Hk & Hxs & Hrs). cbn [snd] in Hx.
  unfold pairs_cost in Hfuel; fold pairs_cost in Hfuel.
  destruct fuel as [|f]; [lia|].
  assert (Hhead : forall tail c t,
            repr_str isprintable k ++ tail = c :: t -> c <> 32).
  { intros tail c t. unfold repr_str. cbn [app]. intros [= <- _].
    destruct (repr_quote_is_quote k); lia. }
  destruct r as [|[k' y] r'].
  - change (map (repr_pair isprintable) [(k, x)])
      with [repr_str isprintable k ++ 58 :: 32 :: repr x].
    cbn [join_comma map literal_pair]. rewrite <- app_assoc. cbn [app].
    eapply parse_pairs_one.
    + apply parse_string_repr_str; [done|done|]. cbn. lia.
    + apply Hhead.
    + rewrite parse_expr_space. apply Hx; [done|lia|]. cbn. tauto.
  - change (map (repr_pair isprintable) ((k, x) :: (k', y) :: r'))
      with ((repr_str isprintable k ++ 58 :: 32 :: repr x)
              :: repr_pair isprintable (k', y)
              :: map (repr_pair isprintable) r').
    rewrite join_comma_cons2.
    change (repr_pair isprintable (k', y) :: map (repr_pair isprintable) r')
      with (map (repr_pair isprintable) ((k', y) :: r')).
    change (map literal_pair ((k, x) :: (k', y) :: r'))
      with ((k, literal x) :: map literal_pair ((k', y) :: r')).
    repeat (rewrite <- app_assoc; cbn [app]).
    eapply parse_pairs_more.
    + apply parse_string_repr_str; [done|done|]. cbn. lia.
    + apply Hhead.
    + rewrite parse_expr_space. apply Hx; [done|lia|]. cbn. tauto.
    + rewrite parse_pairs_space.
      apply (IH Hrs ltac:(done) f rest). lia.
Qed.

Lemma repr_dict d :
  repr (PDict d) = 123 :: join_comma (map (repr_pair isprintable) d) ++ [125].
Proof. reflexivity. Qed.

Lemma literal_dict d : literal (PDict d) = EDict (map literal_pair d).
Proof. reflexivity. Qed.

Lemma parse_expr_repr : forall v, reads_back v.
Proof.
  induction v as [ | b | z | s | b | l IHl | d IHd | n | n ]
    using value_ind_nested; intros Hv fuel rest Hfuel Hrest; try done.
  - destruct fuel as [|f]; [simpl in Hfuel; lia|].
    by apply parse_expr_constant.
  - destruct fuel as [|f]; [simpl in Hfuel; lia|].
    destruct b; by apply parse_expr_constant.
  - cbn [cost] in Hfuel. destruct fuel as [|[|f]]; [lia..|].
    cbn [builtins.repr literal]. unfold repr_int.
    destruct (z <? 0)%Z.
    + cbn [app]. rewrite parse_expr_minus.
      destruct (decimal_spec (Z.to_N (- z)))
        as (ds & Hds & (d & r & Hhead & Hd & _) & _).
      pose proof (parse_number_decimal (Z.to_N (- z)) rest
                    (follows_ends_number _ Hrest)) as Hnum.
      rewrite Hds, Hhead in *. cbn [app] in *.
      by rewrite parse_expr_digit, Hnum.
    + destruct (decimal_spec (Z.to_N z))
        as (ds & Hds & (d & r & Hhead & Hd & _) & _).
      pose proof (parse_number_decimal (Z.to_N z) rest
                    (follows_ends_number _ Hrest)) as Hnum.
      rewrite Hds, Hhead in *. cbn [app] in *.
      by rewrite parse_expr_digit, Hnum.
  - destruct fuel as [|f]; [simpl in Hfuel; lia|].
    cbn [builtins.repr literal].
    pose proof (parse_string_repr_str isprintable printable s rest Hv
                  (follows_no_quote _ Hrest)) as Hstr.
    unfold repr_str in *. cbn [app] in *.
    rewrite parse_expr_quote by apply repr_quote_is_quote.
    by rewrite Hstr.
  - rewrite cost_list in Hfuel. destruct fuel as [|f]; [lia|].
    cbn [builtins.repr literal]. cbn [app]. rewrite <- app_assoc. cbn [app].
    destruct l as [|x r]; [apply parse_expr_list_empty|].
    destruct Hv as [Hx Hr].
    destruct (repr_first x Hx) as (c & t & Hc & H32 & H93 & _).
    pose proof (parse_items_repr (x :: r) IHl (conj Hx Hr) ltac:(done)
                  f rest ltac:(lia)) as Hitems.
    destruct (join_comma (map repr (x :: r)) ++ 93 :: rest) as [|c' t'] eqn:E.
    { cbn [map join_comma] in E. destruct r; rewrite Hc in E; discriminate. }
    assert (c' = c) as ->.
    { cbn [map join_comma] in E. destruct r; rewrite Hc in E; by injection E. }
    rewrite parse_expr_list by done. by rewrite Hitems.
  - rewrite cost_dict in Hfuel. destruct fuel as [|f]; [lia|].
    rewrite repr_dict, literal_dict. cbn [app]. rewrite <- app_assoc. cbn [app].
    destruct d as [|[k x] r]; [apply parse_expr_dict_empty|].
    destruct Hv as [Hnodup Hall].
    pose proof (parse_pairs_repr ((k, x) :: r) IHd Hall ltac:(done)
                  f rest ltac:(lia)) as Hpairs.
    match type of Hpairs with
    | parse_pairs _ ?input = _ => destruct input as [|c' t'] eqn:E
    end.
    { destruct r; discriminate. }
    assert (c' = repr_quote k) as ->.
    { destruct r as [|[? ?] ?]; by injection E. }
    rewrite parse_expr_dict by (destruct (repr_quote_is_quote k); lia).
    by rewrite Hpairs.
Qed.

(** The fuel [parse] starts with suffices. *)
Lemma items_cost_le_length l :
  Forall (fun x => (cost x <= 2 * length (repr x))%nat) l ->
  (items_cost l <= 2 * length (join_comma (map repr l)) + 2)%nat.
Proof.
  induction 1 as [|x r Hx Hr IH]; [simpl; lia|].
  unfold items_cost; fold items_cost.
  destruct r as [|y r'].
  - cbn [map join_comma items_cost]. lia.
  - change (map repr (x :: y :: r')) with (repr x :: repr y :: map repr r').
    rewrite join_comma_cons2.
    change (repr y :: map repr r') with (map repr (y :: r')).
    rewrite length_app. cbn [length]. lia.
Qed.

Lemma pairs_cost_le_length d :
  Forall (fun kv => (cost (snd kv) <= 2 * length (repr (snd kv)))%nat) d ->
  (pairs_cost d <= 2 * length (join_comma (map (repr_pair isprintable) d)) + 2)%nat.
Proof.
  induction 1 as [|[k x] r Hx Hr IH]; [simpl; lia|].
  unfold pairs_cost; fold pairs_cost. cbn [snd] in Hx.
  assert (Hp : (length (repr x) <= length (repr_pair isprintable (k, x)))%nat).
  { unfold repr_pair. rewrite length_app. cbn [length]. lia. }
  destruct r as [|[k' y] r'].
  - change (map (repr_pair isprintable) [(k, x)])
      with [repr_pair isprintable (k, x)].
    cbn [join_comma pairs_cost]. lia.
  - change (map (repr_pair isprintable) ((k, x) :: (k', y) :: r'))
      with (repr_pair isprintable (k, x) :: repr_pair isprintable (k', y)
              :: map (repr_pair isprintable) r').
    rewrite join_comma_cons2.
    change (repr_pair isprintable (k', y) :: map (repr_pair isprintable) r')
      with (map (repr_pair isprintable) ((k', y) :: r')).
    rewrite length_app. cbn [length]. lia.
Qed.

Lemma cost_le_length : forall v, (cost v <= 2 * length (repr v))%nat.
Proof.
  induction v as [ | b | z | s | b | l IHl | d IHd | n | n ]
    using value_ind_nested.
  - simpl. lia.
  - destruct b; simpl; lia.
  - cbn [cost builtins.repr]. unfold repr_int.
    destruct (z <? 0)%Z; [simpl; lia|].
    destruct (decimal_spec (Z.to_N z)) as (ds & -> & (d & r & -> & _) & _).
    simpl. lia.
  - cbn [cost builtins.repr]. unfold repr_str. simpl. lia.
  - cbn [cost builtins.repr]. unfold repr_bytes. simpl. lia.
  - rewrite cost_list. pose proof (items_cost_le_length l IHl).
    cbn [builtins.repr]. cbn [length]. rewrite length_app. cbn [length]. lia.
  - rewrite cost_dict, repr_dict. pose proof (pairs_cost_le_length d IHd).
    cbn [length]. rewrite length_app. cbn [length]. lia.
  - cbn [cost builtins.repr]. rewrite length_app. simpl. lia.
  - cbn [cost builtins.repr]. rewrite length_app. simpl. lia.
Qed.

(** [repr] of a value of the schema parses as its literal. *)
Lemma parse_repr v : in_schema v -> parse (repr v) = Some (literal v).
Proof.
  intros Hv. unfold parse.
  pose proof (parse_expr_repr v Hv (2 * length (repr v) + 2)%nat []) as H.
  rewrite app_nil_r in H. rewrite H; [reflexivity| |exact I].
  pose proof (cost_le_length v). lia.
Qed.

(** The printed text can be encoded: it holds no surrogate. *)
Lemma ascii_encodable c : c < 128 -> encodable c.
Proof.
  intros H. split; [lia|]. unfold utf8.is_surrogate.
  destruct (N.leb_spec 55296 c); [lia|reflexivity].
Qed.

Lemma hex_digits_ascii k n : Forall (fun c => c < 128) (hex_digits k n).
Proof.
  induction k as [|k IH]; cbn [hex_digits]; constructor; [|exact IH].
  assert (Hd : (n / 16 ^ N.of_nat k) mod 16 < 16) by (apply N.mod_lt; lia).
  revert Hd. generalize ((n / 16 ^ N.of_nat k) mod 16). intros d Hd.
  unfold Bytes.hex_digit. destruct (d <? 10); lia.
Qed.

Lemma repr_char_encodable q c :
  is_quote q -> c < 1114112 -> Forall encodable (repr_char isprintable q c).
Proof.
  intros Hq Hc. unfold repr_char.
  assert (Hhex : forall k, Forall encodable (hex_digits k c)).
  { intros k. eapply Forall_impl; [apply hex_digits_ascii|].
    intros x Hx. by apply ascii_encodable. }
  assert (H92 : encodable 92) by (apply ascii_encodable; lia).
  assert (Hqe : encodable q) by (apply ascii_encodable; destruct Hq; lia).
  assert (Hsame : forall x, (x =? q) || (x =? 92) = true -> encodable x).
  { intros x E. apply orb_true_iff in E as [E|E]; apply N.eqb_eq in E; by subst. }
  assert (Hraw : isprintable c = true -> encodable c).
  { intros Ep. split; [done|by apply printable]. }
  repeat match goal with
         | |- context [if ?b then _ else _] => destruct b eqn:?
         end;
    repeat match goal with
           | H : (_ <? _) = true |- _ => apply N.ltb_lt in H
           | H : (_ =? _) = true |- _ => apply N.eqb_eq in H
           end;
    repeat first
      [ apply Hhex
      | apply List.Forall_nil
      | apply List.Forall_cons;
        [ first [ assumption | by apply Hsame | by apply Hraw
                | apply ascii_encodable; first [lia | by apply N.ltb_lt] ] | ] ].
Qed.

Lemma repr_str_encodable s :
  valid_str s -> Forall encodable (repr_str isprintable s).
Proof.
  intros Hs. unfold repr_str.
  pose proof (repr_quote_is_quote s) as Hq.
  assert (Hqe : encodable (repr_quote s))
    by (apply ascii_encodable; destruct Hq; lia).
  revert Hq Hqe. generalize (repr_quote s). intros q Hq Hqe.
  apply List.Forall_cons; [done|]. apply Forall_app.
  split; [|apply List.Forall_cons; [done|apply List.Forall_nil]].
  induction Hs as [|c r Hc Hr IH]; cbn [flat_map]; [apply List.Forall_nil|].
  apply Forall_app. split; [by apply repr_char_encodable|exact IH].
Qed.

(** A list that starts with ASCII characters and goes on encodable. *)
Ltac ascii_then tac :=
  repeat first
    [ apply List.Forall_nil
    | apply List.Forall_cons; [apply ascii_encodable; lia|]
    | tac ].

Lemma join_comma_encodable items :
  Forall (Forall encodable) items -> Forall encodable (join_comma items).
Proof.
  induction 1 as [|x r Hx Hr IH]; [apply List.Forall_nil|].
  destruct r as [|y r']; [done|]. rewrite join_comma_cons2.
  apply Forall_app. split; [done|]. ascii_then ltac:(exact IH).
Qed.

Lemma repr_encodable : forall v, in_schema v -> Forall encodable (repr v).
Proof.
  assert (Hlit : forall s : str, Forall (fun c => c < 128) s -> Forall encodable s).
  { intros s Hs. eapply Forall_impl; [exact Hs|]. intros c. apply ascii_encodable. }
  induction v as [ | b | z | s | b | l IHl | d IHd | n | n ]
    using value_ind_nested; intros Hv; try done.
  - apply Hlit. vm_compute. repeat (apply List.Forall_cons; [reflexivity|]).
    apply List.Forall_nil.
  - destruct b; apply Hlit; vm_compute;
      repeat (apply List.Forall_cons; [reflexivity|]); apply List.Forall_nil.
  - cbn [builtins.repr]. unfold repr_int.
    destruct (z <? 0)%Z.
    + apply List.Forall_cons; [apply ascii_encodable; lia|].
      destruct (decimal_spec (Z.to_N (- z))) as (ds & -> & _ & Hascii & _).
      by apply Hlit.
    + destruct (decimal_spec (Z.to_N z)) as (ds & -> & _ & Hascii & _).
      by apply Hlit.
  - by apply repr_str_encodable.
  - cbn [builtins.repr]. apply List.Forall_cons; [apply ascii_encodable; lia|].
    apply Forall_app. split; [|ascii_then fail].
    apply join_comma_encodable. apply Forall_map.
    apply in_schema_list in Hv.
    induction IHl as [|x r Hx Hr IH]; [apply List.Forall_nil|].
    destruct Hv as [Hxs Hrs].
    apply List.Forall_cons; [by apply Hx|by apply IH].
  - rewrite repr_dict. apply List.Forall_cons; [apply ascii_encodable; lia|].
    apply Forall_app. split; [|ascii_then fail].
    apply join_comma_encodable. apply Forall_map.
    destruct Hv as [_ Hall].
    induction IHd as [|[k x] r Hx Hr IH]; [apply List.Forall_nil|].
    destruct Hall as (Hk & Hxs & Hrs). apply List.Forall_cons; [|by apply IH].
    unfold repr_pair. apply Forall_app. split; [by apply repr_str_encodable|].
    ascii_then ltac:(by apply Hx).
Qed.

End Displays.

(** *** Evaluation of literals *)

Section Evaluation.

Variable W : oracle.

Lemma bind_return {A B} (m : M A) (k : A -> M B) a tr tr' :
  m tr = (Return a, tr') -> World.bind m k tr = k a tr'.
Proof. intros H. unfold World.bind. by rewrite H. Qed.

Lemma eval_expr_list items :
  eval_expr W (EList items)
  = World.bind (eval_items W items) (fun vs => ret (PList vs)).
Proof. reflexivity. Qed.

Lemma eval_expr_dict items :
  eval_expr W (EDict items)
  = World.bind (eval_pairs W items []) (fun d => ret (PDict d)).
Proof. reflexivity. Qed.

Lemma dict_set_fresh d k v :
  k ∉ map fst d -> dict_set d k v = d ++ [(k, v)].
Proof.
  induction d as [|[k' v'] r IH]; intros Hk; [reflexivity|].
  cbn [dict_set]. cbn [map fst] in Hk.
  apply not_elem_of_cons in Hk as [Hne Hr].
  rewrite bool_decide_eq_false_2 by congruence.
  cbn [app]. by rewrite IH.
Qed.

Local Abbreviation evaluates := (literals.evaluates W).

Lemma eval_items_literal l :
  Forall evaluates l -> all_in_schema l ->
  forall tr, eval_items W (map literal l) tr = (Return l, tr).
Proof.
  induction 1 as [|x r Hx Hr IH]; intros Hall tr; [reflexivity|].
  destruct Hall as [Hxs Hrs]. cbn [map eval_items].
  rewrite (bind_return _ _ x tr tr) by by apply Hx.
  rewrite (bind_return _ _ r tr tr) by by apply IH.
  reflexivity.
Qed.

Lemma eval_pairs_literal d :
  Forall (fun kv => evaluates (snd kv)) d -> pairs_in_schema d ->
  forall acc tr,
    NoDup (map fst (acc ++ d)) ->
    eval_pairs W (map literal_pair d) acc tr = (Return (acc ++ d), tr).
Proof.
  induction 1 as [|[k x] r Hx Hr IH]; intros Hall acc tr Hnodup.
  - by rewrite app_nil_r.
  - destruct Hall as (Hk & Hxs & Hrs). cbn [snd] in Hx.
    cbn [map literal_pair eval_pairs].
    rewrite (bind_return _ _ x tr tr) by by apply Hx.
    assert (Hfresh : k ∉ map fst acc).
    { rewrite map_app in Hnodup. apply NoDup_app in Hnodup as (_ & Hdisj & _).
      intros Hin. apply (Hdisj k Hin). cbn [map fst]. left. }
    rewrite dict_set_fresh by done.
    rewrite IH; [by rewrite <- app_assoc|done|].
    by rewrite <- app_assoc.
Qed.

Lemma eval_expr_literal : forall v, evaluates v.
Proof.
  induction v as [ | b | z | s | b | l IHl | d IHd | n | n ]
    using value_ind_nested; intros Hv tr; try done.
  - cbn [literal].
    destruct (Z.ltb_spec z 0).
    + cbn [eval_expr]. unfold World.bind, ret.
      replace (- Z.of_N (Z.to_N (- z)))%Z with z by lia. reflexivity.
    + cbn [eval_expr]. unfold ret.
      replace (Z.of_N (Z.to_N z)) with z by lia. reflexivity.
  - cbn [literal]. rewrite eval_expr_list.
    by rewrite (bind_return _ _ l tr tr) by by apply eval_items_literal.
  - rewrite literal_dict, eval_expr_dict.
    destruct Hv as [Hnodup Hall].
    by rewrite (bind_return _ _ d tr tr)
      by by apply (eval_pairs_literal d IHd Hall []).
Qed.

End Evaluation.

(** [eval(repr(v)) == v] on the values of the schema, without effect. *)
Lemma eval_repr isprintable W v tr :
  printable_table isprintable -> in_schema v ->
  eval W (builtins.repr isprintable v) tr = (Return v, tr).
Proof.
  intros Hp Hv. unfold eval. rewrite (parse_repr isprintable Hp v Hv).
  by apply eval_expr_literal.
Qed.

End builtins_facts.

(** ** The envelope of encryption.py *)

Module envelope_properties.

Import encryption notions.
Import Bytes_facts Bytes_codec_facts utf8_facts literals builtins_facts
  encryption_properties.

(** [metadata or {}] on a map is the map. *)
Lemma or_empty_dict m :
  (if truthy (PDict m) then PDict m else PDict []) = PDict m.
Proof. by destruct m. Qed.

Lemma hex_digit_ascii d : (d < 16)%N -> (Bytes.hex_digit d < 128)%N.
Proof. intros H. unfold Bytes.hex_digit. destruct (d <? 10)%N; lia. Qed.

Lemma valid_str_hex b : valid_str (Bytes.hex b).
Proof.
  unfold valid_str, Bytes.hex.
  induction b as [|x r IH]; cbn [flat_map]; [apply List.Forall_nil|].
  pose proof (to_N_lt x).
  assert (Bytes.to_N x / 16 < 16)%N by (apply N.Div0.div_lt_upper_bound; lia).
  assert (Bytes.to_N x mod 16 < 16)%N by (apply N.mod_lt; lia).
  pose proof (hex_digit_ascii (Bytes.to_N x / 16) ltac:(done)).
  pose proof (hex_digit_ascii (Bytes.to_N x mod 16) ltac:(done)).
  cbn [app]. apply List.Forall_cons; [lia|]. apply List.Forall_cons; [lia|done].
Qed.

(** The record of the envelope is a value of the schema. *)
Lemma file_metadata_in_schema data filename token m :
  valid_str filename -> in_schema (PDict m) ->
  in_schema (file_metadata data filename token (PDict m)).
Proof.
  intros Hf Hm. unfold file_metadata. rewrite or_empty_dict.
  split.
  - apply (bool_decide_eq_true_1 _). vm_compute. reflexivity.
  - assert (Hlit : forall k : string,
              forallb (fun c => c <? 1114112)%N (lit k) = true -> valid_str (lit k)).
    { intros k H. apply Forall_forall. intros c Hc.
      rewrite forallb_forall in H. apply N.ltb_lt, H.
      by apply list_elem_of_In. }
    split; [apply Hlit; vm_compute; reflexivity|]. split; [exact Hf|].
    split; [apply Hlit; vm_compute; reflexivity|]. split; [exact I|].
    split; [apply Hlit; vm_compute; reflexivity|]. split; [apply valid_str_hex|].
    split; [apply Hlit; vm_compute; reflexivity|]. split; [exact Hm|exact I].
Qed.

(** The text of the record has an encoding, from which it is read back. *)
Lemma metadata_json_round_trip isprintable W md tr :
  printable_table isprintable -> in_schema md ->
  exists metadata_json,
    utf8.encode (builtins.repr isprintable md) = Return metadata_json
    /\ utf8.decode metadata_json = Return (builtins.repr isprintable md)
    /\ builtins.eval W (builtins.repr isprintable md) tr = (Return md, tr).
Proof.
  intros Hp Hmd.
  destruct (encode_encodable _ (repr_encodable isprintable Hp md Hmd))
    as [metadata_json Henc].
  exists metadata_json. split; [done|]. split; [by apply decode_encode|].
  by apply eval_repr.
Qed.

(** The three parts of the framed envelope, cut apart again. *)
Lemma unframe metadata_length metadata_json data :
  length metadata_length = 4%nat ->
  Bytes.from_big_endian metadata_length = N.of_nat (length metadata_json) ->
  let combined := metadata_length ++ metadata_json ++ data in
  let n := N.to_nat (Bytes.from_big_endian (take 4 combined)) in
  take n (drop 4 combined) = metadata_json
  /\ drop (4 + n) combined = data.
Proof.
  intros Hlen Hvalue combined n. subst combined n.
  rewrite (take_app_length' metadata_length _ 4) by done.
  rewrite Hvalue, Nat2N.id.
  rewrite (drop_app_length' metadata_length _ 4) by done.
  rewrite take_app_length.
  split; [reflexivity|].
  rewrite <- drop_drop, (drop_app_length' metadata_length _ 4) by done.
  apply drop_app_length.
Qed.

(** The Latin-1 table of the examples has no printable surrogate. *)
Lemma latin1_printable_table : printable_table fixtures.latin1_printable.
Proof.
  intros c. unfold fixtures.latin1_printable, utf8.is_surrogate.
  destruct (N.leb_spec 161 c); [|discriminate].
  destruct (N.leb_spec c 255); [|discriminate].
  intros _. destruct (N.leb_spec 55296 c); [lia|reflexivity].
Qed.

(** C1, as the code has it: for every byte payload, every filename and
    every metadata map of the schema whose record serialises to fewer
    than 2^32 bytes (what the four-byte length prefix can hold), wrapping
    succeeds and unwrapping the envelope returns the payload and the
    record with that filename and that map, without any effect.  The
    record is taken within the interpreter's default limits on digits
    and nesting, beyond which the interpreter refuses to print a value
    or to read it back and which [repr] and [eval] do not model. *)
Theorem unwrap_wrap_round_trip
    (isprintable : N -> bool) (W : oracle)
    (env : environ) (urandom32 : bytes) (password : option str)
    (c : AESCipher) (token : bytes) (now : Z) (iv p : bytes)
    (f : str) (m : list (str * value)) (tr : trace) :
  printable_table isprintable ->
  encryption.__init__ env urandom32 password = Return c ->
  0 <= now < 2 ^ 64 ->
  length iv = 16%nat ->
  valid_str f ->
  in_schema (PDict m) ->
  within_limits (file_metadata p f token (PDict m)) ->
  (forall metadata_json,
     utf8.encode (builtins.repr isprintable (file_metadata p f token (PDict m)))
     = Return metadata_json ->
     len metadata_json < 2 ^ 32) ->
  let self := {| cipher := c |} in
  let md := PDict [(lit "filename", PStr f);
                   (lit "size", PInt (len p));
                   (lit "encrypted_at", PStr (Bytes.hex token));
                   (lit "metadata", PDict m)] in
  exists encrypted_data,
    encrypt_with_metadata isprintable self token now iv p f (PDict m)
    = PDict [(lit "success", PBool true);
             (lit "encrypted_data", PBytes encrypted_data);
             (lit "metadata", md);
             (lit "original_size", PInt (len p));
             (lit "encrypted_size", PInt (len encrypted_data))]
    /\ decrypt_with_metadata W self (PBytes encrypted_data) tr
       = (Return (PDict [(lit "success", PBool true);
                         (lit "data", PBytes p);
                         (lit "metadata", md);
                         (lit "decrypted_size", PInt (len p))]), tr).
Proof.
  intros Hp Hinit Hnow Hiv Hf Hm _ Hsize self md.
  assert (Emd : file_metadata p f token (PDict m) = md)
    by (unfold file_metadata; by rewrite or_empty_dict).
  pose proof (file_metadata_in_schema p f token m Hf Hm) as Hmd.
  rewrite Emd in *.
  destruct (metadata_json_round_trip isprintable W md tr Hp Hmd)
    as (metadata_json & Henc & Hdec & Heval).
  specialize (Hsize metadata_json Henc).
  assert (Hrange : 0 <= len metadata_json < 256 ^ Z.of_nat 4).
  { change (256 ^ Z.of_nat 4) with (2 ^ 32). unfold len in *. lia. }
  pose proof (to_bytes_in_range _ 4 Hrange) as Hto.
  destruct (to_bytes_from_big_endian _ _ _ Hto) as [Hlen4 Hvalue].
  set (metadata_length := Bytes.big_endian 4 (Z.to_N (len metadata_json))) in *.
  set (combined := metadata_length ++ metadata_json ++ p).
  destruct (cipher_round_trip env urandom32 password c now iv combined
              Hinit Hnow Hiv) as (encrypted_data & Hencrypt & Hdecrypt).
  exists encrypted_data. split.
  - unfold encrypt_with_metadata, combined_data. rewrite Emd, Henc, Hto.
    fold metadata_length. fold combined. cbn [cipher self]. by rewrite Hencrypt.
  - unfold decrypt_with_metadata, try_except. cbn [cipher self].
    rewrite Hdecrypt.
    assert (Hvalue' : Bytes.from_big_endian metadata_length
                      = N.of_nat (length metadata_json))
      by (unfold len in Hvalue; lia).
    destruct (unframe metadata_length metadata_json p Hlen4 Hvalue')
      as [Htake Hdrop].
    fold combined in Htake, Hdrop. rewrite Htake, Hdec.
    unfold World.bind. rewrite Heval. unfold ret. by rewrite Hdrop.
Qed.

Lemma unwrap_wrap_round_trip_witness :
  exists encrypted_data,
    encrypt_with_metadata fixtures.latin1_printable fixtures.manager
      [x00; x01] fixtures.now fixtures.iv [xff; x00] (lit "report.pdf")
      (PDict [(lit "owner", PStr [233%N; 39%N]); (lit "pages", PInt (-3))])
    = PDict [(lit "success", PBool true);
             (lit "encrypted_data", PBytes encrypted_data);
             (lit "metadata",
              PDict [(lit "filename", PStr (lit "report.pdf"));
                     (lit "size", PInt 2);
                     (lit "encrypted_at", PStr (lit "0001"));
                     (lit "metadata",
                      PDict [(lit "owner", PStr [233%N; 39%N]);
                             (lit "pages", PInt (-3))])]);
             (lit "original_size", PInt 2);
             (lit "encrypted_size", PInt (len encrypted_data))]
    /\ decrypt_with_metadata fixtures.accepting fixtures.manager
         (PBytes encrypted_data) []
       = (Return (PDict [(lit "success", PBool true);
                         (lit "data", PBytes [xff; x00]);
                         (lit "metadata",
                          PDict [(lit "filename", PStr (lit "report.pdf"));
                                 (lit "size", PInt 2);
                                 (lit "encrypted_at", PStr (lit "0001"));
                                 (lit "metadata",
                                  PDict [(lit "owner", PStr [233%N; 39%N]);
                                         (lit "pages", PInt (-3))])]);
                         (lit "decrypted_size", PInt 2)]), []).
Proof.
  apply (unwrap_wrap_round_trip fixtures.latin1_printable fixtures.accepting
           ∅ fixtures.urandom32 None fixtures.cipher [x00; x01] fixtures.now
           fixtures.iv [xff; x00] (lit "report.pdf")
           [(lit "owner", PStr [233%N; 39%N]); (lit "pages", PInt (-3))] []).
  - exact latin1_printable_table.
  - vm_compute. reflexivity.
  - vm_compute. split; [discriminate|reflexivity].
  - reflexivity.
  - apply Forall_forall. intros c Hc. apply list_elem_of_In in Hc.
    vm_compute in Hc. repeat (destruct Hc as [<-|Hc]; [reflexivity|]). done.
  - split.
    + apply (bool_decide_eq_true_1 _). vm_compute. reflexivity.
    + repeat split; apply Forall_forall; intros c Hc;
        apply list_elem_of_In in Hc; vm_compute in Hc;
        repeat (destruct Hc as [<-|Hc]; [reflexivity|]); done.
  - split; [vm_compute; reflexivity|]. cbn. lia.
  - intros metadata_json H. vm_compute in H. injection H as <-.
    vm_compute. reflexivity.
Defined.

(** A string is no longer than its encoding, and no longer than what
    [repr] prints for it. *)
Lemma encode_length s : forall b,
  utf8.encode s = Return b -> (length s <= length b)%nat.
Proof.
  induction s as [|c r IH]; intros b; cbn [utf8.encode].
  - intros [= <-]. done.
  - destruct (utf8.encode_cp c) as [bs|] eqn:Ec; [|discriminate].
    destruct (utf8.encode r) as [rest|]; [|discriminate].
    intros [= <-]. pose proof (encode_cp_nonempty c bs Ec).
    specialize (IH rest eq_refl). rewrite length_app. cbn [length].
    destruct bs; [done|]. cbn [length]. lia.
Qed.

Lemma repr_str_length isprintable s :
  (length s <= length (builtins.repr_str isprintable s))%nat.
Proof.
  unfold builtins.repr_str.
  pose proof (repr_quote_is_quote s) as Hq. revert Hq.
  generalize (builtins.repr_quote s). intros q Hq.
  cbn [length]. rewrite length_app.
  assert (length s <= length (flat_map (builtins.repr_char isprintable q) s))%nat;
    [|lia].
  induction s as [|c r IH]; cbn [flat_map]; [done|].
  destruct (repr_char_head isprintable q c Hq) as (x & t & -> & _).
  cbn [app length]. rewrite length_app. lia.
Qed.

Lemma file_metadata_length isprintable data filename token metadata :
  (length filename
   <= length (builtins.repr isprintable
                (file_metadata data filename token metadata)))%nat.
Proof.
  unfold file_metadata. rewrite repr_dict.
  match goal with
  | |- context [map ?g (?a :: ?b :: ?l)] =>
      change (map g (a :: b :: l)) with (g a :: g b :: map g l)
  end.
  rewrite join_comma_cons2. unfold repr_pair at 1.
  cbn [builtins.repr].
  repeat first [rewrite length_app | progress cbn [length]].
  pose proof (repr_str_length isprintable filename). lia.
Qed.

(** The record of a name of 2^32 characters or more does not fit the
    four-byte length prefix: wrapping fails. *)
Lemma oversized_record isprintable self token now iv data filename m :
  printable_table isprintable -> valid_str filename -> in_schema (PDict m) ->
  2 ^ 32 <= len filename ->
  encrypt_with_metadata isprintable self token now iv data filename (PDict m)
  = PDict [(lit "success", PBool false);
           (lit "error", PStr (lit "int too big to convert"))].
Proof.
  intros Hp Hf Hm Hbig.
  pose proof (file_metadata_in_schema data filename token m Hf Hm) as Hmd.
  destruct (encode_encodable _ (repr_encodable isprintable Hp _ Hmd))
    as [metadata_json Henc].
  pose proof (encode_length _ _ Henc) as Hlen.
  pose proof (file_metadata_length isprintable data filename token (PDict m)).
  unfold encrypt_with_metadata, combined_data. rewrite Henc.
  unfold Bytes.to_bytes, len in *.
  destruct (Z.ltb_spec (Z.of_nat (length metadata_json)) 0); [lia|].
  change (256 ^ Z.of_nat 4) with (2 ^ 32).
  destruct (Z.leb_spec (2 ^ 32) (Z.of_nat (length metadata_json))); [|lia].
  reflexivity.
Qed.

(** C1 as stated fails: the record of a file name of 2^32 letters needs
    more than the four bytes of the length prefix, [to_bytes] raises
    and no envelope is made. *)
Lemma oversized_filename_is_not_wrapped :
  let filename := replicate (N.to_nat 4294967296) 97%N in
  valid_str filename
  /\ encrypt_with_metadata fixtures.latin1_printable fixtures.manager
       [] fixtures.now fixtures.iv [] filename (PDict [])
     = PDict [(lit "success", PBool false);
              (lit "error", PStr (lit "int too big to convert"))].
Proof.
  intros filename.
  assert (Hvalid : valid_str filename).
  { apply Forall_replicate. reflexivity. }
  split; [exact Hvalid|].
  apply oversized_record.
  - exact latin1_printable_table.
  - exact Hvalid.
  - split; [apply NoDup_nil_2|exact I].
  - unfold len, filename. rewrite length_replicate, N_nat_Z. discriminate.
Qed.

(** C3: the metadata of an envelope is run as code.  An envelope whose
    metadata bytes spell [os.system('id')] is unwrapped with success,
    the command having been handed to the shell and its exit status
    standing where the metadata should. *)
Theorem metadata_is_evaluated_as_code :
  let source := Bytes.ascii "os.system('id')" in
  let payload := Bytes.ascii "data" in
  exists envelope,
    encrypt fixtures.cipher fixtures.now fixtures.iv
      (PBytes ([x00; x00; x00; x0f] ++ source ++ payload)) = Return envelope
    /\ decrypt_with_metadata fixtures.accepting fixtures.manager
         (PBytes envelope) []
       = (Return (PDict [(lit "success", PBool true);
                         (lit "data", PBytes payload);
                         (lit "metadata", PInt 0);
                         (lit "decrypted_size", PInt 4)]),
          [ESystem (lit "id")]).
Proof.
  eexists. split.
  - vm_compute. reflexivity.
  - vm_compute. reflexivity.
Qed.

End envelope_properties.

(** ** The transport: what every run leaves on the trace *)

Module trace_facts.

Import notions.

Section Sat0.
Context {A : Type}.
Variable P : event -> Prop.

Lemma sat_ret (Q : A -> Prop) E a : Q a -> sat P Q E (ret a).
Proof. intros H tr. exists []. rewrite app_nil_r. by repeat split. Qed.

Lemma sat_pure (Q : A -> Prop) E (f : trace -> A) :
  (forall tr, Q (f tr)) -> sat P Q E (fun tr => (Return (f tr), tr)).
Proof. intros H tr. exists []. rewrite app_nil_r. repeat split; [done|apply H]. Qed.

Lemma sat_raise (Q : A -> Prop) (E : exn -> Prop) e : E e -> sat P Q E (raise e).
Proof. intros H tr. exists []. rewrite app_nil_r. by repeat split. Qed.

End Sat0.

Section Sat.
Context {A B : Type}.
Variable P : event -> Prop.

Lemma sat_case (Q : A -> Prop) (E' : exn -> Prop) (R : B -> Prop) E (m : M A)
    (g : A -> M B) (f : exn -> M B) :
  sat P Q E' m ->
  (forall a, Q a -> sat P R E (g a)) ->
  (forall e, E' e -> sat P R E (f e)) ->
  sat P R E (fun tr => match m tr with
                       | (Return a, tr1) => g a tr1
                       | (Raise e, tr1) => f e tr1
                       end).
Proof.
  intros Hm Hg Hf tr. destruct (Hm tr) as (evs & Htr & Hevs & Hq).
  destruct (m tr) as [[a|e] tr1]; cbn [fst snd] in *; subst tr1.
  - destruct (Hg a Hq (tr ++ evs)) as (evs' & Htr' & Hevs' & Hr).
    exists (evs ++ evs'). rewrite Htr', app_assoc. repeat split; [|done].
    by apply Forall_app.
  - destruct (Hf e Hq (tr ++ evs)) as (evs' & Htr' & Hevs' & Hr).
    exists (evs ++ evs'). rewrite Htr', app_assoc. repeat split; [|done].
    by apply Forall_app.
Qed.

Lemma sat_bind (Q : A -> Prop) (R : B -> Prop) E (m : M A) (k : A -> M B) :
  sat P Q E m -> (forall a, Q a -> sat P R E (k a)) -> sat P R E (World.bind m k).
Proof.
  intros Hm Hk.
  apply (sat_case Q E R E m k (fun e => raise e) Hm Hk).
  intros e He. by apply sat_raise.
Qed.

End Sat.

Section Sat1.
Context {A : Type}.
Variable P : event -> Prop.

Lemma sat_try_except (Q : A -> Prop) E' (R : A -> Prop) E (m : M A) (h : exn -> M A) :
  sat P Q E' m -> (forall a, Q a -> R a) -> (forall e, E' e -> sat P R E (h e)) ->
  sat P R E (try_except m h).
Proof.
  intros Hm Hq Hh.
  apply (sat_case P Q E' R E m (fun a => ret a) h Hm); [|done].
  intros a Ha. apply sat_ret. by apply Hq.
Qed.

Lemma sat_try_finally (Q : A -> Prop) E (m : M A) (f : M unit) :
  sat P Q E m -> sat P (fun _ => True) E f -> sat P Q E (try_finally m f).
Proof.
  intros Hm Hf tr. destruct (Hm tr) as (evs & Htr & Hevs & Hq).
  unfold try_finally. destruct (m tr) as [r tr1]; cbn [fst snd] in *; subst tr1.
  destruct (Hf (tr ++ evs)) as (evs' & Htr' & Hevs' & He).
  destruct (f (tr ++ evs)) as [[[]|e] tr2]; cbn [fst snd] in *; subst tr2;
    exists (evs ++ evs'); rewrite app_assoc; repeat split;
    try (by apply Forall_app); done.
Qed.

Lemma sat_weaken (Q R : A -> Prop) (E E' : exn -> Prop) (m : M A) :
  sat P Q E m -> (forall a, Q a -> R a) -> (forall e, E e -> E' e) -> sat P R E' m.
Proof.
  intros Hm H H' tr. destruct (Hm tr) as (evs & Htr & Hevs & Hq).
  exists evs. repeat split; [done..|].
  destruct (fst (m tr)); [by apply H|by apply H'].
Qed.

Lemma sat_call ev answer :
  P ev -> sat P (fun _ : unit => True) (fun _ => True) (call ev answer).
Proof.
  intros H tr. exists [ev]. unfold call. cbn [fst snd]. repeat split.
  - by apply Forall_singleton.
  - by destruct (answer tr).
Qed.

Lemma sat_ask ev (answer : trace -> outcome A) :
  P ev -> sat P (fun _ : A => True) (fun _ => True) (ask ev answer).
Proof.
  intros H tr. exists [ev]. unfold ask. cbn [fst snd]. repeat split.
  - by apply Forall_singleton.
  - by destruct (answer tr).
Qed.

(** Console output does not raise. *)
Lemma sat_print text E :
  P (EPrint text) -> sat P (fun _ : unit => True) E (print text).
Proof.
  intros H tr. exists [EPrint text]. unfold print, call. cbn [fst snd].
  repeat split. by apply Forall_singleton.
Qed.

End Sat1.

(** *** The first event of a computation *)

Section Begins.
Context {A B : Type}.

Lemma begins_with_case e (m : M A) (g : A -> M B) (f : exn -> M B) :
  begins_with e m ->
  (forall a, adds_events (g a)) -> (forall x, adds_events (f x)) ->
  begins_with e (fun tr => match m tr with
                           | (Return a, tr1) => g a tr1
                           | (Raise x, tr1) => f x tr1
                           end).
Proof.
  intros Hm Hg Hf tr. destruct (Hm tr) as (evs & Htr).
  destruct (m tr) as [[a|x] tr1]; cbn [snd] in Htr; subst tr1.
  - destruct (Hg a (tr ++ e :: evs)) as (evs' & -> & _).
    exists (evs ++ evs'). by rewrite <- app_assoc.
  - destruct (Hf x (tr ++ e :: evs)) as (evs' & -> & _).
    exists (evs ++ evs'). by rewrite <- app_assoc.
Qed.

End Begins.

Lemma begins_with_call e answer : begins_with e (call e answer).
Proof. intros tr. by exists []. Qed.

Lemma begins_with_try_except {A} e (m : M A) (h : exn -> M A) :
  begins_with e m -> (forall x, adds_events (h x)) ->
  begins_with e (try_except m h).
Proof.
  intros Hm Hh.
  apply (begins_with_case e m (fun a => ret a) h Hm); [|done].
  intros a. by apply sat_ret.
Qed.

End trace_facts.

(** One step through the structure of a computation. *)
Ltac sat_step :=
  cbv beta zeta;
  match goal with
  | |- notions.sat ?P ?R ?E (fun tr => ?X tr) => progress change (notions.sat P R E X)
  | |- notions.sat _ _ _ (ret _) => apply trace_facts.sat_ret
  | |- notions.sat _ _ _ (raise _) => apply trace_facts.sat_raise
  | |- notions.sat _ _ _ (fun tr => (Return _, tr)) => apply trace_facts.sat_pure; intros ?
  | |- notions.sat _ _ _ (print _) => apply trace_facts.sat_print
  | |- notions.sat _ _ _ (call _ _) =>
      eapply trace_facts.sat_weaken; [apply trace_facts.sat_call|intros ? _|intros ? _]
  | |- notions.sat _ _ _ (ask _ _) =>
      eapply trace_facts.sat_weaken; [apply trace_facts.sat_ask|intros ? _|intros ? _]
  | |- notions.sat ?P ?R ?E (World.bind ?m ?k) =>
      apply (trace_facts.sat_bind P (fun _ => True) R E m k); [|intros ? _]
  | |- notions.sat ?P ?R ?E (try_except ?m ?h) =>
      apply (trace_facts.sat_try_except P R (fun _ => True) R E m h);
      [|let H := fresh in intros ? H; exact H|intros ? _]
  | |- notions.sat ?P ?R ?E (try_finally ?m ?f) =>
      apply (trace_facts.sat_try_finally P R E m f)
  | |- notions.sat _ _ _ (try_except_cls _ _ _) => unfold try_except_cls
  | |- notions.sat _ _ _ (sftp_client.swallow _) => unfold sftp_client.swallow
  | |- notions.sat _ _ _ (sftp_client.reraise_printing _ _) => unfold sftp_client.reraise_printing
  | |- notions.sat _ _ _ (if ?b then _ else _) => destruct b eqn:?
  | |- notions.sat _ _ _ (match ?x with Some _ => _ | None => _ end) => destruct x eqn:?
  | |- notions.sat _ _ _ (fun tr => if ?b then _ else _) => destruct b eqn:?
  | |- notions.sat ?P ?R ?E (fun tr => match ?m tr with _ => _ end) =>
      eapply (trace_facts.sat_case P (fun _ => True) (fun _ => True) R E m);
      [|intros ? _|intros ? _]
  end.

(** The result is a report. *)
Ltac report :=
  first [ done
        | left; eexists; reflexivity
        | right; eexists; reflexivity ].

Module transport_properties.

Import notions trace_facts sftp_client sftp_client_properties.

Section Operations.

Variable W : oracle.
Variable env : environ.
Variable self : SFTPManager.

(** Whatever the outside answers, connecting and cleaning up emit what
    [P] allows, [P] allowing the events of a session. *)
Section Session.

Variable P : event -> Prop.
Hypothesis P_print : forall text, P (EPrint text).
Hypothesis P_client : P ESSHClient.
Hypothesis P_system_keys : P ELoadSystemHostKeys.
Hypothesis P_keys : forall path, P (ELoadHostKeys path).
Hypothesis P_policy :
  P (ESetMissingHostKeyPolicy
       (if bool_decide (lower (getenv_default env "SFTP_ACCEPT_UNKNOWN_HOSTS"
                                 (lit "false")) = lit "true")
        then AutoAddPolicy else RejectPolicy)).
Hypothesis P_connect :
  forall h u p, host self = Some h -> username self = Some u ->
                password self = Some p ->
                P (EConnect h (port self) u p 10).
Hypothesis P_open : P EOpenSftp.
Hypothesis P_exists : forall path, P (EPathExists path).
Hypothesis P_unlink : forall path, P (EUnlink path).
Hypothesis P_close : P ESftpClose /\ P ESshClose.

Lemma sat_get_sftp_connection :
  sat P (fun _ => True) (fun _ => True) (_get_sftp_connection W env self).
Proof.
  unfold _get_sftp_connection.
  destruct (bool_decide _) eqn:Hpolicy in P_policy |- *;
    repeat sat_step; try done; auto.
Qed.

Lemma sat_cleanup temp_file_path connected :
  sat P (fun _ => True) (fun _ => True) (cleanup W temp_file_path connected).
Proof.
  unfold cleanup. destruct P_close. repeat sat_step; try done; auto.
Qed.


(** The events of the five operations. *)
Hypothesis P_listdir : P (EListdir (remote_path self)).
Hypothesis P_mkdir : P (EMkdir (remote_path self)).
Hypothesis P_staged : forall written, P (ENamedTemporaryFile written).
Hypothesis P_read : forall path, P (EReadFile path).
Hypothesis P_listdir_attr :
  forall d, P (EListdirAttr (or_str d (remote_path self))).
Hypothesis P_file :
  forall p local, confined (remote_path self) p ->
    P (EPut local p) /\ P (EChmod p 384) /\ P (EStat p)
    /\ P (EGet p local) /\ P (ERemove p).

Ltac session :=
  first [ apply sat_get_sftp_connection | apply sat_cleanup ].

Lemma confined_basename name :
  rejected_name name = false ->
  confined (remote_path self) (remote_path self ++ lit "/" ++ posixpath.basename name).
Proof.
  unfold rejected_name. intros H. apply orb_false_elim in H as [Hne Hdot].
  exists (posixpath.basename name). repeat split; [|apply basename_no_separator|done].
  by apply bool_decide_eq_false_1 in Hne.
Qed.

Lemma sat_upload_file file_data remote_filename :
  sat P is_report (fun _ => False)
    (upload_file W env self file_data remote_filename).
Proof.
  unfold upload_file.
  destruct (rejected_name remote_filename) eqn:Hname.
  - unfold rejected_name in Hname. rewrite Hname.
    repeat sat_step; try report; auto.
  - pose proof (confined_basename _ Hname) as Hc.
    unfold rejected_name in Hname. rewrite Hname.
    unfold _upload_via_sftp.
    repeat sat_step; try report; try session; auto;
      try (by apply (P_file _ [] Hc)); try (by eapply (P_file _ _ Hc)).
Qed.

Lemma sat_download_file remote_filename :
  sat P is_report (fun _ => False)
    (download_file W env self remote_filename).
Proof.
  unfold download_file.
  destruct (rejected_name remote_filename) eqn:Hname.
  - unfold rejected_name in Hname. rewrite Hname.
    repeat sat_step; try report; auto.
  - pose proof (confined_basename _ Hname) as Hc.
    unfold rejected_name in Hname. rewrite Hname.
    unfold _download_via_sftp.
    repeat sat_step; try report; try session; auto;
      try (by apply (P_file _ [] Hc)); try (by eapply (P_file _ _ Hc)).
Qed.

Lemma sat_delete_file remote_filename :
  sat P is_report (fun _ => False)
    (delete_file W env self remote_filename).
Proof.
  unfold delete_file.
  destruct (rejected_name remote_filename) eqn:Hname.
  - unfold rejected_name in Hname. rewrite Hname.
    repeat sat_step; try report; auto.
  - pose proof (confined_basename _ Hname) as Hc.
    unfold rejected_name in Hname. rewrite Hname.
    unfold _delete_file_via_sftp.
    repeat sat_step; try report; try session; auto;
      try (by apply (P_file _ [] Hc)).
Qed.

Lemma sat_list_files remote_directory :
  sat P is_report (fun _ => False)
    (list_files W env self remote_directory).
Proof.
  unfold list_files, _list_files_via_sftp.
  repeat sat_step; try report; try session; auto.
Qed.

Lemma sat_test_connection :
  sat P is_report (fun _ => False) (test_connection W env self).
Proof.
  unfold test_connection, _test_connection_via_sftp.
  repeat sat_step; try report; try session; auto.
Qed.

End Session.
End Operations.


(** X1: whatever the server and the file system answer, each of the
    five operations returns a result and never raises: a failure that
    carries a message, or a record that begins with [success: True]. *)
Theorem operations_report_and_never_raise
    (W : oracle) (env : environ) (self : SFTPManager)
    (file_data : bytes) (remote_filename : str)
    (remote_directory : option str) (tr : trace) :
  let reports (operation : M value) :=
    exists result tr', operation tr = (Return result, tr') /\ is_report result in
  reports (upload_file W env self file_data remote_filename)
  /\ reports (download_file W env self remote_filename)
  /\ reports (list_files W env self remote_directory)
  /\ reports (delete_file W env self remote_filename)
  /\ reports (test_connection W env self).
Proof.
  intros reports.
  assert (H : forall m, sat (fun _ => True) is_report (fun _ => False) m -> reports m).
  { intros m Hm. unfold reports. destruct (Hm tr) as (evs & _ & _ & Hr).
    destruct (m tr) as [[r|e] tr']; cbn [fst] in Hr; [|done]. by exists r, tr'. }
  repeat split; apply H.
  - apply sat_upload_file; intros; by repeat split.
  - apply sat_download_file; intros; by repeat split.
  - apply sat_list_files; intros; by repeat split.
  - apply sat_delete_file; intros; by repeat split.
  - apply sat_test_connection; intros; by repeat split.
Qed.

(** X2: every remote file that put, get or delete touch ([stat],
    [put], [chmod], [get], [remove]) lies directly inside the
    configured remote directory, under a name that is not empty, holds
    no separator and begins with no dot; listing and testing the
    connection touch no remote file at all, and a listing only lists
    the directory it was given (or the remote directory if none). *)
Theorem remote_files_are_confined
    (W : oracle) (env : environ) (self : SFTPManager)
    (file_data : bytes) (remote_filename : str)
    (remote_directory : option str) (tr : trace) :
  let touches_only (allowed : str -> Prop) (operation : M value) :=
    exists evs, snd (operation tr) = tr ++ evs
                /\ Forall (fun e => forall p, remote_file e = Some p -> allowed p) evs in
  touches_only (confined (remote_path self))
    (upload_file W env self file_data remote_filename)
  /\ touches_only (confined (remote_path self))
       (download_file W env self remote_filename)
  /\ touches_only (confined (remote_path self))
       (delete_file W env self remote_filename)
  /\ touches_only (fun _ => False) (list_files W env self remote_directory)
  /\ touches_only (fun _ => False) (test_connection W env self)
  /\ exists evs,
       snd (list_files W env self remote_directory tr) = tr ++ evs
       /\ Forall (fun e => forall d, e = EListdirAttr d ->
                            d = or_str remote_directory (remote_path self)) evs.
Proof.
  intros touches_only.
  assert (H : forall allowed m,
            sat (fun e => forall p, remote_file e = Some p -> allowed p)
                is_report (fun _ => False) m -> touches_only allowed m).
  { intros allowed m Hm. unfold touches_only.
    destruct (Hm tr) as (evs & Htr & Hevs & _). by exists evs. }
  split; [|split; [|split; [|split; [|split]]]]; try apply H.
  - apply sat_upload_file; try done; try (by split).
    intros p local Hp. by repeat split; intros ? [= <-].
  - apply sat_download_file; try done; try (by split).
    intros p local Hp. by repeat split; intros ? [= <-].
  - apply sat_delete_file; try done; try (by split).
    intros p local Hp. by repeat split; intros ? [= <-].
  - apply sat_list_files; try done; by split.
  - apply sat_test_connection; try done; by split.
  - assert (Hl : sat (fun e => forall d, e = EListdirAttr d ->
                                d = or_str remote_directory (remote_path self))
                   is_report (fun _ => False)
                   (list_files W env self remote_directory)).
    { unfold list_files, _list_files_via_sftp.
      repeat sat_step; try report;
        try (apply sat_get_sftp_connection; try done; by split);
        try (apply sat_cleanup; try done; by split);
        try done.
      by intros d [= <-]. }
    destruct (Hl tr) as (evs & Htr & Hevs & _). by exists evs.
Qed.

(** X5: unless [SFTP_ACCEPT_UNKNOWN_HOSTS] lowers to [true], no
    operation ever sets a host key policy other than [RejectPolicy],
    and every connect goes to the configured host and port with the
    configured credentials and a timeout of ten seconds. *)
Theorem connections_follow_the_configuration
    (W : oracle) (env : environ) (self : SFTPManager)
    (file_data : bytes) (remote_filename : str)
    (remote_directory : option str) (tr : trace) :
  lower (getenv_default env "SFTP_ACCEPT_UNKNOWN_HOSTS" (lit "false")) <> lit "true" ->
  let disciplined (operation : M value) :=
    exists evs, snd (operation tr) = tr ++ evs
                /\ Forall (follows_configuration self) evs in
  disciplined (upload_file W env self file_data remote_filename)
  /\ disciplined (download_file W env self remote_filename)
  /\ disciplined (list_files W env self remote_directory)
  /\ disciplined (delete_file W env self remote_filename)
  /\ disciplined (test_connection W env self).
Proof.
  intros Hpolicy disciplined.
  assert (H : forall m,
            sat (follows_configuration self) is_report (fun _ => False) m ->
            disciplined m).
  { intros m Hm. unfold disciplined.
    destruct (Hm tr) as (evs & Htr & Hevs & _). by exists evs. }
  repeat split; apply H.
  - apply sat_upload_file; try done; try (by split).
    by rewrite bool_decide_eq_false_2.
  - apply sat_download_file; try done; try (by split).
    by rewrite bool_decide_eq_false_2.
  - apply sat_list_files; try done; try (by split).
    by rewrite bool_decide_eq_false_2.
  - apply sat_delete_file; try done; try (by split).
    by rewrite bool_decide_eq_false_2.
  - apply sat_test_connection; try done; try (by split).
    by rewrite bool_decide_eq_false_2.
Qed.

Lemma connections_follow_the_configuration_witness :
  exists evs,
    snd (upload_file fixtures.accepting fixtures.configured_env
           fixtures.configured [x01] (lit "report.enc") []) = [] ++ evs
    /\ Forall (follows_configuration fixtures.configured) evs.
Proof.
  apply (connections_follow_the_configuration fixtures.accepting
           fixtures.configured_env fixtures.configured [x01]
           (lit "report.enc") None []).
  vm_compute. discriminate.
Defined.

(** X4: when establishing the connection fails, at whatever step, each
    operation returns the failure with the message of the exception,
    prints its two lines and calls nothing else: if [connect] had
    succeeded and [open_sftp] failed, the SSH client is never closed. *)
Theorem failed_connection_closes_nothing
    (W : oracle) (env : environ) (self : SFTPManager)
    (file_data : bytes) (remote_filename : str)
    (remote_directory : option str) (tr tr1 : trace) (e : exn) :
  dev_mode self = false ->
  _get_sftp_connection W env self tr = (Raise e, tr1) ->
  let reported (inner outer : string) : outcome value * trace :=
    (Return (failure (msg e)),
     tr1 ++ [EPrint (lit inner ++ msg e); EPrint (lit outer ++ msg e)]) in
  (rejected_name remote_filename = false ->
     upload_file W env self file_data remote_filename tr
     = reported "SFTP upload error: "%string "Upload error: "%string
     /\ download_file W env self remote_filename tr
        = reported "SFTP download error: "%string "Download error: "%string
     /\ delete_file W env self remote_filename tr
        = reported "SFTP delete error: "%string "Delete file error: "%string)
  /\ (rejected_directory remote_directory = false ->
        list_files W env self remote_directory tr
        = reported "SFTP list error: "%string "List files error: "%string)
  /\ test_connection W env self tr
     = reported "SFTP connection test error: "%string "Test connection error: "%string.
Proof.
  intros Hdev Hconn reported. split; [|split].
  - intros Hname. unfold rejected_name in Hname.
    unfold upload_file, download_file, delete_file, try_except.
    rewrite Hdev, Hname.
    unfold _upload_via_sftp, _download_via_sftp, _delete_file_via_sftp.
    rewrite Hconn. unfold reported. cbn. rewrite <- !app_assoc. done.
  - intros Hdir. unfold rejected_directory in Hdir.
    unfold list_files, try_except. rewrite Hdev, Hdir.
    unfold _list_files_via_sftp. rewrite Hconn.
    unfold reported. cbn. rewrite <- !app_assoc. done.
  - unfold test_connection, try_except. rewrite Hdev.
    unfold _test_connection_via_sftp. rewrite Hconn.
    unfold reported. cbn. rewrite <- !app_assoc. done.
Qed.


Lemma failed_connection_closes_nothing_witness :
  test_connection fixtures.no_subsystem fixtures.configured_env fixtures.configured []
  = (Return (failure (lit "Channel closed.")),
     (fixtures.connected
      ++ [EPrint (lit "SFTP connection error: Channel closed.")])
     ++ [EPrint (lit "SFTP connection test error: " ++ lit "Channel closed.");
         EPrint (lit "Test connection error: " ++ lit "Channel closed.")]).
Proof.
  apply (failed_connection_closes_nothing fixtures.no_subsystem fixtures.configured_env
           fixtures.configured [] [] None []
           _ (mk_exn SSHException (lit "Channel closed."))).
  - reflexivity.
  - vm_compute. reflexivity.
Defined.

(** X6: over an established connection, get and delete of a name the
    server does not hold return the failure "File not found on server"
    after the one [stat]; nothing is staged, fetched or removed, and
    the session is closed. *)
Theorem missing_remote_file_is_reported
    (W : oracle) (env : environ) (self : SFTPManager)
    (remote_filename : str) (tr tr1 : trace) (e : exn) :
  dev_mode self = false ->
  rejected_name remote_filename = false ->
  _get_sftp_connection W env self tr = (Return tt, tr1) ->
  let remote_file_path :=
    remote_path self ++ lit "/" ++ posixpath.basename remote_filename in
  sftp_stat W tr1 remote_file_path = Some e ->
  isinstance e FileNotFoundError = true ->
  let not_found : outcome value * trace :=
    (Return (failure (lit "File not found on server")),
     tr1 ++ [EStat remote_file_path; ESftpClose; ESshClose]) in
  download_file W env self remote_filename tr = not_found
  /\ delete_file W env self remote_filename tr = not_found.
Proof.
  intros Hdev Hname Hconn remote_file_path Hstat Hclass not_found.
  unfold rejected_name in Hname.
  unfold download_file, delete_file, try_except. rewrite Hdev, Hname.
  unfold _download_via_sftp, _delete_file_via_sftp. rewrite Hconn.
  fold remote_file_path. unfold call at 1 3. rewrite Hstat, Hclass.
  unfold not_found, try_finally, cleanup, swallow, try_except, World.bind, call, ret.
  cbn. 
  destruct (sftp_close W _); destruct (ssh_close W _); cbn;
    rewrite <- !app_assoc; done.
Qed.

Lemma missing_remote_file_is_reported_witness :
  delete_file fixtures.nothing_there fixtures.configured_env fixtures.configured
    (lit "old/report.enc") []
  = (Return (failure (lit "File not found on server")),
     fixtures.connected
     ++ [EStat (lit "/uploads/report.enc"); ESftpClose; ESshClose]).
Proof.
  apply (missing_remote_file_is_reported fixtures.nothing_there fixtures.configured_env
           fixtures.configured (lit "old/report.enc") [] fixtures.connected
           (mk_exn FileNotFoundError (lit "[Errno 2] No such file"))).
  - reflexivity.
  - vm_compute. reflexivity.
  - vm_compute. reflexivity.
  - reflexivity.
  - reflexivity.
Defined.

Section Closing.

Variable W : oracle.
Variable env : environ.
Variable self : SFTPManager.
Hypothesis unlink_raises_OSError :
  forall tr path e, os_unlink W tr path = Some e -> isinstance e OSError = true.

Lemma cleanup_closes temp_file_path tr :
  exists before,
    cleanup W temp_file_path true tr
    = (Return tt, tr ++ before ++ [ESftpClose; ESshClose])
    /\ Forall (fun e => ~ is_close e) before.
Proof.
  unfold cleanup, swallow, try_except_cls, try_except, World.bind, ask, call, print, call, ret, raise.
  destruct (truthy_opt temp_file_path).
  - destruct (os_path_exists W tr _).
    + destruct (os_unlink W _ _) as [e|] eqn:Hunlink.
      * rewrite (unlink_raises_OSError _ _ _ Hunlink).
        destruct (sftp_close W _), (ssh_close W _);
          eexists [_; _; _]; (split; [by rewrite <- !app_assoc|]);
          repeat constructor; intros [?|?]; discriminate.
      * destruct (sftp_close W _), (ssh_close W _);
          eexists [_; _]; (split; [by rewrite <- !app_assoc|]);
          repeat constructor; intros [?|?]; discriminate.
    + destruct (sftp_close W _), (ssh_close W _);
        eexists [_]; (split; [by rewrite <- !app_assoc|]);
        repeat constructor; intros [?|?]; discriminate.
  - destruct (sftp_close W _), (ssh_close W _);
      exists []; (split; [by rewrite <- !app_assoc|]); constructor.
Qed.

Lemma closing_finally {A} (m : M A) temp_file_path :
  sat (fun e => ~ is_close e) (fun _ => True) (fun _ => True) m ->
  closing (try_finally m (cleanup W temp_file_path true)).
Proof.
  intros Hm tr. destruct (Hm tr) as (evs & Htr & Hevs & _).
  unfold try_finally. destruct (m tr) as [r tr1]; cbn [snd] in Htr; subst tr1.
  destruct (cleanup_closes temp_file_path (tr ++ evs)) as (before & -> & Hbefore).
  exists (evs ++ before). cbn [snd]. split; [by rewrite <- !app_assoc|].
  by apply Forall_app.
Qed.

Lemma closing_case {A B} (m : M A) (g : A -> M B) (f : exn -> M B) :
  sat (fun e => ~ is_close e) (fun _ => True) (fun _ => True) m ->
  (forall a, closing (g a)) -> (forall e, closing (f e)) ->
  closing (fun tr => match m tr with
                     | (Return a, tr1) => g a tr1
                     | (Raise e, tr1) => f e tr1
                     end).
Proof.
  intros Hm Hg Hf tr. destruct (Hm tr) as (evs & Htr & Hevs & _).
  destruct (m tr) as [[a|e] tr1]; cbn [snd] in Htr; subst tr1.
  - destruct (Hg a (tr ++ evs)) as (before & -> & Hbefore).
    exists (evs ++ before). split; [by rewrite <- !app_assoc|]. by apply Forall_app.
  - destruct (Hf e (tr ++ evs)) as (before & -> & Hbefore).
    exists (evs ++ before). split; [by rewrite <- !app_assoc|]. by apply Forall_app.
Qed.


Lemma closing_after_connection {A} (g : unit -> M A) (f : exn -> M A) tr tr1 :
  (forall u, closing (g u)) ->
  _get_sftp_connection W env self tr = (Return tt, tr1) ->
  exists before,
    snd (match _get_sftp_connection W env self tr with
         | (Return a, tr1) => g a tr1
         | (Raise e, tr1) => f e tr1
         end) = tr1 ++ before ++ [ESftpClose; ESshClose]
    /\ Forall (fun e => ~ is_close e) before.
Proof. intros Hg ->. apply Hg. Qed.

Lemma closes_at_top (inner : M value) (what : string) tr tr1 :
  (exists before,
     snd (inner tr) = tr1 ++ before ++ [ESftpClose; ESshClose]
     /\ Forall (fun e => ~ is_close e) before) ->
  exists evs,
    snd (try_except inner
           (fun e => print (lit what ++ msg e) ;; ret (failure (msg e))) tr)
    = tr1 ++ evs
    /\ closes_session evs.
Proof.
  intros (before & Htr & Hbefore). unfold try_except.
  destruct (inner tr) as [[r|e] tr']; cbn [snd] in *; subst tr'.
  - exists (before ++ [ESftpClose; ESshClose]). split; [done|].
    exists before, []. by repeat split.
  - exists (before ++ [ESftpClose; ESshClose] ++ [EPrint (lit what ++ msg e)]).
    split; [cbn; by rewrite <- !app_assoc|].
    exists before, [EPrint (lit what ++ msg e)]. repeat split; [done|].
    apply Forall_singleton. by eexists.
Qed.

Ltac not_close := intros [?|?]; discriminate.

Ltac closing_step :=
  cbv beta zeta;
  match goal with
  | |- closing (fun tr => ?X tr) => progress change (closing X)
  | |- closing (try_finally _ (cleanup _ _ true)) =>
      apply closing_finally; repeat sat_step; try done; try not_close
  | |- closing (fun tr => if ?b then _ else _) => destruct b
  | |- closing (fun tr => match ?m tr with _ => _ end) =>
      apply closing_case;
      [repeat sat_step; try done; try not_close|intros ?|intros ?]
  end.

(** X3: once the connection is established, every operation closes
    it, whatever happens in between: the SFTP channel, then the SSH
    client, once each, and only console output follows.  [os.unlink]
    is taken to raise nothing but [OSError]. *)
Theorem established_session_is_closed
    (file_data : bytes) (remote_filename : str)
    (remote_directory : option str) (tr tr1 : trace) :
  dev_mode self = false ->
  _get_sftp_connection W env self tr = (Return tt, tr1) ->
  let closes (operation : M value) :=
    exists evs, snd (operation tr) = tr1 ++ evs /\ closes_session evs in
  (rejected_name remote_filename = false ->
     closes (upload_file W env self file_data remote_filename)
     /\ closes (download_file W env self remote_filename)
     /\ closes (delete_file W env self remote_filename))
  /\ (rejected_directory remote_directory = false ->
        closes (list_files W env self remote_directory))
  /\ closes (test_connection W env self).
Proof.
  intros Hdev Hconn closes. unfold closes. split; [|split].
  - intros Hname. unfold rejected_name in Hname.
    unfold upload_file, download_file, delete_file. rewrite Hdev, Hname.
    repeat split; apply closes_at_top.
    + apply closing_after_connection; [|done]. intros u. repeat closing_step.
    + apply closing_after_connection; [|done]. intros u. repeat closing_step.
    + apply closing_after_connection; [|done]. intros u. repeat closing_step.
  - intros Hdir. unfold rejected_directory in Hdir.
    unfold list_files. rewrite Hdev, Hdir. apply closes_at_top.
    apply closing_after_connection; [|done]. intros u. repeat closing_step.
  - unfold test_connection. rewrite Hdev. apply closes_at_top.
    apply closing_after_connection; [|done]. intros u. repeat closing_step.
Qed.

End Closing.

Lemma established_session_is_closed_witness :
  exists evs,
    snd (test_connection fixtures.accepting fixtures.configured_env
           fixtures.configured [])
    = fixtures.connected ++ evs
    /\ closes_session evs.
Proof.
  apply (established_session_is_closed fixtures.accepting fixtures.configured_env
           fixtures.configured).
  - intros tr path e H. discriminate.
  - exact [].
  - exact [].
  - exact None.
  - reflexivity.
  - vm_compute. reflexivity.
Defined.

(** X7: put reports success only if [sftp.put] and then [sftp.chmod]
    with mode 0600 returned normally, both on the configured remote
    directory joined with the last component of the name; the record
    names that component, that path and the size of the data. *)
Theorem upload_success_means_stored
    (W : oracle) (env : environ) (self : SFTPManager)
    (file_data : bytes) (remote_filename : str) (tr tr' : trace)
    (rest : list (str * value)) :
  upload_file W env self file_data remote_filename tr
  = (Return (PDict ((lit "success", PBool true) :: rest)), tr') ->
  let stored := posixpath.basename remote_filename in
  let remote_file_path := remote_path self ++ lit "/" ++ stored in
  rest = [(lit "remote_filename", PStr stored);
          (lit "remote_path", PStr remote_file_path);
          (lit "size", PInt (len file_data))]
  /\ exists before local after,
       tr' = before ++ EPut local remote_file_path
                    :: EChmod remote_file_path 384 :: after
       /\ sftp_put W before local remote_file_path = None
       /\ sftp_chmod W (before ++ [EPut local remote_file_path])
            remote_file_path 384 = None.
Proof.
  intros H stored remote_file_path.
  unfold upload_file, try_except in H.
  destruct (dev_mode self); [discriminate|].
  destruct (_ || _); [discriminate|].
  unfold _upload_via_sftp in H.
  destruct (_get_sftp_connection W env self tr) as [[[]|e] tr1].
  2:{ unfold try_finally, reraise_printing, cleanup, World.bind, print, call, ret, raise in H.
      cbn in H. discriminate. }
  match type of H with
  | context [match ?X tr1 with _ => _ end] => destruct (X tr1) as [[local|e] tr2]
  end.
  2:{ unfold try_finally, reraise_printing, cleanup, swallow, try_except, World.bind, print, call, ret, raise in H.
      cbn in H. repeat case_match; simplify_eq. }
  fold stored remote_file_path in H.
  unfold try_finally, try_except, reraise_printing, World.bind, print, call, ret, raise in H.
  destruct (sftp_put W tr2 local remote_file_path) eqn:Hput.
  { destruct (cleanup _ _ _ _) as [[[]|?] ?]; cbn in H; discriminate. }
  destruct (sftp_chmod W _ remote_file_path 384) eqn:Hchmod.
  { destruct (cleanup _ _ _ _) as [[[]|?] ?]; cbn in H; discriminate. }
  destruct (cleanup _ _ _ _) as [[[]|?] trc] eqn:Hclean; cbn in H; [|discriminate].
  injection H as <- <-. split; [done|].
  assert (Hext : sat (fun _ => True) (fun _ => True) (fun _ => True)
                   (cleanup W (Some local) true))
    by (apply sat_cleanup; by repeat split).
  destruct (Hext ((tr2 ++ [EPut local remote_file_path])
                  ++ [EChmod remote_file_path 384])) as (evs & Htr & _).
  rewrite Hclean in Htr. cbn [snd] in Htr.
  exists tr2, local, evs. split; [|done].
  rewrite Htr, <- !app_assoc. done.
Qed.
Lemma upload_success_means_stored_witness :
  let run :=
    upload_file fixtures.accepting fixtures.configured_env fixtures.configured
      [x01] (lit "/../etc/passwd") [] in
  exists before local after,
    snd run = before ++ EPut local (lit "/uploads/passwd")
                     :: EChmod (lit "/uploads/passwd") 384 :: after
    /\ sftp_put fixtures.accepting before local (lit "/uploads/passwd") = None
    /\ sftp_chmod fixtures.accepting
         (before ++ [EPut local (lit "/uploads/passwd")])
         (lit "/uploads/passwd") 384 = None.
Proof.
  intros run.
  refine (proj2 (upload_success_means_stored fixtures.accepting
                   fixtures.configured_env fixtures.configured [x01]
                   (lit "/../etc/passwd") [] (snd run) _ _)).
  vm_compute. reflexivity.
Defined.

(** *** The name check of put, get and delete *)

Section Proceeds.

Variable W : oracle.
Variable env : environ.
Variable self : SFTPManager.

Ltac events :=
  repeat sat_step; try done;
  try (apply sat_get_sftp_connection; done);
  try (apply sat_cleanup; done).

Lemma connection_begins_with_the_client :
  begins_with ESSHClient (_get_sftp_connection W env self).
Proof.
  unfold _get_sftp_connection.
  apply begins_with_try_except; [|intros x; unfold adds_events; events].
  apply (begins_with_case ESSHClient (call ESSHClient (fun _ => None))
           _ (fun x => raise x)); [apply begins_with_call| |].
  - intros _. unfold adds_events. events.
  - intros x. by apply sat_raise.
Qed.

Lemma upload_begins_with_the_client file_data name :
  begins_with ESSHClient (_upload_via_sftp W env self file_data name).
Proof.
  unfold _upload_via_sftp. cbv zeta.
  eapply (begins_with_case ESSHClient (_get_sftp_connection W env self));
    [apply connection_begins_with_the_client|intros a|intros x];
    unfold adds_events; events.
Qed.

Lemma download_begins_with_the_client name :
  begins_with ESSHClient (_download_via_sftp W env self name).
Proof.
  unfold _download_via_sftp. cbv zeta.
  eapply (begins_with_case ESSHClient (_get_sftp_connection W env self));
    [apply connection_begins_with_the_client|intros a|intros x];
    unfold adds_events; events.
Qed.

Lemma delete_begins_with_the_client name :
  begins_with ESSHClient (_delete_file_via_sftp W env self name).
Proof.
  unfold _delete_file_via_sftp. cbv zeta.
  eapply (begins_with_case ESSHClient (_get_sftp_connection W env self));
    [apply connection_begins_with_the_client|intros a|intros x];
    unfold adds_events; events.
Qed.

End Proceeds.

(** C4, as the code has it: outside development mode, put, get and
    delete reject a remote name exactly when its last path component
    (what follows the final [/]) is empty or begins with a dot, with
    the failure "Invalid filename" and before any outside call.  Every
    other name is not rejected: the operation is the transport body run
    on the last component, which holds no separator, and the first
    thing it does is to create the SSH client for the connection; what
    stood before the last component makes no difference. *)
Theorem remote_name_is_reduced_to_its_last_component
    (W : oracle) (env : environ) (self : SFTPManager)
    (file_data : bytes) (remote_filename : str) (tr : trace) :
  dev_mode self = false ->
  if rejected_name remote_filename
  then
    let rejected := (Return (failure (lit "Invalid filename")), tr) in
    upload_file W env self file_data remote_filename tr = rejected
    /\ download_file W env self remote_filename tr = rejected
    /\ delete_file W env self remote_filename tr = rejected
  else
    let sanitized_filename := posixpath.basename remote_filename in
    let proceeds (operation via_sftp : M value) (what : string) :=
      operation tr
      = try_except via_sftp
          (fun e => print (lit what ++ msg e) ;; ret (failure (msg e))) tr
      /\ exists evs, snd (operation tr) = tr ++ ESSHClient :: evs in
    Forall (fun c => c <> posixpath.sep) sanitized_filename
    /\ proceeds (upload_file W env self file_data remote_filename)
         (_upload_via_sftp W env self file_data sanitized_filename)
         "Upload error: "%string
    /\ proceeds (download_file W env self remote_filename)
         (_download_via_sftp W env self sanitized_filename)
         "Download error: "%string
    /\ proceeds (delete_file W env self remote_filename)
         (_delete_file_via_sftp W env self sanitized_filename)
         "Delete file error: "%string
    /\ upload_file W env self file_data remote_filename tr
       = upload_file W env self file_data sanitized_filename tr
    /\ download_file W env self remote_filename tr
       = download_file W env self sanitized_filename tr
    /\ delete_file W env self remote_filename tr
       = delete_file W env self sanitized_filename tr.
Proof.
  intros Hdev.
  pose proof (rejected_name_basename remote_filename) as Hb.
  destruct (rejected_name remote_filename) eqn:Hname.
  - unfold rejected_name in Hname.
    unfold upload_file, download_file, delete_file, try_except.
    rewrite Hdev. cbv zeta. by rewrite Hname.
  - cbv zeta. unfold rejected_name in Hname, Hb.
    assert (Hup : upload_file W env self file_data remote_filename
                  = try_except
                      (_upload_via_sftp W env self file_data
                         (posixpath.basename remote_filename))
                      (fun e => print (lit "Upload error: " ++ msg e) ;;
                                ret (failure (msg e)))).
    { unfold upload_file. rewrite Hdev. cbv zeta. by rewrite Hname. }
    assert (Hdown : download_file W env self remote_filename
                    = try_except
                        (_download_via_sftp W env self
                           (posixpath.basename remote_filename))
                        (fun e => print (lit "Download error: " ++ msg e) ;;
                                  ret (failure (msg e)))).
    { unfold download_file. rewrite Hdev. cbv zeta. by rewrite Hname. }
    assert (Hdel : delete_file W env self remote_filename
                   = try_except
                       (_delete_file_via_sftp W env self
                          (posixpath.basename remote_filename))
                       (fun e => print (lit "Delete file error: " ++ msg e) ;;
                                 ret (failure (msg e)))).
    { unfold delete_file. rewrite Hdev. cbv zeta. by rewrite Hname. }
    split; [apply basename_no_separator|].
    split; [|split; [|split]].
    + split; [by rewrite Hup|]. rewrite Hup.
      apply begins_with_try_except;
        [apply upload_begins_with_the_client|intros x; unfold adds_events].
      repeat sat_step; done.
    + split; [by rewrite Hdown|]. rewrite Hdown.
      apply begins_with_try_except;
        [apply download_begins_with_the_client|intros x; unfold adds_events].
      repeat sat_step; done.
    + split; [by rewrite Hdel|]. rewrite Hdel.
      apply begins_with_try_except;
        [apply delete_begins_with_the_client|intros x; unfold adds_events].
      repeat sat_step; done.
    + unfold upload_file, download_file, delete_file, try_except.
      rewrite Hdev, basename_idempotent. done.
Qed.

Lemma remote_name_is_reduced_to_its_last_component_witness :
  dev_mode fixtures.configured = false
  /\ upload_file fixtures.accepting fixtures.configured_env fixtures.configured
       [x01] (lit ".ssh/../../.profile") []
     = (Return (failure (lit "Invalid filename")), [])
  /\ exists evs,
       snd (delete_file fixtures.accepting fixtures.configured_env
              fixtures.configured (lit "/../etc/passwd") [])
       = [] ++ ESSHClient :: evs.
Proof.
  split; [reflexivity|]. split.
  - pose proof (remote_name_is_reduced_to_its_last_component fixtures.accepting
                  fixtures.configured_env fixtures.configured [x01]
                  (lit ".ssh/../../.profile") [] eq_refl) as H.
    exact (proj1 H).
  - pose proof (remote_name_is_reduced_to_its_last_component fixtures.accepting
                  fixtures.configured_env fixtures.configured [x01]
                  (lit "/../etc/passwd") [] eq_refl) as H.
    exact (proj2 (proj1 (proj2 (proj2 (proj2 H))))).
Defined.

End transport_properties.

(** ** The transport: directories and status *)

Module listing_properties.

Import notions posixpath sftp_client.

Lemma normpath_absolute path :
  startswith1 path sep = true -> startswith1 (normpath path) sep = true.
Proof.
  intros H. unfold normpath. destruct path as [|c r]; [discriminate|].
  rewrite bool_decide_eq_false_2 by done. cbv zeta. rewrite H.
  destruct (_ && _); cbn [repeat app]; by rewrite bool_decide_eq_false_2.
Qed.

Lemma contains_prefix sub s : contains sub (sub ++ s) = true.
Proof.
  assert (H : is_prefix sub (sub ++ s) = true).
  { induction sub as [|a r IH]; [done|]. cbn. by rewrite N.eqb_refl. }
  destruct sub, s; cbn in *; by rewrite ?H.
Qed.

Lemma contains_app_r sub a b : contains sub b = true -> contains sub (a ++ b) = true.
Proof.
  intros H. induction a as [|x r IH]; [done|].
  cbn [app contains]. rewrite IH. apply orb_true_r.
Qed.

Lemma contains_join comps :
  In dotdot comps -> contains dotdot (join_sep comps) = true.
Proof.
  induction comps as [|w ws IH]; [done|]. intros [->|Hin].
  - destruct ws; [done|]. cbn [join_sep]. apply contains_prefix.
  - destruct ws as [|w' ws']; [done|].
    change (join_sep (w :: w' :: ws')) with (w ++ sep :: join_sep (w' :: ws')).
    apply contains_app_r. change (sep :: ?l) with ([sep] ++ l).
    apply contains_app_r. by apply IH.
Qed.

(** The loop keeps the [..] it could not resolve at the bottom. *)
Lemma normpath_loop_keeps comps : forall names dds,
  Forall (fun c => c <> dotdot) names ->
  Forall (fun c => c = dotdot) dds ->
  dds <> [] \/ escapes_from (length names) comps = true ->
  In dotdot (normpath_loop 0 comps (names ++ dds)).
Proof.
  induction comps as [|comp rest IH]; intros names dds Hn Hd H.
  - destruct H as [H|H]; [|discriminate]. cbn [normpath_loop].
    rewrite <- in_rev. apply in_or_app. right.
    destruct dds as [|d ds]; [done|]. inversion Hd; subst. by left.
  - cbn [normpath_loop escapes_from] in *.
    destruct (bool_decide (comp = []) || bool_decide (comp = dot)).
    { by apply IH. }
    case_bool_decide as Hdd.
    + subst comp. cbn [negb orb].
      destruct names as [|n ns].
      * cbn [app length] in *.
        assert (E : Nat.eqb 0 0 && bool_decide (dds = [])
                    || match dds with
                       | last :: _ => bool_decide (last = dotdot)
                       | [] => false
                       end = true).
        { destruct dds as [|d ds]; [done|]. inversion Hd; subst.
          cbn. by rewrite bool_decide_eq_true_2. }
        rewrite E. apply (IH [] (dotdot :: dds)); [done|by constructor|by left].
      * inversion Hn as [|? ? Hne Hns]; subst. cbn [app length] in *.
        rewrite andb_false_r. cbn [orb].
        rewrite bool_decide_eq_false_2 by done. cbn [tl].
        apply IH; [done|done|]. destruct H as [H|H]; [by left|by right].
    + cbn [negb orb].
      apply (IH (comp :: names) dds); [by constructor|done|].
      destruct H as [H|H]; [by left|by right].
Qed.

Lemma normpath_escapes path :
  startswith1 path sep = false -> escapes path = true ->
  contains dotdot (normpath path) = true.
Proof.
  intros Hrel Hesc. unfold normpath.
  destruct path as [|c r]; [discriminate|].
  rewrite bool_decide_eq_false_2 by done. cbv zeta. rewrite Hrel.
  cbn [repeat app].
  pose proof (normpath_loop_keeps (split_sep (c :: r)) [] []
                ltac:(done) ltac:(done) (or_intror Hesc)) as Hin.
  cbn [app] in Hin. pose proof (contains_join _ Hin) as Hc.
  case_bool_decide as He; [|done]. rewrite He in Hc. discriminate.
Qed.

(** X8: a directory that is absolute, or that climbs above the
    directory it starts from, is never listed: the operation returns a
    failure before any outside call. *)
Theorem directories_outside_are_not_listed
    (W : oracle) (env : environ) (self : SFTPManager)
    (remote_directory : str) (tr : trace) :
  is_absolute remote_directory = true \/ escapes remote_directory = true ->
  exists error,
    list_files W env self (Some remote_directory) tr
    = (Return (failure error), tr).
Proof.
  intros H. unfold list_files, try_except.
  destruct (dev_mode self); [by eexists|].
  assert (Hne : remote_directory <> []).
  { intros ->. destruct H; discriminate. }
  cbn [truthy_opt default]. rewrite bool_decide_eq_false_2 by done. cbn [negb andb].
  destruct (startswith1 remote_directory 47) eqn:Habs.
  - pose proof (normpath_absolute _ Habs) as Hn. unfold sep in Hn.
    cbv zeta. unfold id. rewrite Hn, orb_true_r. by eexists.
  - destruct H as [H|H]; [unfold is_absolute in H; congruence|].
    cbv zeta. unfold id. rewrite (normpath_escapes _ Habs H). by eexists.
Qed.

Lemma directories_outside_are_not_listed_witness :
  exists error,
    list_files fixtures.accepting fixtures.configured_env fixtures.configured
      (Some (lit "inbox/./../../etc")) []
    = (Return (failure error), []).
Proof.
  apply (directories_outside_are_not_listed fixtures.accepting
           fixtures.configured_env fixtures.configured
           (lit "inbox/./../../etc") []).
  right. vm_compute. reflexivity.
Defined.

(** X9: a transport that was constructed outside development mode
    reports itself as configured, with the host and the user name of
    the environment; the password is no part of the report. *)
Theorem constructed_transport_reports_its_configuration
    (int_of_str : str -> outcome Z) (env : environ) (self : SFTPManager)
    (tr tr' : trace) :
  __init__ int_of_str env tr = (Return self, tr') ->
  dev_mode self = false ->
  exists h u,
    getenv env "SFTP_HOST" = Some h /\ getenv env "SFTP_USERNAME" = Some u
    /\ get_connection_status self
       = PDict [(lit "message", PStr (lit "SFTP connection configured"));
                (lit "host", PStr h);
                (lit "username", PStr u)].
Proof.
  unfold __init__. destruct (int_of_str _) as [po|e]; [|discriminate].
  cbv zeta.
  destruct (negb (truthy_opt (getenv env "SFTP_HOST"))
            || negb (truthy_opt (getenv env "SFTP_USERNAME"))
            || negb (truthy_opt (getenv env "SFTP_PASSWORD"))) eqn:Hmissing.
  - destruct (bool_decide (lower _ = _)) eqn:Hdev; cbn; [|discriminate].
    intros [= <- <-]. cbn [dev_mode]. discriminate.
  - intros [= <- <-] _.
    apply orb_false_elim in Hmissing as [Hmissing Hp].
    apply orb_false_elim in Hmissing as [Hh Hu].
    apply negb_false_iff in Hh, Hu, Hp.
    unfold get_connection_status. cbn [host username password].
    rewrite Hh, Hu, Hp.
    destruct (getenv env "SFTP_HOST") as [h|]; [|discriminate].
    destruct (getenv env "SFTP_USERNAME") as [u|]; [|discriminate].
    exists h, u. repeat split. cbn [truthy_opt or_str] in *.
    apply negb_true_iff in Hh, Hu. by rewrite Hh, Hu.
Qed.

Lemma constructed_transport_reports_its_configuration_witness :
  exists h u,
    getenv fixtures.configured_env "SFTP_HOST" = Some h
    /\ getenv fixtures.configured_env "SFTP_USERNAME" = Some u
    /\ get_connection_status fixtures.configured
       = PDict [(lit "message", PStr (lit "SFTP connection configured"));
                (lit "host", PStr h);
                (lit "username", PStr u)].
Proof.
  apply (constructed_transport_reports_its_configuration fixtures.int_of_digits
           fixtures.configured_env fixtures.configured [] []).
  - vm_compute. reflexivity.
  - reflexivity.
Defined.

End listing_properties.

(** ** The cipher: keys and tokens *)

Module key_properties.

Import notions encryption base64 Bytes_facts base64_facts fernet_facts SHA256_facts.

(** The decoder raises nothing but [binascii.Error]. *)
Lemma a2b_loop_raises s : forall quad_pos leftchar pads n_out e,
  a2b_loop s quad_pos leftchar pads n_out = Raise e -> cls e = BinasciiError.
Proof.
  induction s as [|ch rest IH]; intros quad_pos leftchar pads n_out e;
    cbn [a2b_loop].
  - destruct quad_pos as [|[|?]]; [discriminate|by intros [= <-]..].
  - destruct (Bytes.eqb ch pad).
    + destruct (2 <=? quad_pos)%nat; [|apply IH].
      destruct (4 <=? quad_pos + S pads)%nat; [discriminate|apply IH].
    + destruct (a2b ch) as [v|]; [|apply IH].
      destruct quad_pos as [|[|[|?]]]; [apply IH|..];
        (destruct (a2b_loop rest _ _ _ _) eqn:E; cbn [emit]; [discriminate|];
         intros [= <-]; by eapply IH).
Qed.

(** Four characters give at most three bytes. *)
Lemma a2b_loop_length s : forall quad_pos leftchar pads n_out out,
  a2b_loop s quad_pos leftchar pads n_out = Return out ->
  (4 * length out <= 3 * length s + slack quad_pos)%nat.
Proof.
  induction s as [|ch rest IH]; intros quad_pos leftchar pads n_out out;
    cbn [a2b_loop].
  - destruct quad_pos as [|[|?]]; [|discriminate..]. intros [= <-]. cbn. lia.
  - cbn [length]. destruct (Bytes.eqb ch pad).
    + destruct (2 <=? quad_pos)%nat.
      * destruct (4 <=? quad_pos + S pads)%nat.
        -- intros [= <-]. cbn. lia.
        -- intros H. apply IH in H. lia.
      * intros H. apply IH in H. lia.
    + destruct (a2b ch) as [v|]; [|intros H; apply IH in H; lia].
      destruct quad_pos as [|[|[|?]]].
      * intros H. apply IH in H. cbn [slack] in *. lia.
      * destruct (a2b_loop rest _ _ _ _) as [l|] eqn:E; cbn [emit]; [|discriminate].
        intros [= <-]. apply IH in E. cbn [slack length] in *. lia.
      * destruct (a2b_loop rest _ _ _ _) as [l|] eqn:E; cbn [emit]; [|discriminate].
        intros [= <-]. apply IH in E. cbn [slack length] in *. lia.
      * destruct (a2b_loop rest _ _ _ _) as [l|] eqn:E; cbn [emit]; [|discriminate].
        intros [= <-]. apply IH in E. cbn [slack length] in *. lia.
Qed.

Lemma urlsafe_b64decode_length s out :
  urlsafe_b64decode s = Return out -> (4 * length out <= 3 * length s)%nat.
Proof.
  unfold urlsafe_b64decode, b64decode. intros H.
  apply a2b_loop_length in H. rewrite length_map in H. cbn [slack] in H. lia.
Qed.

(** [Fernet] refuses every key of fewer than 43 bytes. *)
Lemma short_key_refused k :
  (length k <= 42)%nat -> fernet.__init__ k = Raise fernet.key_error.
Proof.
  intros H. unfold fernet.__init__.
  destruct (urlsafe_b64decode k) as [out|e] eqn:E.
  - apply urlsafe_b64decode_length in E.
    rewrite bool_decide_eq_false_2 by lia. done.
  - unfold urlsafe_b64decode, b64decode in E. apply a2b_loop_raises in E.
    unfold isinstance. rewrite E. done.
Qed.

(** X10: the configured key is decoded twice, once by [AESCipher] and
    once by [Fernet]: a value of [ENCRYPTION_KEY] that decodes to at
    most 42 bytes, as every key that [Fernet.generate_key] makes does,
    lets construction fail with [ValueError]. *)
Theorem configured_key_is_decoded_twice
    (env : environ) (urandom32 : bytes) (key_b64 : str) (b k : bytes) :
  getenv env "ENCRYPTION_KEY" = Some key_b64 ->
  utf8.encode key_b64 = Return b ->
  key_b64 <> [] ->
  base64.urlsafe_b64decode b = Return k ->
  (length k <= 42)%nat ->
  encryption.__init__ env urandom32 None = Raise fernet.key_error.
Proof.
  intros Henv Hb Hkey Hk Hlen. unfold encryption.__init__.
  cbn [truthy_opt]. rewrite Henv. cbn [truthy_opt default].
  rewrite bool_decide_eq_false_2 by done. cbn [negb].
  unfold key_from_environment, id. rewrite Hb, Hk.
  by rewrite short_key_refused.
Qed.

Lemma configured_key_is_decoded_twice_witness :
  encryption.__init__
    (<[lit "ENCRYPTION_KEY" := lit "cw_0x689RpI-jtRR7oE8h_eQsKImvJapLeSbXpwF4e4="]> ∅)
    fixtures.urandom32 None
  = Raise fernet.key_error.
Proof.
  apply (configured_key_is_decoded_twice
           (<[lit "ENCRYPTION_KEY" := lit "cw_0x689RpI-jtRR7oE8h_eQsKImvJapLeSbXpwF4e4="]> ∅)
           fixtures.urandom32
           (lit "cw_0x689RpI-jtRR7oE8h_eQsKImvJapLeSbXpwF4e4=")
           fixtures.secret fixtures.urandom32).
  - reflexivity.
  - vm_compute. reflexivity.
  - vm_compute. discriminate.
  - vm_compute. reflexivity.
  - vm_compute. lia.
Defined.


(** Text of the base64 alphabet is its own UTF-8 encoding. *)
Lemma encode_ascii (b : bytes) :
  Forall (fun x => (Bytes.to_N x < 128)%N) b ->
  utf8.encode (map Bytes.to_N b) = Return b.
Proof.
  induction 1 as [|x r Hx Hr IH]; [done|].
  cbn [map utf8.encode]. unfold utf8.encode_cp.
  destruct (N.ltb_spec (Bytes.to_N x) 128) as [_|]; [|lia].
  by rewrite IH, of_to_N.
Qed.

Lemma b2a_ascii v : (Bytes.to_N (b2a v) < 128)%N.
Proof.
  unfold b2a.
  destruct (N.ltb_spec v 26); [rewrite to_of_N by lia; lia|].
  destruct (N.ltb_spec v 52); [rewrite to_of_N by lia; lia|].
  destruct (N.ltb_spec v 62); [rewrite to_of_N by lia; lia|].
  destruct (v =? 62)%N; vm_compute; reflexivity.
Qed.

Lemma b64encode_ascii s : Forall (fun x => (Bytes.to_N x < 128)%N) (b64encode s).
Proof.
  assert (Hpad : (Bytes.to_N pad < 128)%N) by (vm_compute; reflexivity).
  induction s as [s IH] using (induction_ltof1 _ (@length byte)).
  unfold ltof in IH.
  destruct s as [|x [|y [|z r]]]; cbn [b64encode].
  - constructor.
  - repeat constructor; first [apply b2a_ascii | exact Hpad].
  - repeat constructor; first [apply b2a_ascii | exact Hpad].
  - do 4 (constructor; [apply b2a_ascii|]). apply IH. cbn [length]. lia.
Qed.

Lemma urlsafe_b64encode_ascii s :
  Forall (fun x => (Bytes.to_N x < 128)%N) (urlsafe_b64encode s).
Proof.
  unfold urlsafe_b64encode. apply Forall_map.
  eapply Forall_impl; [apply b64encode_ascii|].
  intros x Hx. unfold urlsafe_encode_translation.
  destruct (Bytes.eqb x "+"); [vm_compute; reflexivity|].
  destruct (Bytes.eqb x "/"); [vm_compute; reflexivity|done].
Qed.

Lemma b64encode_nonempty s : s <> [] -> b64encode s <> [].
Proof. by destruct s as [|x [|y [|z r]]]. Qed.

(** X11: the [key_b64] that [get_key_info] reports is the value of
    [ENCRYPTION_KEY] that rebuilds the cipher: with it in the
    environment and no password, construction returns the same key and
    the same Fernet object, and draws no random bytes. *)
Theorem reported_key_rebuilds_the_cipher
    (env env' : environ) (urandom32 urandom32' : bytes)
    (password : option str) (self : AESCipher) (info : list (str * value))
    (key_b64 : str) :
  encryption.__init__ env urandom32 password = Return self ->
  get_key_info self = PDict info ->
  dict_get info (lit "key_b64") = Some (PStr key_b64) ->
  encryption.__init__ (<[lit "ENCRYPTION_KEY" := key_b64]> env') urandom32' None
  = Return self.
Proof.
  intros Hinit [= <-] [= <-].
  unfold encryption.__init__ in *.
  destruct (if truthy_opt password then _ else _) as [k|e]; [|discriminate].
  destruct (fernet.__init__ k) as [f|e] eqn:Hf; [|discriminate].
  injection Hinit as <-. cbn [key encryption.fernet truthy_opt].
  unfold getenv.
  match goal with
  | |- context [?m !! ?i] =>
      replace (m !! i) with (Some (map Bytes.to_N (urlsafe_b64encode k)))
        by (symmetry; apply lookup_insert_eq)
  end.
  cbn [truthy_opt default].
  assert (Hk : k <> []).
  { intros ->. cbn in Hf. discriminate. }
  rewrite bool_decide_eq_false_2.
  2:{ intros H. apply map_eq_nil in H. unfold urlsafe_b64encode in H.
      apply map_eq_nil in H. by apply b64encode_nonempty in H. }
  cbn [negb]. unfold key_from_environment, id.
  rewrite encode_ascii by apply urlsafe_b64encode_ascii.
  by rewrite urlsafe_b64decode_urlsafe_b64encode, Hf.
Qed.

Lemma reported_key_rebuilds_the_cipher_witness :
  encryption.__init__
    (<[lit "ENCRYPTION_KEY" :=
         lit "Y3dfMHg2ODlScEktanRSUjdvRThoX2VRc0tJbXZKYXBMZVNiWHB3RjRlND0="]> ∅)
    [] None
  = Return fixtures.cipher.
Proof.
  apply (reported_key_rebuilds_the_cipher ∅ ∅ fixtures.urandom32 [] None
           fixtures.cipher
           [(lit "key_length", PInt 44);
            (lit "key_b64",
             PStr (lit "Y3dfMHg2ODlScEktanRSUjdvRThoX2VRc0tJbXZKYXBMZVNiWHB3RjRlND0="));
            (lit "algorithm", PStr (lit "AES-128-CBC (Fernet)"))]).
  - vm_compute. reflexivity.
  - vm_compute. reflexivity.
  - reflexivity.
Defined.


Lemma length_xor_bytes a b :
  length a = 32%nat -> length b = 32%nat ->
  length (SHA256.xor_bytes a b) = 32%nat.
Proof.
  intros Ha Hb. unfold SHA256.xor_bytes. rewrite length_zip_with. lia.
Qed.

Lemma length_pbkdf2 password salt iterations :
  length (SHA256.pbkdf2_hmac_sha256 password salt iterations) = 32%nat.
Proof.
  unfold SHA256.pbkdf2_hmac_sha256. cbv zeta.
  apply (N.iter_invariant (iterations - 1) _ _
           (fun ut : bytes * bytes => length (snd ut) = 32%nat)).
  - intros [u t] Ht. cbn [fst snd] in *.
    apply length_xor_bytes; [done|apply length_hmac_sha256].
  - apply length_hmac_sha256.
Qed.

Lemma length_b64encode s :
  length (b64encode s) = (4 * ((length s + 2) / 3))%nat.
Proof.
  induction s as [s IH] using (induction_ltof1 _ (@length byte)).
  unfold ltof in IH.
  destruct s as [|x [|y [|z r]]]; cbn [b64encode]; try reflexivity.
  cbn [length]. rewrite IH by (cbn [length]; lia).
  replace (S (S (S (length r))) + 2)%nat with (length r + 2 + 1 * 3)%nat by lia.
  rewrite Nat.div_add by lia. lia.
Qed.

Lemma length_urlsafe_b64encode s :
  length (urlsafe_b64encode s) = (4 * ((length s + 2) / 3))%nat.
Proof. unfold urlsafe_b64encode. by rewrite length_map, length_b64encode. Qed.

(** X12: with a non-empty password construction succeeds whatever
    [ENCRYPTION_KEY] holds; the key is the base64 text, 44 bytes long,
    of PBKDF2-HMAC-SHA256 over the password with 100000 iterations and
    the first sixteen bytes of the salt. *)
Theorem password_construction_succeeds
    (env : environ) (urandom32 : bytes) (password : str) (pw salt : bytes) :
  password <> [] ->
  utf8.encode password = Return pw ->
  utf8.encode (getenv_default env "ENCRYPTION_SALT" (lit "secure-sftp-salt"))
  = Return salt ->
  exists self,
    encryption.__init__ env urandom32 (Some password) = Return self
    /\ key self
       = base64.urlsafe_b64encode
           (SHA256.pbkdf2_hmac_sha256 pw (take 16 salt) 100000)
    /\ length (key self) = 44%nat.
Proof.
  intros Hne Hpw Hsalt. unfold encryption.__init__.
  cbn [truthy_opt default]. rewrite bool_decide_eq_false_2 by done. cbn [negb].
  unfold _derive_key_from_password, id. rewrite Hsalt, Hpw. cbv zeta.
  pose proof (length_pbkdf2 pw (take 16 salt) 100000) as Hlen.
  revert Hlen. generalize (SHA256.pbkdf2_hmac_sha256 pw (take 16 salt) 100000).
  intros dk Hlen.
  pose proof (init_generate_key _ Hlen) as Hf. unfold fernet.generate_key in Hf.
  rewrite Hf. eexists. split; [reflexivity|]. cbn [key]. split; [reflexivity|].
  by rewrite length_urlsafe_b64encode, Hlen.
Qed.

Lemma password_construction_succeeds_witness :
  exists self,
    encryption.__init__ ∅ [] (Some (lit "correct horse")) = Return self
    /\ key self
       = base64.urlsafe_b64encode
           (SHA256.pbkdf2_hmac_sha256
              (map Bytes.of_N (lit "correct horse"))
              (take 16 (map Bytes.of_N (lit "secure-sftp-salt"))) 100000)
    /\ length (key self) = 44%nat.
Proof.
  apply (password_construction_succeeds ∅ [] (lit "correct horse")
           (map Bytes.of_N (lit "correct horse"))
           (map Bytes.of_N (lit "secure-sftp-salt"))).
  - vm_compute. discriminate.
  - vm_compute. reflexivity.
  - vm_compute. reflexivity.
Defined.

Lemma token_char_b2a v :
  token_char (urlsafe_encode_translation (b2a v)) = true.
Proof.
  destruct (N.ltb_spec v 64) as [Hv|Hv].
  - revert v Hv.
    assert (H : forallb (fun n => token_char (urlsafe_encode_translation
                                                (b2a (N.of_nat n))))
                        (seq 0 64) = true) by (vm_compute; reflexivity).
    rewrite forallb_forall in H. intros v Hv.
    rewrite <- (N2Nat.id v). apply H. apply in_seq. lia.
  - unfold b2a.
    destruct (N.ltb_spec v 26); [lia|]. destruct (N.ltb_spec v 52); [lia|].
    destruct (N.ltb_spec v 62); [lia|]. destruct (N.eqb_spec v 62); [lia|].
    vm_compute. reflexivity.
Qed.

Lemma token_chars s : forallb token_char (urlsafe_b64encode s) = true.
Proof.
  unfold urlsafe_b64encode.
  induction s as [s IH] using (induction_ltof1 _ (@length byte)).
  unfold ltof in IH.
  destruct s as [|x [|y [|z r]]]; cbn [b64encode map forallb].
  - reflexivity.
  - rewrite !token_char_b2a. vm_compute. reflexivity.
  - rewrite !token_char_b2a. vm_compute. reflexivity.
  - rewrite !token_char_b2a. cbn [andb]. apply IH. cbn [length]. lia.
Qed.

(** X13: a ciphertext is text of the URL-safe base64 alphabet whose
    length depends on the length [n] of the plaintext alone:
    4 * ceil((73 + 16 * floor(n / 16)) / 3) characters. *)
Theorem token_is_text_of_known_length
    (env : environ) (urandom32 : bytes) (password : option str)
    (self : AESCipher) (now : Z) (iv p : bytes) :
  encryption.__init__ env urandom32 password = Return self ->
  0 <= now < 2 ^ 64 ->
  length iv = 16%nat ->
  exists c,
    encrypt self now iv (PBytes p) = Return c
    /\ length c = (4 * ((73 + 16 * (length p / 16) + 2) / 3))%nat
    /\ forallb token_char c = true.
Proof.
  intros Hinit Hnow Hiv.
  destruct (encryption_properties.cipher_key_lengths _ _ _ _ Hinit) as [_ Hkey].
  destruct (encrypt_succeeds (fernet self) p now iv Hkey Hiv Hnow)
    as (k & iv_block & ps & ts & Ek & Eiv & Eps & Hps & Hts & Henc).
  eexists. split; [|split].
  - rewrite encryption_properties.encrypt_bytes, Henc. reflexivity.
  - rewrite length_urlsafe_b64encode. f_equal. f_equal. f_equal.
    rewrite !length_app. cbn [length].
    rewrite length_hmac_sha256, AES_facts.length_bytes_of_blocks,
      AES_facts.length_cbc_encrypt, Hts, Hiv.
    assert (Hpad : (16 * length ps = length (fernet.pkcs7_pad p))%nat).
    { rewrite <- Hps. by rewrite AES_facts.length_bytes_of_blocks. }
    unfold fernet.pkcs7_pad in Hpad. rewrite length_app, repeat_length in Hpad.
    pose proof (Nat.div_mod_eq (length p) 16).
    pose proof (Nat.mod_upper_bound (length p) 16). lia.
  - apply token_chars.
Qed.

Lemma token_is_text_of_known_length_witness :
  exists c,
    encrypt fixtures.cipher fixtures.now fixtures.iv (PBytes (Bytes.ascii "hello"))
    = Return c
    /\ length c = 100%nat
    /\ forallb token_char c = true.
Proof.
  apply (token_is_text_of_known_length ∅ fixtures.urandom32 None fixtures.cipher
           fixtures.now fixtures.iv (Bytes.ascii "hello")).
  - vm_compute. reflexivity.
  - vm_compute. split; [discriminate|reflexivity].
  - reflexivity.
Defined.

End key_properties.

(** ** The envelope: framing *)

Module framing_properties.

Import notions encryption encryption_properties.

(** X14: the declared metadata length is not checked against the
    envelope: when it is at least what follows the four-byte prefix,
    all of it is read as metadata and the payload comes out empty,
    whatever the declared length is. *)
Theorem declared_length_is_not_checked
    (W : oracle) (env : environ) (urandom32 : bytes) (password : option str)
    (c : AESCipher) (now : Z) (iv prefix rest : bytes) (tr : trace) :
  encryption.__init__ env urandom32 password = Return c ->
  0 <= now < 2 ^ 64 ->
  length iv = 16%nat ->
  length prefix = 4%nat ->
  (N.of_nat (length rest) <= Bytes.from_big_endian prefix)%N ->
  let self := {| cipher := c |} in
  exists envelope,
    encrypt c now iv (PBytes (prefix ++ rest)) = Return envelope
    /\ decrypt_with_metadata W self (PBytes envelope) tr
       = try_except
           (match utf8.decode rest with
            | Raise e => raise e
            | Return source =>
                let* file_metadata := builtins.eval W source in
                ret (PDict [(lit "success", PBool true);
                            (lit "data", PBytes []);
                            (lit "metadata", file_metadata);
                            (lit "decrypted_size", PInt 0)])
            end)
           (fun e => ret (failure e)) tr.
Proof.
  intros Hinit Hnow Hiv Hprefix Hdeclared self.
  destruct (cipher_round_trip env urandom32 password c now iv (prefix ++ rest)
              Hinit Hnow Hiv) as (envelope & Henc & Hdec).
  exists envelope. split; [exact Henc|].
  unfold decrypt_with_metadata. cbn [cipher self]. rewrite Hdec. cbv zeta.
  rewrite (take_app_length' prefix rest 4) by done.
  rewrite (drop_app_length' prefix rest 4) by done.
  rewrite (take_ge rest) by lia.
  rewrite (drop_ge (prefix ++ rest)) by (rewrite length_app; lia).
  reflexivity.
Qed.

Lemma declared_length_is_not_checked_witness :
  exists envelope,
    encrypt fixtures.cipher fixtures.now fixtures.iv
      (PBytes ([xff; xff; xff; xff] ++ Bytes.ascii "{}")) = Return envelope
    /\ decrypt_with_metadata fixtures.accepting fixtures.manager
         (PBytes envelope) []
       = (Return (PDict [(lit "success", PBool true);
                         (lit "data", PBytes []);
                         (lit "metadata", PDict []);
                         (lit "decrypted_size", PInt 0)]), []).
Proof.
  apply (declared_length_is_not_checked fixtures.accepting ∅ fixtures.urandom32
           None fixtures.cipher fixtures.now fixtures.iv
           [xff; xff; xff; xff] (Bytes.ascii "{}") []).
  - vm_compute. reflexivity.
  - vm_compute. split; [discriminate|reflexivity].
  - reflexivity.
  - reflexivity.
  - vm_compute. discriminate.
Defined.

End framing_properties.

(** ** The cipher: files *)

Module file_properties.

Import notions os encryption encryption_properties.

Lemma endswith_app s suffix : endswith (s ++ suffix) suffix = true.
Proof.
  unfold endswith. rewrite length_app.
  apply andb_true_intro. split; [apply Nat.leb_le; lia|].
  apply bool_decide_eq_true_2.
  replace (length s + length suffix - length suffix)%nat with (length s) by lia.
  apply drop_app_length.
Qed.

Section RoundTrip.

Context {fs : Type} `{FileSystem fs}.

(** X15: with the default output paths, [decrypt_file] undoes
    [encrypt_file]: the file [p] is encrypted into [p.enc], and
    decrypting [p.enc] writes the original bytes back to [p].  The file
    system is any that holds what was written to it. *)
Theorem decrypt_file_restores_the_file
    (env : environ) (urandom32 : bytes) (password : option str)
    (self : AESCipher) (now : Z) (iv : bytes)
    (file_path : str) (file_data : bytes) (files files1 files2 : fs)
    (encrypted_data : bytes) :
  encryption.__init__ env urandom32 password = Return self ->
  0 <= now < 2 ^ 64 ->
  length iv = 16%nat ->
  path_exists files file_path = true ->
  read_bytes files file_path = Return file_data ->
  encrypt self now iv (PBytes file_data) = Return encrypted_data ->
  let encrypted_file_path := file_path ++ lit ".enc" in
  write_bytes files encrypted_file_path encrypted_data = (Return tt, files1) ->
  path_exists files1 encrypted_file_path = true ->
  read_bytes files1 encrypted_file_path = Return encrypted_data ->
  write_bytes files1 file_path file_data = (Return tt, files2) ->
  encrypt_file self now iv file_path None files
  = (PDict [(lit "success", PBool true);
            (lit "input_file", PStr file_path);
            (lit "output_file", PStr encrypted_file_path);
            (lit "original_size", PInt (len file_data));
            (lit "encrypted_size", PInt (len encrypted_data))],
     files1)
  /\ decrypt_file self encrypted_file_path None files1
     = (PDict [(lit "success", PBool true);
               (lit "input_file", PStr encrypted_file_path);
               (lit "output_file", PStr file_path);
               (lit "encrypted_size", PInt (len encrypted_data));
               (lit "decrypted_size", PInt (len file_data))],
        files2).
Proof.
  intros Hinit Hnow Hiv Hthere Hread Henc encrypted_file_path
    Hwrite Hthere1 Hread1 Hwrite1.
  destruct (cipher_round_trip env urandom32 password self now iv file_data
              Hinit Hnow Hiv) as (c & Hc & Hdec).
  rewrite Henc in Hc. injection Hc as <-.
  split.
  - unfold encrypt_file. rewrite Hthere, Hread, Henc. cbn [negb].
    fold encrypted_file_path. by rewrite Hwrite.
  - unfold decrypt_file. rewrite Hthere1, Hread1, Hdec. cbn [negb]. cbv zeta.
    match goal with
    | |- context [write_bytes files1 ?o file_data] =>
        assert (Hout : o = file_path)
    end.
    { unfold encrypted_file_path. rewrite endswith_app.
      replace (length (file_path ++ lit ".enc") - 4)%nat with (length file_path)
        by (rewrite length_app; change (length (lit ".enc")) with 4%nat; lia).
      apply take_app_length. }
    by rewrite Hout, Hwrite1.
Qed.

End RoundTrip.

Lemma decrypt_file_restores_the_file_witness :
  let files1 : plain_files :=
    <[lit "report.pdf.enc" := fixtures.sealed_report]> fixtures.report_on_disk in
  encrypt_file fixtures.cipher fixtures.now fixtures.iv (lit "report.pdf") None
    fixtures.report_on_disk
  = (PDict [(lit "success", PBool true);
            (lit "input_file", PStr (lit "report.pdf"));
            (lit "output_file", PStr (lit "report.pdf" ++ lit ".enc"));
            (lit "original_size", PInt (len fixtures.report));
            (lit "encrypted_size", PInt (len fixtures.sealed_report))],
     files1)
  /\ decrypt_file fixtures.cipher (lit "report.pdf" ++ lit ".enc") None files1
     = (PDict [(lit "success", PBool true);
               (lit "input_file", PStr (lit "report.pdf" ++ lit ".enc"));
               (lit "output_file", PStr (lit "report.pdf"));
               (lit "encrypted_size", PInt (len fixtures.sealed_report));
               (lit "decrypted_size", PInt (len fixtures.report))],
        <[lit "report.pdf" := fixtures.report]> files1).
Proof.
  intros files1.
  apply (decrypt_file_restores_the_file ∅ fixtures.urandom32 None
           fixtures.cipher fixtures.now fixtures.iv (lit "report.pdf")
           fixtures.report fixtures.report_on_disk).
  - vm_compute. reflexivity.
  - vm_compute. split; [discriminate|reflexivity].
  - reflexivity.
  - reflexivity.
  - reflexivity.
  - vm_compute. reflexivity.
  - reflexivity.
  - reflexivity.
  - reflexivity.
  - reflexivity.
Defined.

End file_properties.

(** ** The server: names of uploads *)

Module naming_properties.

Import posixpath sftp_client server sftp_client_properties.

(** X16: the name an upload is stored under forgets the uploader as
    soon as the file name holds a separator: the transport keeps the
    last component only, so the user name and the time stamp that
    [upload_file] of the server puts in front are dropped, and uploads
    of different users under such a name go to the same remote file. *)
Theorem stored_name_forgets_the_uploader
    (W : oracle) (env : environ) (self : SFTPManager) (file_data : bytes)
    (username stamp directory name : str) (tr : trace) :
  Forall (fun c => c <> posixpath.sep) name ->
  upload_file W env self file_data
    (remote_filename username stamp (directory ++ lit "/" ++ name)) tr
  = upload_file W env self file_data (name ++ lit ".enc") tr.
Proof.
  intros Hname.
  assert (Hplain : Forall (fun c => c <> posixpath.sep) (name ++ lit ".enc")).
  { apply Forall_app. split; [done|]. repeat constructor; discriminate. }
  assert (E : basename (remote_filename username stamp (directory ++ lit "/" ++ name))
              = name ++ lit ".enc").
  { unfold remote_filename.
    replace (username ++ lit "_" ++ stamp ++ lit "_"
             ++ (directory ++ lit "/" ++ name) ++ lit ".enc")
      with ((username ++ lit "_" ++ stamp ++ lit "_" ++ directory)
            ++ posixpath.sep :: (name ++ lit ".enc"))
      by (rewrite <- !app_assoc; reflexivity).
    by apply basename_after_last_separator. }
  unfold upload_file. by rewrite E, (basename_plain _ Hplain).
Qed.

Lemma stored_name_forgets_the_uploader_witness :
  upload_file fixtures.accepting fixtures.configured_env fixtures.configured
    [x01] (remote_filename (lit "alice") (lit "20240101_120000")
             (lit "x" ++ lit "/" ++ lit "notes.txt")) []
  = upload_file fixtures.accepting fixtures.configured_env fixtures.configured
      [x01] (lit "notes.txt" ++ lit ".enc") [].
Proof.
  apply (stored_name_forgets_the_uploader fixtures.accepting
           fixtures.configured_env fixtures.configured [x01]
           (lit "alice") (lit "20240101_120000") (lit "x") (lit "notes.txt") []).
  repeat constructor; discriminate.
Defined.

End naming_properties.

(** ** The in-memory storage *)

Module database_properties.

Import notions database builtins builtins_facts.

Section Dicts.
Context {A : Type}.
Implicit Types (d : list (str * A)) (k : str) (v : A).

Lemma lookup_store_eq d k v : lookup (store d k v) k = Some v.
Proof.
  induction d as [|[k' v'] r IH]; cbn [store lookup].
  - by rewrite bool_decide_eq_true_2.
  - case_bool_decide as Hk; cbn [lookup].
    + by rewrite bool_decide_eq_true_2.
    + by rewrite bool_decide_eq_false_2.
Qed.

Lemma lookup_store_ne d k k' v :
  k <> k' -> lookup (store d k v) k' = lookup d k'.
Proof.
  intros Hne. induction d as [|[k0 v0] r IH]; cbn [store lookup].
  - by rewrite bool_decide_eq_false_2.
  - case_bool_decide as Hk; cbn [lookup]; [|by rewrite IH].
    subst k0. by rewrite !bool_decide_eq_false_2.
Qed.

Lemma store_fresh d k v : lookup d k = None -> store d k v = d ++ [(k, v)].
Proof.
  induction d as [|[k' v'] r IH]; cbn [store lookup app]; [done|].
  case_bool_decide; [discriminate|]. intros Hr. by rewrite IH.
Qed.

Lemma store_keys (Q : str -> Prop) d k v :
  Forall (fun kv => Q (fst kv)) d -> Q k ->
  Forall (fun kv => Q (fst kv)) (store d k v).
Proof.
  intros Hd Hk. induction Hd as [|[k' v'] r Hx Hr IH]; cbn [store].
  - by constructor.
  - case_bool_decide; constructor; done.
Qed.

Lemma lookup_outside (Q : str -> Prop) d k :
  Forall (fun kv => Q (fst kv)) d -> ~ Q k -> lookup d k = None.
Proof.
  intros Hd Hk. induction Hd as [|[k' v'] r Hx Hr IH]; cbn [lookup]; [done|].
  case_bool_decide; [|done]. by subst.
Qed.

Lemma store_not_empty d k v : store d k v <> [].
Proof. by destruct d as [|[k' v'] r]; cbn; [|destruct (bool_decide _)]. Qed.

End Dicts.

(** Writing one key of a dict leaves its other keys, and the other
    dicts, as they were. *)
Lemma setitem_same heap d k v : setitem heap d k v d = store (heap d) k v.
Proof. unfold setitem. by rewrite bool_decide_eq_true_2. Qed.

Lemma setitem_other heap d d' k v : d' <> d -> setitem heap d k v d' = heap d'.
Proof. intros H. unfold setitem. by rewrite bool_decide_eq_false_2. Qed.

Lemma lookup_setitem_ne heap d d' k k' v :
  k <> k' -> lookup (setitem heap d k v d') k' = lookup (heap d') k'.
Proof.
  intros Hk. unfold setitem. case_bool_decide as Hd; [|done].
  subst d'. by apply lookup_store_ne.
Qed.

(** [str] of an int that is not negative determines it. *)
Lemma repr_int_inj a b :
  0 <= a -> 0 <= b -> repr_int a = repr_int b -> a = b.
Proof.
  intros Ha Hb. unfold repr_int.
  destruct (Z.ltb_spec a 0); [lia|]. destruct (Z.ltb_spec b 0); [lia|].
  intros Heq.
  destruct (decimal_spec (Z.to_N a)) as (da & Hda & _ & _ & Hsa).
  destruct (decimal_spec (Z.to_N b)) as (db & Hdb & _ & _ & Hsb).
  specialize (Hsa []). specialize (Hsb []).
  rewrite <- Hda in Hsa. rewrite <- Hdb in Hsb. rewrite Heq, Hsb in Hsa.
  cbn in Hsa. injection Hsa as Hsa. lia.
Qed.

Lemma issued_next self id :
  1 <= next_id self ->
  issued self id -> issued (snd (_get_next_id self)) id.
Proof. intros H (n & Hn & ->). exists n. cbn. split; [lia|done]. Qed.

Lemma issued_new self :
  1 <= next_id self ->
  issued (snd (_get_next_id self)) (fst (_get_next_id self)).
Proof. intros H. exists (next_id self + 1). cbn. split; [lia|done]. Qed.

Lemma not_yet_issued self :
  1 <= next_id self -> ~ issued self (fst (_get_next_id self)).
Proof.
  intros H (n & Hn & Heq). cbn in Heq. apply repr_int_inj in Heq; lia.
Qed.

Lemma well_formed_start : well_formed _use_memory_storage.
Proof. repeat split; try constructor. cbn. lia. Qed.

Lemma well_formed_serve self heap r :
  well_formed self -> well_formed (fst (serve (self, heap) r)).
Proof.
  intros (Hn & Hu & Ht & Ha & Hs).
  assert (Hnext : forall tbl : table,
            Forall (fun kv => issued self (fst kv)) tbl ->
            Forall (fun kv => issued (snd (_get_next_id self)) (fst kv)) tbl).
  { intros tbl Htbl. eapply Forall_impl; [exact Htbl|].
    intros kv. by apply issued_next. }
  destruct r as [user_data|user_id now|transfer_data
                |user_id activity_type details now activity_data|change];
    cbn [serve fst snd].
  - unfold create_user. cbn. repeat split; cbn; try lia; try by apply Hnext.
    apply store_keys; [by apply Hnext|by apply issued_new].
  - by repeat split.
  - unfold log_transfer. cbn. repeat split; cbn; try lia; try by apply Hnext.
    apply store_keys; [by apply Hnext|by apply issued_new].
  - unfold log_activity. cbn. repeat split; cbn; try lia; try by apply Hnext.
    apply store_keys; [by apply Hnext|by apply issued_new].
  - by repeat split.
Qed.

Lemma well_formed_after heap requests :
  well_formed (fst (after heap requests)).
Proof.
  unfold after. generalize well_formed_start.
  generalize _use_memory_storage. revert heap.
  induction requests as [|r rs IH]; intros heap self Hself; [done|].
  cbn [fold_left].
  destruct (serve (self, heap) r) as [self' heap'] eqn:Hr.
  apply IH. pose proof (well_formed_serve self heap r Hself) as H.
  by rewrite Hr in H.
Qed.

Lemma next_id_unused self : well_formed self -> unused self (fst (_get_next_id self)).
Proof.
  intros (Hn & Hu & Ht & Ha & Hs).
  pose proof (not_yet_issued self Hn) as Hnew.
  repeat split; eapply lookup_outside; eauto.
Qed.

(** X17: in a storage that started empty, whatever was done to it and
    to the dicts of the program since, the identifier that
    [create_user], [log_transfer] or [log_activity] hands out next
    names no record of any table. *)
Theorem identifiers_are_never_reused
    (dicts0 : dicts) (requests : list request)
    (user_data transfer_data activity_data : ref)
    (user_id activity_type details : value) (now : Z) :
  let self := fst (after dicts0 requests) in
  let heap := snd (after dicts0 requests) in
  unused self (fst (create_user self heap user_data))
  /\ unused self (fst (log_transfer self heap transfer_data))
  /\ unused self (fst (log_activity self heap user_id activity_type details
                         now activity_data)).
Proof.
  intros self heap.
  pose proof (next_id_unused self (well_formed_after dicts0 requests)) as H.
  repeat split; apply H.
Qed.

Lemma first_named_app heap users new username :
  first_named heap (users ++ [new]) username
  = match first_named heap users username with
    | Some earlier => Some earlier
    | None => first_named heap [new] username
    end.
Proof.
  induction users as [|user rest IH].
  - cbn [app first_named]. by destruct (equals_str _ _).
  - cbn [app first_named]. by destruct (equals_str _ _).
Qed.

(** Whom a name finds depends on the [username] fields alone. *)
Lemma first_named_ext heap heap' users username :
  (forall d, lookup (heap' d) (lit "username") = lookup (heap d) (lit "username")) ->
  first_named heap' users username = first_named heap users username.
Proof.
  intros H. induction users as [|user rest IH]; [done|].
  cbn [first_named]. by rewrite H, IH.
Qed.

Lemma create_user_appends self heap user_data :
  well_formed self ->
  users (fst (snd (create_user self heap user_data)))
  = users self ++ [(fst (create_user self heap user_data), user_data)].
Proof.
  intros Hwf. destruct (next_id_unused self Hwf) as [Hu _].
  unfold create_user. cbn. by apply store_fresh.
Qed.

(** X18: [create_user] stores the dict it is given, not a copy, and
    writes the new identifier into it.  Afterwards the name of that
    dict finds the dict object of the earliest user of that name: the
    one found before if there was one (the given dict itself, if it had
    been stored before: it then carries the new identifier), and the
    given dict otherwise.  Other names find whom they found before, and
    no other dict is changed. *)
Theorem created_user_is_found_by_name
    (dicts0 : dicts) (requests : list request) (user_data : ref)
    (username : str) :
  let self := fst (after dicts0 requests) in
  let heap := snd (after dicts0 requests) in
  lookup (heap user_data) (lit "username") = Some (Plain (PStr username)) ->
  let user_id := fst (create_user self heap user_data) in
  let self' := fst (snd (create_user self heap user_data)) in
  let heap' := snd (snd (create_user self heap user_data)) in
  get_user self' heap' username
  = Some (match get_user self heap username with
          | Some earlier => earlier
          | None => user_data
          end)
  /\ (forall other,
        other <> username -> get_user self' heap' other = get_user self heap other)
  /\ heap' user_data = store (heap user_data) (lit "id") (Plain (PStr user_id))
  /\ (forall d, d <> user_data -> heap' d = heap d).
Proof.
  intros self heap Hname user_id self' heap'.
  pose proof (create_user_appends self heap user_data
                (well_formed_after dicts0 requests)) as Happ.
  fold user_id self' in Happ.
  assert (Hheap : heap' = setitem heap user_data (lit "id") (Plain (PStr user_id)))
    by reflexivity.
  assert (Hsame : forall d, lookup (heap' d) (lit "username")
                            = lookup (heap d) (lit "username")).
  { intros d. rewrite Hheap. by apply lookup_setitem_ne. }
  unfold get_user. rewrite Happ, map_app. cbn [map snd].
  split; [|split; [|split]].
  - rewrite first_named_app, (first_named_ext heap heap') by done.
    destruct (first_named heap _ username); [done|].
    cbn [first_named]. rewrite Hsame, Hname. cbn.
    by rewrite bool_decide_eq_true_2.
  - intros other Hother.
    rewrite first_named_app, (first_named_ext heap heap') by done.
    destruct (first_named heap _ other); [done|].
    cbn [first_named]. rewrite Hsame, Hname. cbn.
    by rewrite bool_decide_eq_false_2.
  - rewrite Hheap. apply setitem_same.
  - intros d Hd. rewrite Hheap. by apply setitem_other.
Qed.

(** A dict that is handed to [create_user] twice is one record under
    two identifiers: its name finds it, carrying the later one. *)
Lemma created_user_is_found_by_name_witness :
  let self := fst (after fixtures.program_dicts [CreateUser 0%nat]) in
  let heap := snd (after fixtures.program_dicts [CreateUser 0%nat]) in
  let self' := fst (snd (create_user self heap 0%nat)) in
  let heap' := snd (snd (create_user self heap 0%nat)) in
  get_user self' heap' (lit "alice") = Some 0%nat
  /\ heap' 0%nat = [(lit "username", Plain (PStr (lit "alice")));
                    (lit "active", Plain (PBool true));
                    (lit "id", Plain (PStr (lit "3")))].
Proof.
  intros self heap self' heap'.
  destruct (created_user_is_found_by_name fixtures.program_dicts
              [CreateUser 0%nat] 0%nat (lit "alice") eq_refl)
    as (Hfound & _ & Hdict & _).
  split; [exact Hfound|exact Hdict].
Defined.

(** X19: a transfer that was logged is returned under its identifier
    to the user it names and to a caller that gives no user, and to no
    other user; what is returned is the dict that was given, with the
    identifier written into it. *)
Theorem logged_transfer_is_returned_to_its_owner
    (self : Database) (heap : dicts) (transfer_data : ref) (owner : str) :
  lookup (heap transfer_data) (lit "user_id") = Some (Plain (PStr owner)) ->
  let transfer_id := fst (log_transfer self heap transfer_data) in
  let self' := fst (snd (log_transfer self heap transfer_data)) in
  let heap' := snd (snd (log_transfer self heap transfer_data)) in
  get_transfer self' heap' transfer_id (Some owner) = Some transfer_data
  /\ get_transfer self' heap' transfer_id None = Some transfer_data
  /\ (forall other,
        other <> [] -> other <> owner ->
        get_transfer self' heap' transfer_id (Some other) = None)
  /\ heap' transfer_data
     = store (heap transfer_data) (lit "id") (Plain (PStr transfer_id)).
Proof.
  intros Howner transfer_id self' heap'.
  assert (Hl : lookup (transfers self') transfer_id = Some transfer_data)
    by apply lookup_store_eq.
  assert (Hstored : heap' transfer_data
                    = store (heap transfer_data) (lit "id")
                        (Plain (PStr transfer_id)))
    by apply setitem_same.
  assert (Hne : heap' transfer_data <> [])
    by (rewrite Hstored; apply store_not_empty).
  assert (Hrow : lookup (heap' transfer_data) (lit "user_id")
                 = Some (Plain (PStr owner)))
    by (rewrite Hstored, lookup_store_ne; [done|discriminate]).
  unfold get_transfer. rewrite Hl, Hrow.
  rewrite (bool_decide_eq_false_2 _ Hne). cbn [negb andb].
  split; [|split; [|split]].
  - cbn [default equals_str]. rewrite (bool_decide_eq_true_2 (owner = owner)) by done.
    by rewrite orb_true_r.
  - done.
  - intros other Hother Hdiff. cbn [truthy_opt default equals_str].
    rewrite (bool_decide_eq_false_2 (other = [])) by done.
    by rewrite (bool_decide_eq_false_2 (owner = other)).
  - exact Hstored.
Qed.

Lemma logged_transfer_is_returned_to_its_owner_witness :
  let self := fst (after fixtures.program_dicts [CreateUser 0%nat]) in
  let heap := snd (after fixtures.program_dicts [CreateUser 0%nat]) in
  get_transfer (fst (snd (log_transfer self heap 1%nat)))
    (snd (snd (log_transfer self heap 1%nat))) (lit "3") (Some (lit "7"))
  = None.
Proof.
  intros self heap.
  apply (logged_transfer_is_returned_to_its_owner self heap 1%nat (lit "2") eq_refl);
    discriminate.
Defined.

(** *** The latest transfers of a user *)










End database_properties.
